(** * FourierNet head: target assignment, polar sampling, Fourier codec, decoding

    A shallow embedding of [mmdet/models/anchor_heads/fouriernet_head.py].
    Floating-point tensors are modelled as lists of real numbers (exact
    arithmetic), integer tensors as lists of [Z]; a Python exception is
    modelled by [None] (or by an explicit exception value where the class
    of the exception matters).

    Part I holds the embedding, one module per component; Part II holds
    the properties. *)

From Stdlib Require Import ZArith List Bool Lia Reals Lra.
Import ListNotations.

Set Implicit Arguments.

(* ================================================================== *)
(** * Part I. The embedding *)
(* ================================================================== *)

(** ** Shared helpers: comparisons, ranges, indexing, loops *)

Module Prelude.

Definition Rltb (a b : R) : bool := if Rlt_dec a b then true else false.
Definition Rleb (a b : R) : bool := if Rle_dec a b then true else false.
Definition Reqb (a b : R) : bool := if Req_dec_T a b then true else false.

(** [ceil (a / b)] on integers, from floor division. *)
Definition ceil_div (a b : Z) : Z := (- ((- a) / b))%Z.

(** Python's [range(start, stop, step)] and [torch.arange] on integers:
    a zero step raises, otherwise [max 0 (ceil ((stop - start) / step))]
    values [start + k * step]. *)
Definition arange (start stop step : Z) : option (list Z) :=
  if (step =? 0)%Z then None
  else
    let len := Z.to_nat (Z.max 0 (ceil_div (stop - start) step)) in
    Some (map (fun k => (start + Z.of_nat k * step)%Z) (seq 0 len)).

(** [l[i] = v] on a list of known length: [IndexError] out of range. *)
Fixpoint set_nth {A : Type} (i : nat) (v : A) (l : list A) : option (list A) :=
  match l, i with
  | [], _ => None
  | _ :: t, O => Some (v :: t)
  | h :: t, S i' => option_map (cons h) (set_nth i' v t)
  end.

(** Tensor index assignment with an integer index: negative indices
    count from the end, anything else out of range raises. *)
Definition set_index {A : Type} (l : list A) (i : Z) (v : A) : option (list A) :=
  let len := Z.of_nat (length l) in
  if (0 <=? i)%Z then set_nth (Z.to_nat i) v l
  else if (- len <=? i)%Z then set_nth (Z.to_nat (len + i)) v l
  else None.

(** A [for] loop whose body may raise. *)
Fixpoint for_each {S A : Type} (body : S -> A -> option S) (s : S) (l : list A)
  : option S :=
  match l with
  | [] => Some s
  | a :: t => match body s a with
              | Some s' => for_each body s' t
              | None => None
              end
  end.

(** [t.max()] and [t.min()] of a 1-D tensor; an empty tensor raises. *)
Fixpoint tensor_max (l : list R) : option R :=
  match l with
  | [] => None
  | a :: t => match tensor_max t with
              | None => Some a
              | Some m => Some (Rmax a m)
              end
  end.

Fixpoint tensor_min (l : list R) : option R :=
  match l with
  | [] => None
  | a :: t => match tensor_min t with
              | None => Some a
              | Some m => Some (Rmin a m)
              end
  end.

(** [t.min(dim)] of one row: the minimum and the index of its first
    occurrence. *)
Fixpoint tensor_argmin (l : list R) : option (R * nat) :=
  match l with
  | [] => None
  | a :: t => match tensor_argmin t with
              | None => Some (a, O)
              | Some (m, i) => if Rle_dec a m then Some (a, O) else Some (m, S i)
              end
  end.

(** [m] is the largest (smallest) element of [l]. *)
Definition is_max (l : list R) (m : R) : Prop :=
  In m l /\ forall x, In x l -> (x <= m)%R.

Definition is_min (l : list R) (m : R) : Prop :=
  In m l /\ forall x, In x l -> (m <= x)%R.

(** [t[None].expand(n, ...)] along the leading dimension of [t]: a
    tensor of [n] rows is kept, a single row is repeated, anything else
    raises. *)
Definition expand {A : Type} (n : nat) (l : list A) : option (list A) :=
  if (length l =? n)%nat then Some l
  else match l with
       | [a] => Some (repeat a n)
       | _ => None
       end.

(** All-or-nothing map: the first exception aborts. *)
Fixpoint map_opt {A B : Type} (f : A -> option B) (l : list A) : option (list B) :=
  match l with
  | [] => Some []
  | a :: t => match f a, map_opt f t with
              | Some b, Some bs => Some (b :: bs)
              | _, _ => None
              end
  end.

End Prelude.

(** ** PointGrid: [get_points_single] *)

Module PointGrid.
Import Prelude.
Local Open Scope Z_scope.

(** [torch.meshgrid(a, b)] (matrix indexing): [fst] repeats [a] along
    columns, [snd] repeats [b] along rows. *)
Definition meshgrid (a b : list Z) : list (list Z) * list (list Z) :=
  (map (fun ai => map (fun _ => ai) b) a, map (fun _ => b) a).

(** [t.reshape(-1)] of a 2-D tensor: rows laid end to end. *)
Definition reshape_flat (t : list (list Z)) : list Z := concat t.

(** [torch.stack((a, b), dim=-1)] on 1-D tensors. *)
Definition stack_last (a b : list Z) : list (Z * Z) := combine a b.

(** [get_points_single(featmap_size, stride, dtype, device)]; the values
    are integral whatever the dtype. *)
Definition get_points_single (featmap_size : nat * nat) (stride : Z)
  : option (list (Z * Z)) :=
  let '(h, w) := featmap_size in
  match arange 0 (Z.of_nat w * stride) stride,
        arange 0 (Z.of_nat h * stride) stride with
  | Some x_range, Some y_range =>
      let '(y, x) := meshgrid y_range x_range in
      let points := stack_last (reshape_flat x) (reshape_flat y) in
      Some (map (fun p => (fst p + stride / 2, snd p + stride / 2)) points)
  | _, _ => None
  end.

(** The point of row [i], column [j] and the row-major grid, as the
    specification words them ([stride / 2] is floor division, the code's
    [stride // 2]). *)
Definition grid_point (stride : Z) (i j : nat) : Z * Z :=
  (Z.of_nat j * stride + stride / 2, Z.of_nat i * stride + stride / 2).

Definition grid (h w : nat) (stride : Z) : list (Z * Z) :=
  flat_map (fun i => map (fun j => grid_point stride i j) (seq 0 w)) (seq 0 h).

End PointGrid.

(** ** PolarSampler: [get_polar_coordinates] *)

Module PolarSampler.
Import Prelude.
Local Open Scope R_scope.

(** The fill value [1e-6] of an unmatched bin. *)
Definition epsilon : R := 1 / 1000000.

(** [torch.atan2(a, b)]: the angle of the vector [(b, a)], in
    [(-PI, PI]], with [atan2(0, 0) = 0]. *)
Definition atan2 (a b : R) : R :=
  if Rlt_dec 0 b then atan (a / b)
  else if Rlt_dec b 0 then
    (if Rle_dec 0 a then atan (a / b) + PI else atan (a / b) - PI)
  else if Rlt_dec 0 a then PI / 2
  else if Rlt_dec a 0 then - PI / 2
  else 0.

(** [t.int()]: truncation toward zero. *)
Definition to_int (r : R) : Z := if Rle_dec 0 r then Zfloor r else Zceil r.

(** Lines 57-61: the integer angle, in degrees, of a contour point seen
    from the centre; note the argument order [atan2(x, y)]. *)
Definition point_angle (c_x c_y : R) (p : R * R) : Z :=
  let x := fst p - c_x in
  let y := snd p - c_y in
  let angle := atan2 x y * 180 / PI in
  let angle := if Rlt_dec angle 0 then angle + 360 else angle in
  to_int angle.

(** Line 62: the distance of a contour point from the centre. *)
Definition point_dist (c_x c_y : R) (p : R * R) : R :=
  let x := fst p - c_x in
  let y := snd p - c_y in
  sqrt (x ^ 2 + y ^ 2).

(** Lines 63-64: [angle, idx = torch.sort(angle); dist = dist[idx]],
    as a sort of the (angle, dist) rows by angle. *)
Fixpoint insert_by_angle (e : Z * R) (l : list (Z * R)) : list (Z * R) :=
  match l with
  | [] => [e]
  | h :: t => if (fst e <=? fst h)%Z then e :: l else h :: insert_by_angle e t
  end.

Definition sort_by_angle (l : list (Z * R)) : list (Z * R) :=
  fold_right insert_by_angle [] l.

(** [i in angle]. *)
Definition tensor_in (i : Z) (angle : list Z) : bool := existsb (Z.eqb i) angle.

(** [dist[angle == i]]. *)
Definition mask_select (angle : list Z) (dist : list R) (i : Z) : list R :=
  map snd (filter (fun ad => (fst ad =? i)%Z) (combine angle dist)).

(** The dictionary [new_coordinate], in insertion order. *)
Definition dict : Type := list (Z * R).

Definition dict_get (d : dict) (k : Z) : option R :=
  option_map snd (find (fun e => (fst e =? k)%Z) d).

Fixpoint dict_set (d : dict) (k : Z) (v : R) : dict :=
  match d with
  | [] => [(k, v)]
  | e :: t => if (fst e =? k)%Z then (k, v) :: t else e :: dict_set t k v
  end.

(** Lines 69-89: the [if]/[elif] chain, which of the angles
    [i, i+1, i-1, i+2, i-2, i+3, i-3] is taken for bin [i]. *)
Definition nearest_angle (angle : list Z) (i : Z) : option Z :=
  if tensor_in i angle then Some i
  else if tensor_in (i + 1)%Z angle then Some (i + 1)%Z
  else if tensor_in (i - 1)%Z angle then Some (i - 1)%Z
  else if tensor_in (i + 2)%Z angle then Some (i + 2)%Z
  else if tensor_in (i - 2)%Z angle then Some (i - 2)%Z
  else if tensor_in (i + 3)%Z angle then Some (i + 3)%Z
  else if tensor_in (i - 3)%Z angle then Some (i - 3)%Z
  else None.

(** Body of the first loop (lines 68-89): every branch of the chain
    stores [dist[angle == a].max()] under key [i]. *)
Definition fill_coordinate (angle : list Z) (dist : list R)
    (new_coordinate : dict) (i : Z) : option dict :=
  match nearest_angle angle i with
  | Some a =>
      match tensor_max (mask_select angle dist a) with
      | Some d => Some (dict_set new_coordinate i d)
      | None => None
      end
  | None => Some new_coordinate
  end.

(** Body of the second loop (lines 93-98). *)
Definition write_distance (interval : Z) (st : list R * dict) (a : Z)
  : option (list R * dict) :=
  let '(distances, new_coordinate) := st in
  match dict_get new_coordinate a with
  | Some d =>
      option_map (fun ds => (ds, new_coordinate))
                 (set_index distances (a / interval)%Z d)
  | None =>
      let new_coordinate := dict_set new_coordinate a epsilon in
      option_map (fun ds => (ds, new_coordinate))
                 (set_index distances (a / interval)%Z epsilon)
  end.

(** Lines 66-100 on the sorted [angle] and [dist] tensors. [360 // n]
    raises for [n = 0], [range] for a zero step, [torch.zeros(n)] for a
    negative [n]. *)
Definition sample_bins (angle : list Z) (dist : list R) (n : Z)
  : option (list R * dict) :=
  if (n =? 0)%Z then None
  else
    let interval := (360 / n)%Z in
    match arange 0 360 interval with
    | None => None
    | Some bins =>
        match for_each (fill_coordinate angle dist) [] bins with
        | None => None
        | Some new_coordinate =>
            if (n <? 0)%Z then None
            else for_each (write_distance interval)
                          (repeat 0 (Z.to_nat n), new_coordinate) bins
        end
    end.

(** [get_polar_coordinates(c_x, c_y, pos_mask_contour, n)]; the contour
    is given by its rows [(x, y)] (both tensor layouts the function
    accepts denote the same rows). *)
Definition get_polar_coordinates (c_x c_y : R) (ct : list (R * R)) (n : Z)
  : option (list R * dict) :=
  let sorted :=
    sort_by_angle
      (map (fun p => (point_angle c_x c_y p, point_dist c_x c_y p)) ct) in
  sample_bins (map fst sorted) (map snd sorted) n.

(** The search order of the specification. *)
Definition priority (i : Z) : list Z :=
  [i; i + 1; i - 1; i + 2; i - 2; i + 3; i - 3]%Z.

(** Some contour point has integer angle [a]. *)
Definition has_angle (c_x c_y : R) (ct : list (R * R)) (a : Z) : bool :=
  existsb (fun p => (point_angle c_x c_y p =? a)%Z) ct.

(** [d] is the maximum distance among the contour points of angle [a]. *)
Definition is_max_dist (c_x c_y : R) (ct : list (R * R)) (a : Z) (d : R) : Prop :=
  (exists p, In p ct /\ point_angle c_x c_y p = a /\ point_dist c_x c_y p = d) /\
  (forall q, In q ct -> point_angle c_x c_y q = a -> point_dist c_x c_y q <= d).

(** The rows of the sorted tensors are the (angle, distance) rows of
    the contour. *)
Definition rows (c_x c_y : R) (ct : list (R * R)) : list (Z * R) :=
  sort_by_angle (map (fun p => (point_angle c_x c_y p, point_dist c_x c_y p)) ct).

(** What the first loop stores under key [i], if anything. *)
Definition stored (angle : list Z) (dist : list R) (i : Z) : option R :=
  match nearest_angle angle i with
  | Some a => tensor_max (mask_select angle dist a)
  | None => None
  end.

(** The value the second loop writes for key [a]. *)
Definition written (nc : dict) (a : Z) : R :=
  match dict_get nc a with
  | Some d => d
  | None => epsilon
  end.

End PolarSampler.

(** ** CenternessScorer: [polar_centerness_target] *)

Module CenternessScorer.
Import Prelude.
Local Open Scope R_scope.

(** [polar_centerness_target(pos_mask_targets, max_centerness)]. The
    test [if max_centerness:] is Python truthiness: [None] and a zero
    value both skip the division. *)
Definition polar_centerness_target (pos_mask_targets : list R)
    (max_centerness : option R) : option R :=
  match tensor_min pos_mask_targets, tensor_max pos_mask_targets with
  | Some mn, Some mx =>
      let centerness_targets := sqrt (mn / mx) in
      let centerness_targets :=
        match max_centerness with
        | Some m => if Req_dec_T m 0 then centerness_targets
                    else centerness_targets / m
        | None => centerness_targets
        end in
      Some (Rmin centerness_targets 1)
  | _, _ => None
  end.

End CenternessScorer.

(** ** FourierCodec: the transforms used by [loss] and [distance2mask] *)

Module FourierCodec.
Local Open Scope R_scope.

(** [sum_{k < n} f k]. *)
Fixpoint Rsum (f : nat -> R) (n : nat) : R :=
  match n with
  | O => 0
  | S m => Rsum f m + f m
  end.

(** The phase [2 PI k n / N]. *)
Definition phase (N k n : nat) : R := 2 * PI * INR k * INR n / INR N.

(** [torch.rfft(x, 1, True, False)] on one signal: [normalized=True],
    [onesided=False], i.e. all [N] bins of the discrete Fourier transform
    of a real signal, scaled by [1 / sqrt N]; a complex number is the
    pair (real, imaginary) of the trailing tensor dimension. *)
Definition rfft (x : list R) : list (R * R) :=
  let N := length x in
  map (fun k =>
         (Rsum (fun n => nth n x 0 * cos (phase N k n)) N / sqrt (INR N),
          - Rsum (fun n => nth n x 0 * sin (phase N k n)) N / sqrt (INR N)))
      (seq 0 N).

(** The spectrum a complex-to-real transform of length [N] reads: bins
    [0 .. N/2] as given, the others as the conjugates of their mirror
    bins (Hermitian symmetry). *)
Definition hermitian (X : list (R * R)) (k : nat) : R * R :=
  let N := length X in
  if (k <=? N / 2)%nat then nth k X (0, 0)
  else let '(a, b) := nth (N - k) X (0, 0) in (a, - b).

(** [torch.irfft(X, 1, True, False)] on one spectrum of [N] bins:
    [normalized=True], [onesided=False], the real inverse transform of
    length [N], scaled by [1 / sqrt N]. *)
Definition irfft (X : list (R * R)) : list R :=
  let N := length X in
  map (fun n =>
         Rsum (fun k => let '(a, b) := hermitian X k in
                        a * cos (phase N k n) - b * sin (phase N k n)) N
         / sqrt (INR N))
      (seq 0 N).

(** [loss], lines 442-443: the mask target as its first [num_coe]
    coefficients. *)
Definition coe_targets (num_coe : nat) (pos_mask_targets : list R)
  : list (R * R) :=
  firstn num_coe (rfft pos_mask_targets).

(** [torch.cat([c, torch.zeros(contour_points - num_coe, 2)])]: a
    negative size raises. *)
Definition pad_coe (contour_points num_coe : nat) (c : list (R * R))
  : option (list (R * R)) :=
  if (contour_points <? num_coe)%nat then None
  else Some (c ++ repeat (0, 0) (contour_points - num_coe)).

(** The inverse transform of [distance2mask] (lines 777-779) and of
    [loss] (lines 385-387), before the exponential. *)
Definition irfft_padded (contour_points num_coe : nat) (c : list (R * R))
  : option (list R) :=
  option_map irfft (pad_coe contour_points num_coe c).

(** The same with the trailing [.exp()]: the decoded distances. *)
Definition decode_coe (contour_points num_coe : nat) (c : list (R * R))
  : option (list R) :=
  option_map (map exp) (irfft_padded contour_points num_coe c).

(** Bin [k] of the forward transform. *)
Definition bin (x : list R) (k : nat) : R * R :=
  let N := length x in
  (Rsum (fun n => nth n x 0 * cos (phase N k n)) N / sqrt (INR N),
   - Rsum (fun n => nth n x 0 * sin (phase N k n)) N / sqrt (INR N)).

End FourierCodec.

(** ** The head's configuration ([FourierNetHead.__init__]) *)

Module Head.

Record FourierNetHead : Type := {
  strides : list R;
  regress_ranges : list (R * R);
  center_sample : bool;
  use_mask_center : bool;
  radius : R;
  contour_points : nat;
  use_fourier : bool;
  num_coe : nat;
  visulize_coe : nat;
  normalized_centerness : bool;
  mask_nms : bool;
  (** set by [loss] before [polar_target] runs *)
  num_points_per_level : list nat
}.

(** The defaults of the constructor (lines 131-151), with [INF = 1e8];
    [num_points_per_level] is unset until [loss] runs. *)
Definition default_head : FourierNetHead := {|
  strides := [4; 8; 16; 32; 64]%R;
  regress_ranges :=
    [(-1, 64); (64, 128); (128, 256); (256, 512); (512, 100000000)]%R;
  center_sample := true;
  use_mask_center := true;
  radius := (15 / 10)%R;
  contour_points := 360;
  use_fourier := false;
  num_coe := 36;
  visulize_coe := 36;
  normalized_centerness := false;
  mask_nms := false;
  num_points_per_level := []
|}.

(** The same head built with another [center_sample]. *)
Definition with_center_sample (b : bool) (self : FourierNetHead) : FourierNetHead := {|
  strides := strides self;
  regress_ranges := regress_ranges self;
  center_sample := b;
  use_mask_center := use_mask_center self;
  radius := radius self;
  contour_points := contour_points self;
  use_fourier := use_fourier self;
  num_coe := num_coe self;
  visulize_coe := visulize_coe self;
  normalized_centerness := normalized_centerness self;
  mask_nms := mask_nms self;
  num_points_per_level := num_points_per_level self
|}.

(** [self.interval = 360 // self.contour_points]; integer division by
    zero raises at construction. *)
Definition interval (self : FourierNetHead) : option Z :=
  if (contour_points self =? 0)%nat then None
  else Some (360 / Z.of_nat (contour_points self))%Z.

End Head.

(** ** TargetAssigner: [get_mask_sample_region], [polar_target_single],
    [polar_target] *)

Module TargetAssigner.
Import Prelude Head.
Local Open Scope R_scope.

(** The sentinel [INF = 1e8]. *)
Definition INF : R := 100000000.

(** A row of four numbers: a box [(x0, y0, x1, y1)] or the distances
    [(left, top, right, bottom)]. *)
Definition box : Type := (R * R * R * R)%type.

Definition zero_box : box := (0, 0, 0, 0).

Definition min4 (t : box) : R :=
  let '(a, b, c, d) := t in Rmin (Rmin (Rmin a b) c) d.

Definition max4 (t : box) : R :=
  let '(a, b, c, d) := t in Rmax (Rmax (Rmax a b) c) d.

(** Lines 553-554. *)
Definition area (bb : box) : R :=
  let '(x0, y0, x1, y1) := bb in (x1 - x0 + 1) * (y1 - y0 + 1).

(** Lines 566-570: [left, top, right, bottom] of a point for a box. *)
Definition box_distances (pt : R * R) (bb : box) : box :=
  let '(x0, y0, x1, y1) := bb in
  let '(xs, ys) := pt in
  (xs - x0, ys - y0, x1 - xs, y1 - ys).

(** The stride of the level whose slice [[beg, end)] of the point list
    holds index [p] (the [for level, n_p] loop of
    [get_mask_sample_region]); [None] for an index past every slice. *)
Fixpoint level_stride (strides : list R) (num_points_per : list nat) (p : nat)
  : option R :=
  match num_points_per, strides with
  | n_p :: nps, s :: ss =>
      if (p <? n_p)%nat then Some s else level_stride ss nps (p - n_p)
  | _, _ => None
  end.

(** Lines 32-40: the sample region around the mask centre, limited to
    the box; rows no slice reaches keep the zeros of [center_gt]. *)
Definition center_gt (stride : option R) (bb : box) (mask_center : R * R) : box :=
  match stride with
  | None => (0, 0, 0, 0)
  | Some stride =>
      let '(x0, y0, x1, y1) := bb in
      let center_y := fst mask_center in
      let center_x := snd mask_center in
      let xmin := center_x - stride in
      let ymin := center_y - stride in
      let xmax := center_x + stride in
      let ymax := center_y + stride in
      (if Rltb x0 xmin then xmin else x0,
       if Rltb y0 ymin then ymin else y0,
       if Rltb x1 xmax then x1 else xmax,
       if Rltb y1 ymax then y1 else ymax)
  end.

(** [get_mask_sample_region(gt_bb, mask_center, strides, num_points_per,
    gt_xs, gt_ys, radius)], on the unexpanded boxes, centres and
    points. *)
Definition get_mask_sample_region (gt_bb : list box) (mask_center : list (R * R))
    (strides : list R) (num_points_per : list nat) (points : list (R * R))
    (radius : R) : option (list (list bool)) :=
  match mask_center with
  | [] => None
  | c0 :: _ =>
      if Reqb (fold_right Rplus 0 (map (fun _ => snd c0) points)) 0
      then Some (map (fun _ => map (fun _ => false) gt_bb) points)
      else if (length strides <? length num_points_per)%nat then None
      else
        Some (map (fun ip =>
                let stride :=
                  option_map (fun s => s * radius)
                             (level_stride strides num_points_per (fst ip)) in
                map (fun bc =>
                       Rltb 0 (min4 (box_distances (snd ip)
                                       (center_gt stride (fst bc) (snd bc)))))
                    (combine gt_bb mask_center))
              (combine (seq 0 (length points)) points))
  end.

(** Lines 574-591: the inclusion test of every point for every
    instance. [self.get_sample_region] is defined nowhere in the class,
    so that branch raises. *)
Definition inside_gt_bbox_mask (self : FourierNetHead) (gt_bboxes : list box)
    (mask_centers : list (R * R)) (points : list (R * R))
  : option (list (list bool)) :=
  if center_sample self then
    if use_mask_center self then
      get_mask_sample_region gt_bboxes mask_centers (strides self)
        (num_points_per_level self) points (radius self)
    else None
  else
    Some (map (fun pt =>
                 map (fun bb => Rltb 0 (min4 (box_distances pt bb))) gt_bboxes)
              points).

(** Lines 595-599. *)
Definition inside_regress_range (regress_range : R * R) (pt : R * R) (bb : box)
  : bool :=
  let max_regress_distance := max4 (box_distances pt bb) in
  Rleb (fst regress_range) max_regress_distance
  && Rleb max_regress_distance (snd regress_range).

(** Lines 601-602 for one point: the areas with [INF] written where a
    test fails. *)
Definition masked_areas (inside : list bool) (regress_range : R * R)
    (pt : R * R) (gt_bboxes : list box) : list R :=
  map (fun bi =>
         let areas := area (fst bi) in
         let areas := if negb (snd bi) then INF else areas in
         let areas :=
           if negb (inside_regress_range regress_range pt (fst bi))
           then INF else areas in
         areas)
      (combine gt_bboxes inside).

(** Lines 603-608 for one point: label, box target and the index of the
    assigned instance. *)
Definition assign_point (gt_bboxes : list box) (gt_labels : list Z)
    (inside : list bool) (regress_range : R * R) (pt : R * R)
  : option (Z * box * nat) :=
  match tensor_argmin (masked_areas inside regress_range pt gt_bboxes) with
  | None => None
  | Some (min_area, min_area_inds) =>
      match nth_error gt_labels min_area_inds,
            nth_error gt_bboxes min_area_inds with
      | Some label, Some bb =>
          Some (if Reqb min_area INF then 0%Z else label,
                box_distances pt bb, min_area_inds)
      | _, _ => None
      end
  end.

(** Lines 552-608: the assignment of every point. The masked
    assignment of line 601 needs one area per label; the [expand] calls
    of lines 559 and 573 fit the regression ranges to the points and
    the centres to the labels. *)
Definition assign_labels (self : FourierNetHead) (gt_bboxes : list box)
    (gt_labels : list Z) (mask_centers : list (R * R))
    (points : list (R * R)) (regress_ranges : list (R * R))
  : option (list (Z * box * nat)) :=
  let num_points := length points in
  let num_gts := length gt_labels in
  if negb (length gt_bboxes =? num_gts)%nat then None
  else
    match expand num_points regress_ranges, expand num_gts mask_centers with
    | Some regress_ranges, Some mask_centers =>
        match inside_gt_bbox_mask self gt_bboxes mask_centers points with
        | None => None
        | Some inside =>
            map_opt (fun x =>
                       assign_point gt_bboxes gt_labels (snd x) (snd (fst x))
                                    (fst (fst x)))
                    (combine (combine points regress_ranges) inside)
        end
    | _, _ => None
    end.

(** Lines 616-624 for one point: the mask row and the centerness
    target; a background point keeps the zeros. *)
Definition mask_target (self : FourierNetHead) (gt_masks : list (list (R * R)))
    (gt_max_centerness : list R) (pt : R * R) (a : Z * box * nat)
  : option (list R * R) :=
  let '(label, _, i) := a in
  if (label =? 0)%Z then Some (repeat 0 (contour_points self), 0)
  else
    match nth_error gt_masks i with
    | None => None
    | Some pos_mask_contour =>
        match PolarSampler.get_polar_coordinates (fst pt) (snd pt)
                pos_mask_contour (Z.of_nat (contour_points self)) with
        | None => None
        | Some (dists, _) =>
            let centerness :=
              if normalized_centerness self then
                match nth_error gt_max_centerness i with
                | Some m =>
                    CenternessScorer.polar_centerness_target dists (Some m)
                | None => None
                end
              else CenternessScorer.polar_centerness_target dists None in
            option_map (fun c => (dists, c)) centerness
        end
    end.

(** The tensors a target tuple holds. *)
Inductive tensor : Type :=
| Labels (l : list Z)
| Boxes (l : list box)
| Rows (l : list (list R))
| Scalars (l : list R).

(** [polar_target_single(gt_bboxes, gt_masks, gt_labels, mask_centers,
    gt_max_centerness, points, regress_ranges)]: the returned tuple, as
    the list of its components. *)
Definition polar_target_single (self : FourierNetHead) (gt_bboxes : list box)
    (gt_masks : list (list (R * R))) (gt_labels : list Z)
    (mask_centers : list (R * R)) (gt_max_centerness : list R)
    (points : list (R * R)) (regress_ranges : list (R * R))
  : option (list tensor) :=
  let num_points := length points in
  let num_gts := length gt_labels in
  if (num_gts =? 0)%nat then
    Some [Labels (repeat 0%Z num_points); Boxes (repeat (0, 0, 0, 0) num_points)]
  else
    match assign_labels self gt_bboxes gt_labels mask_centers points
                        regress_ranges with
    | None => None
    | Some assigned =>
        match map_opt (fun x => mask_target self gt_masks gt_max_centerness
                                            (fst x) (snd x))
                      (combine points assigned) with
        | None => None
        | Some targets =>
            Some [Labels (map (fun a => fst (fst a)) assigned);
                  Boxes (map (fun a => snd (fst a)) assigned);
                  Rows (map fst targets);
                  Scalars (map snd targets)]
        end
    end.

(** The ground truth of one image, as [polar_target] receives it in its
    five parallel lists. *)
Record image_gt : Type := {
  gt_bboxes : list box;
  gt_masks : list (list (R * R));
  gt_labels : list Z;
  mask_centers : list (R * R);
  gt_max_centerness : list R
}.

(** [zip( *rows )]: the columns, as many as the shortest row has. *)
Definition zip_star {A : Type} (rows : list (list A)) : list (list A) :=
  match rows with
  | [] => []
  | r :: rs =>
      let n := fold_right Nat.min (length r) (map (@length A) rs) in
      map (fun j => flat_map (fun row => match nth_error row j with
                                         | Some v => [v]
                                         | None => []
                                         end) rows)
          (seq 0 n)
  end.

(** [multi_apply(func, args)] of [mmdet.core]: [func] mapped over the
    images, the tuples it returns regrouped by component with [zip]. *)
Definition multi_apply {A B : Type} (func : A -> option (list B)) (args : list A)
  : option (list (list B)) :=
  option_map (@zip_star B) (map_opt func args).

(** [t.split(sizes, 0)]; the sizes must add up to the length. *)
Fixpoint split_sizes {A : Type} (sizes : list nat) (l : list A) : list (list A) :=
  match sizes with
  | [] => []
  | n :: ns => firstn n l :: split_sizes ns (skipn n l)
  end.

Definition tensor_length (t : tensor) : nat :=
  match t with
  | Labels l => length l
  | Boxes l => length l
  | Rows l => length l
  | Scalars l => length l
  end.

Definition tensor_split (sizes : list nat) (t : tensor) : option (list tensor) :=
  if negb (fold_right Nat.add 0%nat sizes =? tensor_length t)%nat then None
  else
    Some match t with
         | Labels l => map Labels (split_sizes sizes l)
         | Boxes l => map Boxes (split_sizes sizes l)
         | Rows l => map Rows (split_sizes sizes l)
         | Scalars l => map Scalars (split_sizes sizes l)
         end.

(** [torch.cat]: an empty list raises, and so do tensors of different
    kinds. *)
Definition cat2 (a b : tensor) : option tensor :=
  match a, b with
  | Labels x, Labels y => Some (Labels (x ++ y))
  | Boxes x, Boxes y => Some (Boxes (x ++ y))
  | Rows x, Rows y => Some (Rows (x ++ y))
  | Scalars x, Scalars y => Some (Scalars (x ++ y))
  | _, _ => None
  end.

Fixpoint tensor_cat (ts : list tensor) : option tensor :=
  match ts with
  | [] => None
  | [t] => Some t
  | t :: rest => match tensor_cat rest with
                 | Some r => cat2 t r
                 | None => None
                 end
  end.

(** Lines 507-537 for one component: split every image's tensor per
    level, then concatenate level by level over the images. *)
Definition per_level (num_points : list nat) (per_image : list tensor)
  : option (list tensor) :=
  match map_opt (tensor_split num_points) per_image with
  | None => None
  | Some splits =>
      map_opt (fun i =>
                 match map_opt (fun s => nth_error s i) splits with
                 | Some ts => tensor_cat ts
                 | None => None
                 end)
              (seq 0 (length num_points))
  end.

(** [polar_target(points, labels_list, bbox_list, mask_list,
    centers_list, centerness_list)]; the tuple returned by
    [multi_apply] is unpacked into four names, which raises unless it
    has exactly four components. *)
Definition polar_target (self : FourierNetHead) (points : list (list (R * R)))
    (images : list image_gt)
  : option (list tensor * list tensor * list tensor * list tensor) :=
  if negb (length points =? length (regress_ranges self))%nat then None
  else
    let expanded_regress_ranges :=
      map (fun pr => map (fun _ => snd pr) (fst pr))
          (combine points (regress_ranges self)) in
    let concat_regress_ranges := concat expanded_regress_ranges in
    let concat_points := concat points in
    match multi_apply
            (fun img =>
               polar_target_single self (gt_bboxes img) (gt_masks img)
                 (gt_labels img) (mask_centers img) (gt_max_centerness img)
                 concat_points concat_regress_ranges)
            images with
    | Some [labels_list; bbox_targets_list; mask_targets_list;
            centerness_targets_list] =>
        let num_points := map (@length (R * R)) points in
        match per_level num_points labels_list,
              per_level num_points bbox_targets_list,
              per_level num_points mask_targets_list,
              per_level num_points centerness_targets_list with
        | Some concat_lvl_labels, Some concat_lvl_bbox_targets,
          Some concat_lvl_mask_targets, Some concat_lvl_centerness_targets =>
            Some (concat_lvl_labels, concat_lvl_bbox_targets,
                  concat_lvl_mask_targets, concat_lvl_centerness_targets)
        | _, _, _, _ => None
        end
    | _ => None
    end.

(** An instance passes both tests at a point. *)
Definition passes (inside : bool) (regress_range : R * R) (pt : R * R) (bb : box)
  : bool :=
  inside && inside_regress_range regress_range pt bb.

(** Instance [g] passes both tests at the point. *)
Definition passing (gt_bboxes : list box) (inside : list bool) (rr pt : R * R)
    (g : nat) : Prop :=
  exists bb, nth_error gt_bboxes g = Some bb /\
             passes (nth g inside false) rr pt bb = true.

(** Instance [g] is the assigner's choice among the passing ones:
    minimum area, the earliest of equal areas. *)
Definition min_area_passing (gt_bboxes : list box) (inside : list bool)
    (rr pt : R * R) (g : nat) : Prop :=
  passing gt_bboxes inside rr pt g /\
  (forall g', passing gt_bboxes inside rr pt g' ->
     area (nth g gt_bboxes zero_box) <= area (nth g' gt_bboxes zero_box)) /\
  (forall g', (g' < g)%nat -> passing gt_bboxes inside rr pt g' ->
     area (nth g gt_bboxes zero_box) < area (nth g' gt_bboxes zero_box)).

End TargetAssigner.

(** ** Sample inputs used by the properties *)

Module Samples.
Import Head TargetAssigner.
Local Open Scope R_scope.

(** A head without centre sampling. *)
Definition plain_head : FourierNetHead := with_center_sample false default_head.

(** Two nested boxes, the inner one smaller. *)
Definition nested_boxes : list box := [(0, 0, 100, 100); (20, 20, 60, 60)].
Definition nested_labels : list Z := [1; 2]%Z.
Definition nested_centers : list (R * R) := [(50, 50); (40, 40)].

(** A box of 10000 x 10000 pixels, whose area is exactly [INF], and a
    larger one around it. *)
Definition huge_box : box := (0, 0, 9999, 9999).
Definition huger_box : box := (0, 0, 9999, 10999).

End Samples.

(** ** Decoder: [distance2mask] *)

Module Decoder.
Import Prelude Head.
Local Open Scope R_scope.

(** [torch.range(start, stop, step)]: both ends included; a zero step
    or bounds that contradict the sign of the step raise. *)
Definition torch_range (start stop step : Z) : option (list Z) :=
  if (step =? 0)%Z then None
  else if ((0 <? step) && (stop <? start) || (step <? 0) && (start <? stop))%Z
  then None
  else
    Some (map (fun k => (start + Z.of_nat k * step)%Z)
              (seq 0 (Z.to_nat ((stop - start) / step + 1)))).

(** Line 788: the table of angles, in radians. *)
Definition angles (self : FourierNetHead) : option (list R) :=
  match interval self with
  | None => None
  | Some interval =>
      option_map (map (fun a => IZR a / 180 * PI)) (torch_range 0 359 interval)
  end.

(** An elementwise operation on two rows under broadcasting: equal
    lengths, or one row of length one. *)
Definition broadcast2 (f : R -> R -> R) (a b : list R) : option (list R) :=
  if (length a =? length b)%nat then Some (map (fun p => f (fst p) (snd p)) (combine a b))
  else
    match a, b with
    | [x], _ => Some (map (f x) b)
    | _, [y] => Some (map (fun x => f x y) a)
    | _, _ => None
    end.

(** [t.clamp(min=lo, max=hi)]. *)
Definition clamp (lo hi x : R) : R := Rmin (Rmax x lo) hi.

(** The distance argument of one point: a row of reals, or (training
    with Fourier coefficients) a row of complex pairs. *)
Inductive prediction : Type :=
| Flat (d : list R)
| Pairs (c : list (R * R)).

(** [row.reshape(num_coe, 2)] of a flat row. *)
Fixpoint pairs (d : list R) : list (R * R) :=
  match d with
  | a :: b :: t => (a, b) :: pairs t
  | _ => []
  end.

(** Lines 775-786: the distances the vertices are computed from. *)
Definition decoded_distances (self : FourierNetHead) (distances : prediction)
    (train : bool) : option (list R) :=
  if use_fourier self then
    if train then
      match distances with
      | Pairs c =>
          FourierCodec.decode_coe (contour_points self) (num_coe self) c
      | Flat _ => None
      end
    else
      match distances with
      | Flat d =>
          if negb (length d =? 2 * num_coe self)%nat then None
          else
            FourierCodec.decode_coe (contour_points self) (visulize_coe self)
              (firstn (visulize_coe self) (pairs d))
      | Pairs _ => None
      end
  else
    match distances with
    | Flat d => Some d
    | Pairs _ => None
    end.

(** [distance2mask(points, distances, max_shape, train, bbox)] for one
    point: the rows [x] and [y] of the decoded polygon and the
    distances. [max_shape] is [(height, width)]. *)
Definition distance2mask (self : FourierNetHead) (point : R * R)
    (distances : prediction) (max_shape : option (Z * Z)) (train : bool)
    (bbox : option (R * R * R * R))
  : option (list R * list R * list R) :=
  match decoded_distances self distances train with
  | None => None
  | Some distances =>
      match angles self with
      | None => None
      | Some angles =>
          let c_x := map (fun _ => fst point) angles in
          let c_y := map (fun _ => snd point) angles in
          let sin := map sin angles in
          let cos := map cos angles in
          match broadcast2 Rmult distances sin, broadcast2 Rmult distances cos with
          | Some ds, Some dc =>
              match broadcast2 Rplus ds c_x, broadcast2 Rplus dc c_y with
              | Some x, Some y =>
                  let x := match max_shape with
                           | Some s => map (clamp 0 (IZR (snd s) - 1)) x
                           | None => x
                           end in
                  let y := match max_shape with
                           | Some s => map (clamp 0 (IZR (fst s) - 1)) y
                           | None => y
                           end in
                  let x := match bbox with
                           | Some (b0, b1, b2, b3) =>
                               map (fun v => Rmax (Rmin v b2) b0) x
                           | None => x
                           end in
                  let y := match bbox with
                           | Some (b0, b1, b2, b3) =>
                               map (fun v => Rmax (Rmin v b3) b1) y
                           | None => y
                           end in
                  Some (x, y, distances)
              | _, _ => None
              end
          | _, _ => None
          end
      end
  end.

(** The vertex the specification gives for angle [a] (in degrees). *)
Definition vertex (point : R * R) (d : R) (a : Z) : R * R :=
  (d * sin (IZR a / 180 * PI) + fst point,
   d * cos (IZR a / 180 * PI) + snd point).

(** The clamp of [distance2mask] for one coordinate. *)
Definition clamp_to (dim : option Z) (v : R) : R :=
  match dim with
  | Some d => clamp 0 (IZR d - 1) v
  | None => v
  end.

End Decoder.

(** ** Inference: [get_bboxes_single] *)

Module Inference.
Local Open Scope R_scope.

(** The exceptions the function can meet. *)
Inductive exn : Type :=
| AssertionError
| RuntimeError
| TypeError
| NameError
| UnboundLocalError
| IndexError
| OtherError.

Inductive result (A : Type) : Type :=
| Ok (a : A)
| Raise (e : exn).

Arguments Ok {A} a.
Arguments Raise {A} e.

Definition bind {A B : Type} (r : result A) (k : A -> result B) : result B :=
  match r with
  | Ok a => k a
  | Raise e => Raise e
  end.

Notation "x <- c ;; k" := (bind c (fun x => k))
  (at level 61, c at next level, right associativity).

(** The clause [except (RuntimeError, TypeError, NameError, IndexError)];
    [UnboundLocalError] is a subclass of [NameError]. *)
Definition caught (e : exn) : bool :=
  match e with
  | RuntimeError | TypeError | NameError | UnboundLocalError | IndexError => true
  | _ => false
  end.

(** Reading a local variable that no executed statement has bound. *)
Definition read_local {A : Type} (v : option A) : result A :=
  match v with
  | Some a => Ok a
  | None => Raise UnboundLocalError
  end.

(** Python truthiness of the [rescale] argument ([None], [False] or
    [True]). *)
Definition truthy (rescale : option bool) : bool :=
  match rescale with
  | Some b => b
  | None => false
  end.

(** A [for] loop that collects what its body returns. *)
Fixpoint collect {A B : Type} (body : A -> result B) (l : list A)
  : result (list B) :=
  match l with
  | [] => Ok []
  | a :: t => b <- body a ;; bs <- collect body t ;; Ok (b :: bs)
  end.

Section GetBboxesSingle.

(** The tensor library and the collaborators of the function, kept
    abstract: each may raise. *)
Variables Tensor Scale Shape Cfg Dets : Type.

(** One pass of the loop of lines 681-716 on the level's [cls_score],
    [bbox_pred], [mask_pred], [centerness] and [points]: the level's
    [bboxes], [scores], [centerness] and [masks]. *)
Variable decode_level :
  Tensor * Tensor * Tensor * Tensor * Tensor -> Shape -> Cfg ->
  result (Tensor * Tensor * Tensor * Tensor).
Variable cat : list Tensor -> result Tensor.
(** [t / t.new_tensor(scale_factor)] *)
Variable div_new_tensor : Tensor -> Scale -> result Tensor.
(** [torch.tensor(scale_factor)[:2].cuda().unsqueeze(1).repeat(1, n)] *)
Variable cuda_scale : Scale -> nat -> result Scale.
(** [t / scale_factor] *)
Variable div_scale : Tensor -> Scale -> result Tensor.
(** the zero background column put before the scores *)
Variable pad_scores : Tensor -> result Tensor.
(** the envelope [min]/[max] boxes of the masks, lines 736-739 *)
Variable mask_envelope : Tensor -> result Tensor.
(** [mlvl_centerness + self.centerness_factor] *)
Variable score_factors : Tensor -> result Tensor.
Variable multiclass_nms_with_mask :
  Tensor -> Tensor -> Tensor -> Cfg -> Tensor -> result Dets.

Variable self_mask_nms : bool.
Variable self_contour_points : nat.

(** Lines 720-727: the [rescale] branch, from the locals
    [(scale_factor, _mlvl_bboxes, _mlvl_masks)] before it to the same
    locals after it. *)
Definition rescale_branch (rescale : option bool) (mlvl_bboxes mlvl_masks : Tensor)
    (scale_factor : Scale)
  : result (Scale * option Tensor * option Tensor) :=
  if truthy rescale then
    _mlvl_bboxes <- div_new_tensor mlvl_bboxes scale_factor ;;
    match cuda_scale scale_factor self_contour_points with
    | Ok scale_factor' =>
        match div_scale mlvl_masks scale_factor' with
        | Ok _mlvl_masks => Ok (scale_factor', Some _mlvl_bboxes, Some _mlvl_masks)
        | Raise e =>
            if caught e then
              _mlvl_masks <- div_new_tensor mlvl_masks scale_factor' ;;
              Ok (scale_factor', Some _mlvl_bboxes, Some _mlvl_masks)
            else Raise e
        end
    | Raise e =>
        if caught e then
          _mlvl_masks <- div_new_tensor mlvl_masks scale_factor ;;
          Ok (scale_factor, Some _mlvl_bboxes, Some _mlvl_masks)
        else Raise e
    end
  else Ok (scale_factor, None, None).

(** [get_bboxes_single(cls_scores, bbox_preds, mask_preds, centernesses,
    mlvl_points, img_shape, scale_factor, cfg, rescale)]. *)
Definition get_bboxes_single (cls_scores bbox_preds mask_preds centernesses
    mlvl_points : list Tensor) (img_shape : Shape) (scale_factor : Scale)
    (cfg : Cfg) (rescale : option bool) : result Dets :=
  if negb ((length cls_scores =? length bbox_preds)%nat
           && (length bbox_preds =? length mlvl_points)%nat)
  then Raise AssertionError
  else
    levels <- collect (fun l => decode_level l img_shape cfg)
                (combine (combine (combine (combine cls_scores bbox_preds)
                                           mask_preds) centernesses) mlvl_points) ;;
    let mlvl_bboxes := map (fun l => fst (fst (fst l))) levels in
    let mlvl_scores := map (fun l => snd (fst (fst l))) levels in
    let mlvl_centerness := map (fun l => snd (fst l)) levels in
    let mlvl_masks := map (fun l => snd l) levels in
    mlvl_bboxes <- cat mlvl_bboxes ;;
    mlvl_masks <- cat mlvl_masks ;;
    locals <- rescale_branch rescale mlvl_bboxes mlvl_masks scale_factor ;;
    let '(_, _mlvl_bboxes, _mlvl_masks) := locals in
    mlvl_scores <- cat mlvl_scores ;;
    mlvl_scores <- pad_scores mlvl_scores ;;
    mlvl_centerness <- cat mlvl_centerness ;;
    if self_mask_nms then
      masks <- read_local _mlvl_masks ;;
      _mlvl_bboxes <- mask_envelope masks ;;
      factors <- score_factors mlvl_centerness ;;
      multiclass_nms_with_mask _mlvl_bboxes mlvl_scores masks cfg factors
    else
      boxes <- read_local _mlvl_bboxes ;;
      masks <- read_local _mlvl_masks ;;
      factors <- score_factors mlvl_centerness ;;
      multiclass_nms_with_mask boxes mlvl_scores masks cfg factors.

End GetBboxesSingle.

End Inference.

(* ================================================================== *)
(** * Part II. Properties *)
(* ================================================================== *)

(** ** Multi-level points and batched inference: [get_points],
    [get_bboxes] *)

Module Batch.
Import Inference.

(** [l[i]] on a Python list, for an index that is not negative. *)
Definition index {A : Type} (l : list A) (i : nat) : result A :=
  match nth_error l i with
  | Some a => Ok a
  | None => Raise IndexError
  end.

(** [get_points(featmap_sizes, dtype, device)], lines 477-482, with the
    integers of [self.strides]; [torch.arange] raises a [RuntimeError]
    for a zero step. *)
Definition get_points (self_strides : list Z) (featmap_sizes : list (nat * nat))
  : result (list (list (Z * Z))) :=
  collect (fun i =>
             featmap_size <- index featmap_sizes i ;;
             stride <- index self_strides i ;;
             match PointGrid.get_points_single featmap_size stride with
             | Some points => Ok points
             | None => Raise RuntimeError
             end)
          (seq 0 (length featmap_sizes)).

(** [loss], line 349: [[i.size()[0] for i in all_level_points]]. *)
Definition num_points_per_level (all_level_points : list (list (Z * Z)))
  : list nat :=
  map (@length (Z * Z)) all_level_points.

Section GetBboxes.

(** The tensor library and the collaborators of [get_bboxes_single],
    abstract as there. *)
Variables Tensor Scale Shape Cfg Dets : Type.
Variable decode_level :
  Tensor * Tensor * Tensor * Tensor * Tensor -> Shape -> Cfg ->
  result (Tensor * Tensor * Tensor * Tensor).
Variable cat : list Tensor -> result Tensor.
Variable div_new_tensor : Tensor -> Scale -> result Tensor.
Variable cuda_scale : Scale -> nat -> result Scale.
Variable div_scale : Tensor -> Scale -> result Tensor.
Variable pad_scores : Tensor -> result Tensor.
Variable mask_envelope : Tensor -> result Tensor.
Variable score_factors : Tensor -> result Tensor.
Variable multiclass_nms_with_mask :
  Tensor -> Tensor -> Tensor -> Cfg -> Tensor -> result Dets.
Variable self_mask_nms : bool.
Variable self_contour_points : nat.

(** [featmap.size()[-2:]] *)
Variable featmap_size : Tensor -> nat * nat.
(** [t[img_id].detach()] *)
Variable select : Tensor -> nat -> result Tensor.
(** the points of one level as a tensor *)
Variable points_tensor : list (Z * Z) -> Tensor.
Variable self_strides : list Z.

(** [[preds[i][img_id].detach() for i in range(num_levels)]]. *)
Definition image_preds (preds : list Tensor) (num_levels img_id : nat)
  : result (list Tensor) :=
  collect (fun i => t <- index preds i ;; select t img_id) (seq 0 num_levels).

(** [get_bboxes(cls_scores, bbox_preds, centernesses, mask_preds,
    img_metas, cfg, rescale)]; an entry of [img_metas] is given by its
    [img_shape] and [scale_factor]. The default of [rescale] is [None]. *)
Definition get_bboxes (cls_scores bbox_preds centernesses mask_preds : list Tensor)
    (img_metas : list (Shape * Scale)) (cfg : Cfg) (rescale : option bool)
  : result (list Dets) :=
  if negb (length cls_scores =? length bbox_preds)%nat then Raise AssertionError
  else
    let num_levels := length cls_scores in
    let featmap_sizes := map featmap_size cls_scores in
    _ <- index bbox_preds 0 ;;
    mlvl_points <- get_points self_strides featmap_sizes ;;
    collect (fun img_id =>
               cls_score_list <- image_preds cls_scores num_levels img_id ;;
               bbox_pred_list <- image_preds bbox_preds num_levels img_id ;;
               centerness_pred_list <-
                 image_preds centernesses num_levels img_id ;;
               mask_pred_list <- image_preds mask_preds num_levels img_id ;;
               meta <- index img_metas img_id ;;
               get_bboxes_single decode_level cat div_new_tensor cuda_scale
                 div_scale pad_scores mask_envelope score_factors
                 multiclass_nms_with_mask self_mask_nms self_contour_points
                 cls_score_list bbox_pred_list mask_pred_list
                 centerness_pred_list (map points_tensor mlvl_points)
                 (fst meta) (snd meta) cfg rescale)
            (seq 0 (length img_metas)).

End GetBboxes.

End Batch.

(** ** More sample heads used by the properties *)

Module MoreSamples.
Import Head.

(** A head that predicts Fourier coefficients, one per point. *)
Definition dc_head : FourierNetHead := {|
  strides := strides default_head;
  regress_ranges := regress_ranges default_head;
  center_sample := true;
  use_mask_center := true;
  radius := radius default_head;
  contour_points := 360;
  use_fourier := true;
  num_coe := 1;
  visulize_coe := 1;
  normalized_centerness := false;
  mask_nms := false;
  num_points_per_level := []
|}.

(** A head that predicts four distances per point. *)
Definition square_head : FourierNetHead := {|
  strides := strides default_head;
  regress_ranges := regress_ranges default_head;
  center_sample := true;
  use_mask_center := true;
  radius := radius default_head;
  contour_points := 4;
  use_fourier := false;
  num_coe := 36;
  visulize_coe := 36;
  normalized_centerness := false;
  mask_nms := false;
  num_points_per_level := []
|}.

(** A head that samples around the box centre, not the mask centre. *)
Definition box_center_head : FourierNetHead := {|
  strides := strides default_head;
  regress_ranges := regress_ranges default_head;
  center_sample := true;
  use_mask_center := false;
  radius := radius default_head;
  contour_points := 360;
  use_fourier := false;
  num_coe := 36;
  visulize_coe := 36;
  normalized_centerness := false;
  mask_nms := false;
  num_points_per_level := []
|}.

(** A head that predicts seven distances per point. *)
Definition heptagon_head : FourierNetHead := {|
  strides := strides default_head;
  regress_ranges := regress_ranges default_head;
  center_sample := true;
  use_mask_center := true;
  radius := radius default_head;
  contour_points := 7;
  use_fourier := false;
  num_coe := 36;
  visulize_coe := 36;
  normalized_centerness := false;
  mask_nms := false;
  num_points_per_level := []
|}.

End MoreSamples.

(** ** The layout of the regrouped targets *)

Module Regroup.

(** The part of one image's target tensor that belongs to level [i]:
    the [num_points[i]] rows after those of the levels before. *)
Definition level_slice {A : Type} (num_points : list nat) (i : nat) (l : list A)
  : list A :=
  firstn (nth i num_points 0%nat)
         (skipn (fold_right Nat.add 0%nat (firstn i num_points)) l).

(** The four targets of one image. *)
Definition targets : Type :=
  (list Z * list TargetAssigner.box * list (list R) * list R)%type.

Definition tuple (t : targets) : list TargetAssigner.tensor :=
  let '(labels, bbox_targets, mask_targets, centerness_target) := t in
  [TargetAssigner.Labels labels; TargetAssigner.Boxes bbox_targets;
   TargetAssigner.Rows mask_targets; TargetAssigner.Scalars centerness_target].

End Regroup.

(** ** Shared helpers *)

Section PreludeProps.
Import Prelude.
Local Open Scope R_scope.

Lemma Rltb_true (a b : R) : Rltb a b = true <-> a < b.
Proof. unfold Rltb. destruct (Rlt_dec a b); split; intros; try discriminate; tauto. Qed.

Lemma Rltb_false (a b : R) : Rltb a b = false <-> ~ a < b.
Proof. unfold Rltb. destruct (Rlt_dec a b); split; intros; try discriminate; tauto. Qed.

Lemma Rleb_true (a b : R) : Rleb a b = true <-> a <= b.
Proof. unfold Rleb. destruct (Rle_dec a b); split; intros; try discriminate; tauto. Qed.

Lemma Rleb_false (a b : R) : Rleb a b = false <-> ~ a <= b.
Proof. unfold Rleb. destruct (Rle_dec a b); split; intros; try discriminate; tauto. Qed.

Lemma Reqb_true (a b : R) : Reqb a b = true <-> a = b.
Proof. unfold Reqb. destruct (Req_dec_T a b); split; intros; try discriminate; tauto. Qed.

Lemma Reqb_false (a b : R) : Reqb a b = false <-> a <> b.
Proof. unfold Reqb. destruct (Req_dec_T a b); split; intros; try discriminate; tauto. Qed.

Lemma tensor_max_is_max (l : list R) :
  l <> [] -> exists m, tensor_max l = Some m /\ is_max l m.
Proof.
  induction l as [| a t IH]; [congruence |]. intros _.
  destruct t as [| b t].
  - exists a. split; [reflexivity |]. split; [now left |].
    intros x [<- | []]. lra.
  - destruct IH as (m & Hm & Hin & Hub); [discriminate |].
    exists (Rmax a m). split.
    + change (tensor_max (a :: b :: t))
        with (match tensor_max (b :: t) with
              | None => Some a | Some m0 => Some (Rmax a m0) end).
      now rewrite Hm.
    + split.
      * unfold Rmax. destruct (Rle_dec a m); [right; exact Hin | now left].
      * intros x [<- | Hx]; [apply Rmax_l |].
        apply Rle_trans with m; [now apply Hub | apply Rmax_r].
Qed.

Lemma tensor_min_is_min (l : list R) :
  l <> [] -> exists m, tensor_min l = Some m /\ is_min l m.
Proof.
  induction l as [| a t IH]; [congruence |]. intros _.
  destruct t as [| b t].
  - exists a. split; [reflexivity |]. split; [now left |].
    intros x [<- | []]. lra.
  - destruct IH as (m & Hm & Hin & Hlb); [discriminate |].
    exists (Rmin a m). split.
    + change (tensor_min (a :: b :: t))
        with (match tensor_min (b :: t) with
              | None => Some a | Some m0 => Some (Rmin a m0) end).
      now rewrite Hm.
    + split.
      * unfold Rmin. destruct (Rle_dec a m); [now left | right; exact Hin].
      * intros x [<- | Hx]; [apply Rmin_l |].
        apply Rle_trans with m; [apply Rmin_r | now apply Hlb].
Qed.

Lemma is_max_unique (l : list R) (a b : R) : is_max l a -> is_max l b -> a = b.
Proof. intros [Ha Ua] [Hb Ub]. apply Rle_antisym; auto. Qed.

Lemma is_min_unique (l : list R) (a b : R) : is_min l a -> is_min l b -> a = b.
Proof. intros [Ha La] [Hb Lb]. apply Rle_antisym; auto. Qed.

Lemma tensor_max_eq (l : list R) (m : R) : is_max l m -> tensor_max l = Some m.
Proof.
  intros H. destruct (tensor_max_is_max (l := l)) as (m' & E & H').
  - destruct H as [Hin _]. intros ->. exact Hin.
  - rewrite E. f_equal. eapply is_max_unique; eassumption.
Qed.

Lemma tensor_min_eq (l : list R) (m : R) : is_min l m -> tensor_min l = Some m.
Proof.
  intros H. destruct (tensor_min_is_min (l := l)) as (m' & E & H').
  - destruct H as [Hin _]. intros ->. exact Hin.
  - rewrite E. f_equal. eapply is_min_unique; eassumption.
Qed.

End PreludeProps.

(** Evaluation of comparisons, minima and maxima on concrete reals. *)
Ltac Rcompute :=
  repeat match goal with
  | |- context [Rmin ?a ?b] =>
      first [rewrite (Rmin_left a b) by lra | rewrite (Rmin_right a b) by lra]
  | |- context [Rmax ?a ?b] =>
      first [rewrite (Rmax_left a b) by lra | rewrite (Rmax_right a b) by lra]
  | |- context [Prelude.Rltb ?a ?b] =>
      first [rewrite (proj2 (Rltb_true a b)) by lra
            | rewrite (proj2 (Rltb_false a b)) by lra]
  | |- context [Prelude.Rleb ?a ?b] =>
      first [rewrite (proj2 (Rleb_true a b)) by lra
            | rewrite (proj2 (Rleb_false a b)) by lra]
  | |- context [Prelude.Reqb ?a ?b] =>
      first [rewrite (proj2 (Reqb_true a b)) by lra
            | rewrite (proj2 (Reqb_false a b)) by lra]
  | |- context [Rle_dec ?a ?b] =>
      let H := fresh in destruct (Rle_dec a b) as [H | H]; [| exfalso; lra]
  | |- context [Rle_dec ?a ?b] =>
      let H := fresh in destruct (Rle_dec a b) as [H | H]; [exfalso; lra |]
  end.


(** ** PointGrid *)

Section PointGridProps.
Import Prelude PointGrid.
Local Open Scope Z_scope.

Lemma ceil_div_mul (n s : Z) : s <> 0 -> ceil_div (n * s) s = n.
Proof.
  intros Hs. unfold ceil_div.
  replace (- (n * s)) with ((- n) * s) by ring.
  rewrite Z.div_mul by exact Hs. ring.
Qed.

Lemma arange_stride (n : nat) (s : Z) :
  s <> 0 ->
  arange 0 (Z.of_nat n * s) s = Some (map (fun k => Z.of_nat k * s) (seq 0 n)).
Proof.
  intros Hs. unfold arange.
  destruct (Z.eqb_spec s 0) as [E | _]; [contradiction |].
  rewrite Z.sub_0_r, ceil_div_mul by exact Hs.
  rewrite Z.max_r by lia. rewrite Nat2Z.id. reflexivity.
Qed.

Lemma combine_app_eq {A B : Type} (l1 l2 : list A) (m1 m2 : list B) :
  length l1 = length m1 ->
  combine (l1 ++ l2) (m1 ++ m2) = combine l1 m1 ++ combine l2 m2.
Proof.
  revert m1. induction l1 as [| a l1 IH]; intros [| b m1] H; simpl in *;
    try discriminate; [reflexivity |].
  f_equal. apply IH. congruence.
Qed.

(** One row of the grid: the [x] range paired with a constant [y]. *)
Lemma grid_row (s : Z) (i : nat) (js : list nat) :
  map (fun p => (fst p + s / 2, snd p + s / 2))
      (combine (map (fun k => Z.of_nat k * s) js)
               (map (fun _ : Z => Z.of_nat i * s)
                    (map (fun k => Z.of_nat k * s) js)))
  = map (fun j => grid_point s i j) js.
Proof. induction js as [| j js IH]; simpl; [reflexivity |]. now rewrite IH. Qed.

Lemma get_points_single_grid (h w : nat) (s : Z) :
  s <> 0 -> get_points_single (h, w) s = Some (grid h w s).
Proof.
  intros Hs. unfold get_points_single.
  rewrite !arange_stride by exact Hs.
  unfold meshgrid, stack_last, reshape_flat, grid. f_equal.
  generalize (seq 0 h) as rows.
  induction rows as [| i rows IH]; simpl; [reflexivity |].
  rewrite combine_app_eq by (now rewrite !length_map).
  rewrite map_app, IH. f_equal. apply grid_row.
Qed.

Lemma grid_length (h w : nat) (s : Z) : length (grid h w s) = (h * w)%nat.
Proof.
  unfold grid. generalize 0%nat at 2 as b.
  induction h as [| h IH]; intros b; simpl; [reflexivity |].
  rewrite length_app, length_map, length_seq, IH. reflexivity.
Qed.

Lemma grid_nth (h w : nat) (s : Z) (i j : nat) :
  (i < h)%nat -> (j < w)%nat ->
  nth_error (grid h w s) (i * w + j) = Some (grid_point s i j).
Proof.
  unfold grid.
  assert (G : forall h b i, (i < h)%nat -> (j < w)%nat ->
    nth_error (flat_map (fun i0 => map (fun j0 => grid_point s i0 j0) (seq 0 w))
                        (seq b h)) (i * w + j) = Some (grid_point s (b + i) j)).
  { clear h i. induction h as [| h IH]; intros b i Hi Hj; [lia |].
    simpl. destruct i as [| i].
    - simpl. rewrite nth_error_app1 by (rewrite length_map, length_seq; exact Hj).
      rewrite nth_error_map, nth_error_seq.
      destruct (Nat.ltb_spec j w); [| lia]. simpl. rewrite Nat.add_0_r. reflexivity.
    - rewrite nth_error_app2 by (rewrite length_map, length_seq; simpl; lia).
      rewrite length_map, length_seq.
      replace (S i * w + j - w)%nat with (i * w + j)%nat by (simpl; lia).
      rewrite IH by lia. f_equal. f_equal. lia. }
  intros Hi Hj. apply (G h 0%nat i Hi Hj).
Qed.

(** C10. For a feature map of [h] rows and [w] columns and a (nonzero)
    integer stride [s], [get_points_single] returns exactly [h * w]
    points in row-major order, and the point of row [i], column [j] is
    [(j * s + s / 2, i * s + s / 2)], with [s / 2] the floor division
    [s // 2] of the code. *)
Theorem get_points_single_row_major (h w : nat) (s : Z) :
  s <> 0 ->
  exists points,
    get_points_single (h, w) s = Some points /\
    length points = (h * w)%nat /\
    forall i j, (i < h)%nat -> (j < w)%nat ->
      nth_error points (i * w + j)
      = Some (Z.of_nat j * s + s / 2, Z.of_nat i * s + s / 2).
Proof.
  intros Hs. exists (grid h w s). split; [| split].
  - apply get_points_single_grid, Hs.
  - apply grid_length.
  - intros i j Hi Hj. apply grid_nth; assumption.
Qed.

Lemma get_points_single_row_major_witness :
  exists points,
    get_points_single (2%nat, 3%nat) 8 = Some points /\
    length points = (2 * 3)%nat /\
    forall i j, (i < 2)%nat -> (j < 3)%nat ->
      nth_error points (i * 3 + j)
      = Some (Z.of_nat j * 8 + 8 / 2, Z.of_nat i * 8 + 8 / 2).
Proof. apply (get_points_single_row_major 2 3 (s := 8)). lia. Defined.

(** The grid of a 2 x 3 feature map at stride 8, evaluated. *)
Example get_points_single_2_3_8 :
  get_points_single (2%nat, 3%nat) 8
  = Some [(4, 4); (12, 4); (20, 4); (4, 12); (12, 12); (20, 12)].
Proof. reflexivity. Qed.

(** An odd stride: the offset is [3 // 2 = 1]. *)
Example get_points_single_odd_stride :
  get_points_single (1%nat, 2%nat) 3 = Some [(1, 1); (4, 1)].
Proof. reflexivity. Qed.

(** For an even stride the offset is exactly half the stride. *)
Lemma half_stride_even (s : Z) : Z.even s = true -> 2 * (s / 2) = s.
Proof.
  intros H. apply Z.even_spec in H. destruct H as [k ->].
  replace (2 * k) with (k * 2) by ring. rewrite Z.div_mul by lia. ring.
Qed.

(** A zero stride is rejected by [torch.arange]. *)
Example get_points_single_zero_stride (h w : nat) :
  get_points_single (h, w) 0 = None.
Proof. reflexivity. Qed.

End PointGridProps.

(** ** CenternessScorer *)

Section CenternessProps.
Import Prelude CenternessScorer.
Local Open Scope R_scope.

Lemma polar_centerness_target_value (signal : list R) (mn mx : R)
    (max_centerness : option R) :
  is_min signal mn -> is_max signal mx ->
  polar_centerness_target signal max_centerness
  = Some (Rmin (match max_centerness with
                | Some m => if Req_dec_T m 0 then sqrt (mn / mx)
                            else sqrt (mn / mx) / m
                | None => sqrt (mn / mx)
                end) 1).
Proof.
  intros Hmn Hmx. unfold polar_centerness_target.
  now rewrite (tensor_min_eq Hmn), (tensor_max_eq Hmx).
Qed.

(** C9. On a strictly positive signal with minimum [mn] and maximum
    [mx], [polar_centerness_target] returns [sqrt (mn / mx)], divided by
    the normalizer when one is supplied (a nonzero one), clamped to at
    most 1; a uniform signal scores exactly 1, and a signal with minimum
    1 and maximum 4 scores 1/2. *)
Theorem polar_centerness_target_spec (signal : list R) (mn mx : R) :
  Forall (fun d => 0 < d) signal ->
  is_min signal mn -> is_max signal mx ->
  polar_centerness_target signal None = Some (Rmin (sqrt (mn / mx)) 1) /\
  (forall m, m <> 0 ->
     polar_centerness_target signal (Some m) = Some (Rmin (sqrt (mn / mx) / m) 1)) /\
  (mn = mx -> polar_centerness_target signal None = Some 1) /\
  (mn = 1 -> mx = 4 -> polar_centerness_target signal None = Some (1 / 2)).
Proof.
  intros Hpos Hmn Hmx.
  assert (Hmx0 : 0 < mx).
  { destruct Hmx as [Hin _]. rewrite Forall_forall in Hpos. now apply Hpos. }
  repeat split.
  - apply (polar_centerness_target_value None Hmn Hmx).
  - intros m Hm. rewrite (polar_centerness_target_value (Some m) Hmn Hmx).
    destruct (Req_dec_T m 0); [contradiction | reflexivity].
  - intros ->. rewrite (polar_centerness_target_value None Hmn Hmx).
    replace (mx / mx) with 1 by (field; lra).
    rewrite sqrt_1. f_equal. unfold Rmin. destruct (Rle_dec 1 1); reflexivity.
  - intros -> ->. rewrite (polar_centerness_target_value None Hmn Hmx).
    replace (1 / 4) with ((1 / 2) * (1 / 2)) by field.
    rewrite sqrt_square by lra. f_equal.
    unfold Rmin. destruct (Rle_dec (1 / 2) 1); [reflexivity | lra].
Qed.

Lemma polar_centerness_target_spec_witness :
  polar_centerness_target [2; 1; 4] None = Some (Rmin (sqrt (1 / 4)) 1) /\
  (forall m, m <> 0 ->
     polar_centerness_target [2; 1; 4] (Some m)
     = Some (Rmin (sqrt (1 / 4) / m) 1)) /\
  (1 = 4 -> polar_centerness_target [2; 1; 4] None = Some 1) /\
  (1 = 1 -> 4 = 4 -> polar_centerness_target [2; 1; 4] None = Some (1 / 2)).
Proof.
  apply (@polar_centerness_target_spec [2; 1; 4] 1 4).
  - repeat constructor; lra.
  - split; [simpl; tauto |]. intros x [<- | [<- | [<- | []]]]; lra.
  - split; [simpl; tauto |]. intros x [<- | [<- | [<- | []]]]; lra.
Defined.

(** A zero normalizer is falsy: the division is skipped. *)
Example polar_centerness_target_zero_normalizer :
  polar_centerness_target [1; 4] (Some 0) = polar_centerness_target [1; 4] None.
Proof.
  unfold polar_centerness_target. simpl.
  destruct (Req_dec_T 0 0); [reflexivity | congruence].
Qed.

(** An empty signal raises. *)
Example polar_centerness_target_empty (m : option R) :
  polar_centerness_target [] m = None.
Proof. reflexivity. Qed.

End CenternessProps.

(** ** PolarSampler *)

Section PolarSamplerProps.
Import Prelude PolarSampler.
Local Open Scope Z_scope.

(** *** The sort keeps the rows *)

Lemma insert_by_angle_In (e x : Z * R) (l : list (Z * R)) :
  In x (insert_by_angle e l) <-> x = e \/ In x l.
Proof.
  induction l as [| h t IH]; simpl.
  - intuition.
  - destruct (fst e <=? fst h); simpl; [intuition |].
    rewrite IH. intuition.
Qed.

Lemma sort_by_angle_In (x : Z * R) (l : list (Z * R)) :
  In x (sort_by_angle l) <-> In x l.
Proof.
  induction l as [| e l IH]; simpl; [tauto |].
  rewrite insert_by_angle_In, IH. intuition.
Qed.

Lemma combine_fst_snd {A B : Type} (l : list (A * B)) :
  combine (map fst l) (map snd l) = l.
Proof. induction l as [| [a b] l IH]; simpl; congruence. Qed.

Lemma tensor_in_iff (a : Z) (angle : list Z) : tensor_in a angle = true <-> In a angle.
Proof.
  unfold tensor_in. rewrite existsb_exists. split.
  - intros (x & Hx & E). apply Z.eqb_eq in E. now subst.
  - intros H. exists a. split; [exact H | apply Z.eqb_refl].
Qed.

Lemma has_angle_iff (c_x c_y : R) (ct : list (R * R)) (a : Z) :
  has_angle c_x c_y ct a = true
  <-> exists p, In p ct /\ point_angle c_x c_y p = a.
Proof.
  unfold has_angle. rewrite existsb_exists.
  split; intros (p & Hp & E); exists p; split; auto; now apply Z.eqb_eq.
Qed.

Lemma rows_In (c_x c_y : R) (ct : list (R * R)) (a : Z) (d : R) :
  In (a, d) (rows c_x c_y ct)
  <-> exists p, In p ct /\ point_angle c_x c_y p = a /\ point_dist c_x c_y p = d.
Proof.
  unfold rows. rewrite sort_by_angle_In, in_map_iff.
  split.
  - intros (p & E & Hp). inversion E. eauto.
  - intros (p & Hp & <- & <-). eauto.
Qed.

Lemma tensor_in_rows (c_x c_y : R) (ct : list (R * R)) (a : Z) :
  tensor_in a (map fst (rows c_x c_y ct)) = has_angle c_x c_y ct a.
Proof.
  apply eq_true_iff_eq. rewrite tensor_in_iff, has_angle_iff, in_map_iff.
  split.
  - intros ([a' d] & E & Hin). simpl in E. subst a'.
    apply rows_In in Hin. destruct Hin as (p & Hp & Ha & _). eauto.
  - intros (p & Hp & Ha). exists (a, point_dist c_x c_y p). split; [reflexivity |].
    apply rows_In. eauto.
Qed.

Lemma mask_select_In (s : list (Z * R)) (a : Z) (d : R) :
  In d (mask_select (map fst s) (map snd s) a) <-> In (a, d) s.
Proof.
  unfold mask_select. rewrite combine_fst_snd, in_map_iff. split.
  - intros ([a' d'] & E & Hin). simpl in E. subst d'.
    apply filter_In in Hin. destruct Hin as [Hin Ha]. simpl in Ha.
    apply Z.eqb_eq in Ha. now subst.
  - intros Hin. exists (a, d). split; [reflexivity |].
    apply filter_In. split; [exact Hin | apply Z.eqb_refl].
Qed.

(** The maximum the code takes is the maximum distance among the
    contour points of that angle. *)
Lemma is_max_mask_select (c_x c_y : R) (ct : list (R * R)) (a : Z) (d : R) :
  is_max (mask_select (map fst (rows c_x c_y ct)) (map snd (rows c_x c_y ct)) a) d
  <-> is_max_dist c_x c_y ct a d.
Proof.
  unfold is_max, is_max_dist. rewrite mask_select_In, rows_In.
  split; intros [H1 H2]; (split; [exact H1 |]).
  - intros q Hq Ha. apply H2. apply mask_select_In, rows_In. eauto.
  - intros x Hx. apply mask_select_In, rows_In in Hx.
    destruct Hx as (q & Hq & Ha & <-). now apply H2.
Qed.

(** *** The priority chain *)

Lemma nearest_angle_find (angle : list Z) (i : Z) :
  nearest_angle angle i = find (fun a => tensor_in a angle) (priority i).
Proof. reflexivity. Qed.

Lemma nearest_angle_rows (c_x c_y : R) (ct : list (R * R)) (i : Z) :
  nearest_angle (map fst (rows c_x c_y ct)) i
  = find (has_angle c_x c_y ct) (priority i).
Proof.
  rewrite nearest_angle_find. unfold priority. simpl.
  now rewrite !tensor_in_rows.
Qed.

Lemma nearest_angle_in (angle : list Z) (i a : Z) :
  nearest_angle angle i = Some a -> tensor_in a angle = true.
Proof.
  rewrite nearest_angle_find. intros H. now apply find_some in H.
Qed.

(** *** The dictionary *)

Lemma dict_get_set (d : dict) (k k' : Z) (v : R) :
  dict_get (dict_set d k v) k' = if k' =? k then Some v else dict_get d k'.
Proof.
  unfold dict_get. induction d as [| [k0 v0] d IH]; simpl.
  - rewrite (Z.eqb_sym k k'). now destruct (k' =? k).
  - destruct (Z.eqb_spec k0 k) as [-> | Hne]; simpl.
    + rewrite (Z.eqb_sym k k'). now destruct (k' =? k).
    + destruct (Z.eqb_spec k0 k') as [-> | Hne'].
      * destruct (Z.eqb_spec k' k); [congruence | reflexivity].
      * exact IH.
Qed.

(** *** The first loop *)

Lemma mask_select_nonempty (s : list (Z * R)) (a : Z) :
  tensor_in a (map fst s) = true -> mask_select (map fst s) (map snd s) a <> [].
Proof.
  rewrite tensor_in_iff, in_map_iff. intros ([a' d] & E & Hin) Hnil.
  simpl in E. subst a'. apply mask_select_In in Hin. rewrite Hnil in Hin. exact Hin.
Qed.

Lemma fill_coordinate_stored (s : list (Z * R)) (nc : dict) (i : Z) :
  fill_coordinate (map fst s) (map snd s) nc i
  = Some (match stored (map fst s) (map snd s) i with
          | Some d => dict_set nc i d
          | None => nc
          end).
Proof.
  unfold fill_coordinate, stored.
  destruct (nearest_angle (map fst s) i) as [a |] eqn:E; [| reflexivity].
  apply nearest_angle_in, mask_select_nonempty in E.
  destruct (tensor_max_is_max E) as (m & -> & _). reflexivity.
Qed.

Lemma first_loop (s : list (Z * R)) (bins : list Z) (nc : dict) :
  exists nc',
    for_each (fill_coordinate (map fst s) (map snd s)) nc bins = Some nc' /\
    forall k, dict_get nc' k
              = if existsb (Z.eqb k) bins
                then match stored (map fst s) (map snd s) k with
                     | Some d => Some d
                     | None => dict_get nc k
                     end
                else dict_get nc k.
Proof.
  revert nc. induction bins as [| i bins IH]; intros nc; simpl.
  - exists nc. auto.
  - rewrite fill_coordinate_stored.
    destruct (IH (match stored (map fst s) (map snd s) i with
                  | Some d => dict_set nc i d
                  | None => nc
                  end)) as (nc' & Hrun & Hget).
    exists nc'. split; [exact Hrun |]. intros k. rewrite Hget.
    destruct (Z.eqb_spec k i) as [-> | Hne]; simpl.
    + destruct (stored (map fst s) (map snd s) i) as [d |] eqn:E.
      * rewrite dict_get_set, Z.eqb_refl. now destruct (existsb (Z.eqb i) bins).
      * now destruct (existsb (Z.eqb i) bins).
    + destruct (stored (map fst s) (map snd s) i) as [d |] eqn:E; [| reflexivity].
      rewrite dict_get_set. destruct (Z.eqb_spec k i); [contradiction |].
      reflexivity.
Qed.

(** *** The second loop *)

Lemma set_nth_app {A : Type} (pre post : list A) (x v : A) :
  set_nth (length pre) v (pre ++ x :: post) = Some (pre ++ v :: post).
Proof. induction pre as [| h pre IH]; simpl; [reflexivity |]. now rewrite IH. Qed.

Lemma set_nth_length {A : Type} (i : nat) (v : A) (l l' : list A) :
  set_nth i v l = Some l' -> length l' = length l /\ (i < length l)%nat.
Proof.
  revert i l'. induction l as [| h t IH]; intros [| i] l' H; simpl in *;
    try discriminate.
  - inversion H. simpl. lia.
  - destruct (set_nth i v t) as [t' |] eqn:E; simpl in H; [| discriminate].
    inversion H. destruct (IH _ _ E). simpl. lia.
Qed.

Lemma set_index_range {A : Type} (l l' : list A) (i : Z) (v : A) :
  0 <= i -> set_index l i v = Some l' ->
  length l' = length l /\ i < Z.of_nat (length l).
Proof.
  intros Hi. unfold set_index. destruct (Z.leb_spec 0 i) as [_ | Hneg]; [| lia].
  intros Hset. apply set_nth_length in Hset. lia.
Qed.

Lemma second_loop (interval : Z) (nc0 : dict) (m : nat) :
  0 < interval ->
  forall (j : nat) (pre : list R) (nc : dict),
    length pre = j ->
    (forall k, (j <= k)%nat ->
       dict_get nc (Z.of_nat k * interval) = dict_get nc0 (Z.of_nat k * interval)) ->
    exists nc',
      for_each (write_distance interval) (pre ++ repeat 0%R m, nc)
               (map (fun k => Z.of_nat k * interval) (seq j m))
      = Some (pre ++ map (fun k => written nc0 (Z.of_nat k * interval)) (seq j m),
              nc') /\
      forall k, dict_get nc' (Z.of_nat k * interval)
                = if (j <=? k)%nat && (k <? j + m)%nat
                  then Some (written nc0 (Z.of_nat k * interval))
                  else dict_get nc (Z.of_nat k * interval).
Proof.
  intros Hint. induction m as [| m IH]; intros j pre nc Hlen Hnc; simpl.
  - exists nc. split; [reflexivity |]. intros k.
    destruct (Nat.leb_spec j k), (Nat.ltb_spec k (j + 0)); simpl; try reflexivity; lia.
  - rewrite Z.div_mul by lia.
    assert (Hidx : set_index (pre ++ 0%R :: repeat 0%R m) (Z.of_nat j)
                     (written nc0 (Z.of_nat j * interval))
                   = Some (pre ++ written nc0 (Z.of_nat j * interval) :: repeat 0%R m)).
    { unfold set_index. destruct (Z.leb_spec 0 (Z.of_nat j)); [| lia].
      rewrite Nat2Z.id, <- Hlen. apply set_nth_app. }
    set (v := written nc0 (Z.of_nat j * interval)) in *.
    set (nc1 := match dict_get nc (Z.of_nat j * interval) with
                | Some _ => nc
                | None => dict_set nc (Z.of_nat j * interval) epsilon
                end).
    assert (Hstep : match dict_get nc (Z.of_nat j * interval) with
                    | Some d =>
                        option_map (fun ds => (ds, nc))
                          (set_index (pre ++ 0%R :: repeat 0%R m) (Z.of_nat j) d)
                    | None =>
                        option_map
                          (fun ds => (ds, dict_set nc (Z.of_nat j * interval) epsilon))
                          (set_index (pre ++ 0%R :: repeat 0%R m) (Z.of_nat j) epsilon)
                    end
                    = Some ((pre ++ [v]) ++ repeat 0%R m, nc1)).
    { subst nc1. rewrite <- app_assoc. simpl.
      assert (Hv : v = written nc (Z.of_nat j * interval)).
      { unfold v, written. now rewrite (Hnc j) by lia. }
      unfold written in Hv.
      destruct (dict_get nc (Z.of_nat j * interval)) as [d |]; rewrite <- Hv, Hidx;
        reflexivity. }
    rewrite Hstep.
    assert (Hnc1 : forall k, dict_get nc1 (Z.of_nat k * interval)
                             = if (k =? j)%nat then Some v
                               else dict_get nc (Z.of_nat k * interval)).
    { intros k. subst nc1. destruct (Nat.eqb_spec k j) as [-> | Hne].
      - unfold v, written. rewrite <- (Hnc j) by lia.
        destruct (dict_get nc (Z.of_nat j * interval)) as [d |] eqn:E;
          [exact E |]. now rewrite dict_get_set, Z.eqb_refl.
      - destruct (dict_get nc (Z.of_nat j * interval)) as [d |] eqn:E;
          [reflexivity |].
        rewrite dict_get_set.
        destruct (Z.eqb_spec (Z.of_nat k * interval) (Z.of_nat j * interval))
          as [E' | _]; [| reflexivity].
        apply Z.mul_reg_r in E'; lia. }
    destruct (IH (S j) (pre ++ [v]) nc1) as (nc' & Hrun & Hget).
    + rewrite length_app. simpl. lia.
    + intros k Hk. rewrite Hnc1. destruct (Nat.eqb_spec k j); [lia |].
      apply Hnc. lia.
    + exists nc'. split.
      * rewrite Hrun. now rewrite <- app_assoc.
      * intros k. rewrite Hget, Hnc1.
        destruct (Nat.eqb_spec k j) as [-> | Hne].
        -- destruct (Nat.leb_spec (S j) j); [lia |]. simpl.
           destruct (Nat.leb_spec j j), (Nat.ltb_spec j (j + S m)); simpl;
             try reflexivity; lia.
        -- destruct (Nat.leb_spec (S j) k), (Nat.ltb_spec k (S j + m)),
             (Nat.leb_spec j k), (Nat.ltb_spec k (j + S m)); simpl;
             try reflexivity; lia.
Qed.

(** *** The whole function *)

Lemma arange_bins (n : Z) :
  0 < n -> 360 mod n = 0 ->
  0 < 360 / n /\
  arange 0 360 (360 / n)
  = Some (map (fun k => Z.of_nat k * (360 / n)) (seq 0 (Z.to_nat n))).
Proof.
  intros Hn Hmod.
  assert (E : 360 = n * (360 / n)) by (apply Z.div_exact; lia).
  assert (Hpos : 0 < 360 / n) by nia.
  split; [exact Hpos |].
  rewrite <- (arange_stride (Z.to_nat n) (s := 360 / n)) by lia.
  rewrite Z2Nat.id by lia. now rewrite <- E.
Qed.

Lemma sample_bins_rows (s : list (Z * R)) (n : Z) :
  0 < n -> 360 mod n = 0 ->
  exists nc0 nc,
    (forall k, (k < Z.to_nat n)%nat ->
       dict_get nc0 (Z.of_nat k * (360 / n))
       = stored (map fst s) (map snd s) (Z.of_nat k * (360 / n))) /\
    sample_bins (map fst s) (map snd s) n
    = Some (map (fun k => written nc0 (Z.of_nat k * (360 / n))) (seq 0 (Z.to_nat n)),
            nc) /\
    (forall k, (k < Z.to_nat n)%nat ->
       dict_get nc (Z.of_nat k * (360 / n))
       = Some (written nc0 (Z.of_nat k * (360 / n)))).
Proof.
  intros Hn Hmod. destruct (arange_bins Hn Hmod) as [Hint Hbins].
  destruct (first_loop s (map (fun k => Z.of_nat k * (360 / n)) (seq 0 (Z.to_nat n))) [])
    as (nc0 & Hrun1 & Hget1).
  destruct (@second_loop (360 / n) nc0 (Z.to_nat n) Hint 0%nat [] nc0 eq_refl)
    as (nc & Hrun2 & Hget2); [reflexivity |].
  exists nc0, nc. split; [| split].
  - intros k Hk. rewrite Hget1.
    assert (Hin : existsb (Z.eqb (Z.of_nat k * (360 / n)))
                    (map (fun k0 => Z.of_nat k0 * (360 / n)) (seq 0 (Z.to_nat n)))
                  = true).
    { apply existsb_exists. exists (Z.of_nat k * (360 / n)). split.
      - apply in_map_iff. exists k. split; [reflexivity |]. apply in_seq. lia.
      - apply Z.eqb_refl. }
    rewrite Hin. now destruct (stored (map fst s) (map snd s) (Z.of_nat k * (360 / n))).
  - unfold sample_bins. destruct (Z.eqb_spec n 0); [lia |].
    rewrite Hbins, Hrun1. destruct (Z.ltb_spec n 0); [lia |].
    exact Hrun2.
  - intros k Hk. rewrite Hget2.
    destruct (Nat.leb_spec 0 k), (Nat.ltb_spec k (0 + Z.to_nat n)); simpl;
      try reflexivity; lia.
Qed.

(** Every bin of a bin count that divides 360: the value written, in
    terms of the contour. *)
Lemma get_polar_coordinates_bins (c_x c_y : R) (ct : list (R * R))
    (n : Z) (k : nat) :
  0 < n -> 360 mod n = 0 -> (k < Z.to_nat n)%nat ->
  exists distances new_coordinate,
    get_polar_coordinates c_x c_y ct n = Some (distances, new_coordinate) /\
    length distances = Z.to_nat n /\
    dict_get new_coordinate (Z.of_nat k * (360 / n)) = nth_error distances k /\
    match find (has_angle c_x c_y ct) (priority (Z.of_nat k * (360 / n))) with
    | Some a => exists d, nth_error distances k = Some d /\
                          is_max_dist c_x c_y ct a d
    | None => nth_error distances k = Some epsilon
    end.
Proof.
  intros Hn Hmod Hk. unfold get_polar_coordinates. fold (rows c_x c_y ct).
  destruct (sample_bins_rows (rows c_x c_y ct) Hn Hmod) as (nc0 & nc & Hst & Hrun & Hnc).
  eexists. exists nc. split; [exact Hrun |].
  assert (Hnth : nth_error
                   (map (fun k0 => written nc0 (Z.of_nat k0 * (360 / n)))
                        (seq 0 (Z.to_nat n))) k
                 = Some (written nc0 (Z.of_nat k * (360 / n)))).
  { rewrite nth_error_map, nth_error_seq.
    destruct (Nat.ltb_spec k (Z.to_nat n)); [reflexivity | lia]. }
  split; [now rewrite length_map, length_seq |].
  split; [now rewrite Hnth, Hnc |].
  rewrite Hnth. unfold written. rewrite (Hst k Hk). unfold stored.
  rewrite nearest_angle_rows.
  destruct (find (has_angle c_x c_y ct) (priority (Z.of_nat k * (360 / n))))
    as [a |] eqn:Efind; [| reflexivity].
  apply find_some in Efind. destruct Efind as [_ Ha].
  rewrite <- tensor_in_rows in Ha. apply mask_select_nonempty in Ha.
  destruct (tensor_max_is_max Ha) as (m & Em & Hm). rewrite Em.
  exists m. split; [reflexivity |]. now apply is_max_mask_select.
Qed.

(** *** Bin counts that do not divide 360 *)

Lemma set_index_length {A : Type} (l l' : list A) (i : Z) (v : A) :
  set_index l i v = Some l' -> length l' = length l.
Proof.
  unfold set_index. destruct (0 <=? i); [| destruct (- Z.of_nat (length l) <=? i)];
    intros H; try discriminate; now apply set_nth_length in H.
Qed.

Lemma set_nth_out {A : Type} (i : nat) (v : A) (l : list A) :
  (length l <= i)%nat -> set_nth i v l = None.
Proof.
  revert i. induction l as [| h t IH]; intros [| i] H; simpl in *;
    try reflexivity; try lia.
  rewrite IH by lia. reflexivity.
Qed.

Lemma set_index_out {A : Type} (l : list A) (i : Z) (v : A) :
  Z.of_nat (length l) <= i -> set_index l i v = None.
Proof.
  intros H. unfold set_index. destruct (Z.leb_spec 0 i); [| lia].
  apply set_nth_out. lia.
Qed.

(** A loop raises as soon as one pass does, whatever the state. *)
Lemma for_each_raises {S A : Type} (body : S -> A -> option S) (Inv : S -> Prop)
    (a : A) (l : list A) :
  (forall s x s', Inv s -> body s x = Some s' -> Inv s') ->
  (forall s, Inv s -> body s a = None) ->
  In a l -> forall s, Inv s -> for_each body s l = None.
Proof.
  intros Hpres Hfail. induction l as [| x l IH]; intros Hin s Hs; [destruct Hin |].
  simpl. destruct (body s x) as [s' |] eqn:E; [| reflexivity].
  destruct Hin as [-> | Hin].
  - rewrite (Hfail s Hs) in E. discriminate.
  - apply IH; [exact Hin |]. eapply Hpres; eassumption.
Qed.

Lemma write_distance_length (interval : Z) (st st' : list R * dict) (a : Z) :
  write_distance interval st a = Some st' -> length (fst st') = length (fst st).
Proof.
  destruct st as [ds nc]. unfold write_distance.
  destruct (dict_get nc a);
    destruct (set_index ds (a / interval) _) as [ds' |] eqn:E; simpl;
    intros H; inversion H; simpl; now apply set_index_length in E.
Qed.

Lemma write_distance_out (interval : Z) (ds : list R) (nc : dict) (a : Z) :
  Z.of_nat (length ds) <= a / interval ->
  write_distance interval (ds, nc) a = None.
Proof.
  intros H. unfold write_distance.
  destruct (dict_get nc a); now rewrite set_index_out.
Qed.

(** The function raises for every bin count that does not divide 360
    (and for a bin count that is not positive). *)
Lemma sample_bins_raises (angle : list Z) (dist : list R) (n : Z) :
  ~ (0 < n /\ 360 mod n = 0) -> sample_bins angle dist n = None.
Proof.
  intros Hn. unfold sample_bins.
  destruct (Z.eqb_spec n 0) as [| Hn0]; [reflexivity |].
  destruct (arange 0 360 (360 / n)) as [bins |] eqn:Ebins; [| reflexivity].
  destruct (for_each (fill_coordinate angle dist) [] bins) as [nc0 |]; [| reflexivity].
  destruct (Z.ltb_spec n 0) as [| Hpos]; [reflexivity |].
  assert (Hmod : 360 mod n <> 0) by lia.
  unfold arange in Ebins.
  destruct (Z.eqb_spec (360 / n) 0) as [| Hint]; [discriminate |].
  assert (Hint' : 0 < 360 / n).
  { assert (0 <= 360 / n) by (apply Z.div_pos; lia). lia. }
  assert (Hlt : n * (360 / n) < 360).
  { pose proof (Z.div_mod 360 n Hn0). pose proof (Z.mod_pos_bound 360 n). lia. }
  assert (Hlen : n < ceil_div 360 (360 / n)).
  { unfold ceil_div.
    assert (Z.opp 360 / (360 / n) < - n); [| lia].
    apply Z.div_lt_upper_bound; [lia | nia]. }
  inversion Ebins as [Hb]. clear Ebins.
  apply for_each_raises
    with (Inv := fun st => length (fst st) = Z.to_nat n) (a := n * (360 / n)).
  - intros s x s' Hs Hx. apply write_distance_length in Hx. congruence.
  - intros [ds nc] Hs. simpl in Hs. apply write_distance_out.
    rewrite Z.div_mul by lia. rewrite Hs. lia.
  - apply in_map_iff. exists (Z.to_nat n). split.
    + rewrite Z2Nat.id by lia. lia.
    + apply in_seq. lia.
  - simpl. apply repeat_length.
Qed.

Lemma get_polar_coordinates_raises (c_x c_y : R) (ct : list (R * R)) (n : Z) :
  ~ (0 < n /\ 360 mod n = 0) -> get_polar_coordinates c_x c_y ct n = None.
Proof. intros H. unfold get_polar_coordinates. now apply sample_bins_raises. Qed.

Lemma get_polar_coordinates_some (c_x c_y : R) (ct : list (R * R)) (n : Z)
    (r : list R * dict) :
  get_polar_coordinates c_x c_y ct n = Some r -> 0 < n /\ 360 mod n = 0.
Proof.
  intros H. destruct (Z_lt_dec 0 n) as [Hn |];
    [destruct (Z.eq_dec (360 mod n) 0) as [Hm |] |]; [tauto | |];
    rewrite get_polar_coordinates_raises in H by tauto; discriminate.
Qed.

(** *** Two contour points, evaluated *)

Lemma to_int_0 : to_int 0 = 0.
Proof.
  unfold to_int. destruct (Rle_dec 0 0) as [_ | H]; [| exfalso; apply H; lra].
  apply (ZfloorZ 0).
Qed.

Lemma atan2_0_pos (b : R) : (0 < b)%R -> atan2 0 b = 0%R.
Proof.
  intros Hb. unfold atan2. destruct (Rlt_dec 0 b); [| contradiction].
  replace (0 / b)%R with 0%R by (field; lra). apply atan_0.
Qed.

Lemma atan2_0_0 : atan2 0 0 = 0%R.
Proof.
  unfold atan2.
  destruct (Rlt_dec 0 0) as [H | _]; [lra |].
  destruct (Rlt_dec 0 0) as [H | _]; [lra |]. reflexivity.
Qed.

Lemma angle_of_zero (r : R) :
  r = 0%R -> to_int (if Rlt_dec (r * 180 / PI) 0 then r * 180 / PI + 360
                     else r * 180 / PI) = 0.
Proof.
  intros ->. replace (0 * 180 / PI)%R with 0%R by (field; apply PI_neq0).
  destruct (Rlt_dec 0 0) as [H | _]; [lra |]. apply to_int_0.
Qed.

(** A contour point at the centre: angle 0, distance 0. *)
Lemma point_angle_centre (c_x c_y : R) : point_angle c_x c_y (c_x, c_y) = 0.
Proof.
  unfold point_angle. cbn [fst snd]. apply angle_of_zero.
  replace (c_x - c_x)%R with 0%R by ring. replace (c_y - c_y)%R with 0%R by ring.
  apply atan2_0_0.
Qed.

Lemma point_dist_centre (c_x c_y : R) : point_dist c_x c_y (c_x, c_y) = 0%R.
Proof.
  unfold point_dist. cbn [fst snd].
  replace ((c_x - c_x) ^ 2 + (c_y - c_y) ^ 2)%R with 0%R by ring.
  apply sqrt_0.
Qed.

(** A contour point straight "above" the centre, at distance [r]:
    angle 0. *)
Lemma point_angle_above (c_x c_y r : R) :
  (0 < r)%R -> point_angle c_x c_y (c_x, (c_y + r)%R) = 0.
Proof.
  intros Hr. unfold point_angle. cbn [fst snd]. apply angle_of_zero.
  replace (c_x - c_x)%R with 0%R by ring.
  apply atan2_0_pos. lra.
Qed.

Lemma point_dist_above (c_x c_y r : R) :
  (0 < r)%R -> point_dist c_x c_y (c_x, (c_y + r)%R) = r.
Proof.
  intros Hr. unfold point_dist. cbn [fst snd].
  replace ((c_x - c_x) ^ 2 + (c_y + r - c_y) ^ 2)%R with (r * r)%R by ring.
  apply sqrt_square. lra.
Qed.

Lemma tensor_max_some (l : list R) (m : R) : tensor_max l = Some m -> is_max l m.
Proof.
  intros H. destruct l as [| a t]; [discriminate |].
  destruct (@tensor_max_is_max (a :: t)) as (m' & E & Hm); [discriminate |].
  rewrite H in E. inversion E. now subst.
Qed.

(** Every value written is the epsilon or the distance of a contour
    point. *)
Lemma written_origin (c_x c_y : R) (ct : list (R * R)) (nc0 : dict) (i : Z) :
  dict_get nc0 i
  = stored (map fst (rows c_x c_y ct)) (map snd (rows c_x c_y ct)) i ->
  written nc0 i = epsilon \/
  exists p, In p ct /\ point_dist c_x c_y p = written nc0 i.
Proof.
  intros E. unfold written. rewrite E. unfold stored.
  destruct (nearest_angle (map fst (rows c_x c_y ct)) i) as [a |]; [| now left].
  destruct (tensor_max _) as [d |] eqn:Emax; [| now left].
  right. apply tensor_max_some in Emax. destruct Emax as [Hin _].
  apply mask_select_In, rows_In in Hin. destruct Hin as (p & Hp & _ & Hd). eauto.
Qed.

Lemma epsilon_pos : (0 < epsilon)%R.
Proof. unfold epsilon. lra. Qed.

Lemma get_polar_coordinates_origin (c_x c_y : R) (ct : list (R * R)) (n : Z)
    (distances : list R) (new_coordinate : dict) :
  get_polar_coordinates c_x c_y ct n = Some (distances, new_coordinate) ->
  Forall (fun d => d = epsilon \/ exists p, In p ct /\ point_dist c_x c_y p = d)
         distances.
Proof.
  intros Hrun. destruct (get_polar_coordinates_some _ _ _ _ Hrun) as [Hn Hmod].
  unfold get_polar_coordinates in Hrun. fold (rows c_x c_y ct) in Hrun.
  destruct (sample_bins_rows (rows c_x c_y ct) Hn Hmod) as (nc0 & nc & Hst & Hrun' & _).
  rewrite Hrun' in Hrun. inversion Hrun. subst. clear Hrun.
  apply Forall_forall. intros d Hd. apply in_map_iff in Hd.
  destruct Hd as (k & <- & Hk). apply in_seq in Hk.
  apply written_origin. apply Hst. lia.
Qed.

(** C3 (as amended). For a bin count [n] that divides 360,
    [get_polar_coordinates] returns [n] distances, and bin [k] (the
    target angle [i = k * interval], [interval = 360 / n]) holds the
    maximum distance among the contour points whose integer angle is the
    first of [i, i+1, i-1, i+2, i-2, i+3, i-3] that some contour point
    has; when no contour point has any of these angles the bin holds the
    epsilon [1e-6]. The returned dictionary holds the same value under
    the key [i]. *)
Theorem get_polar_coordinates_priority (c_x c_y : R) (ct : list (R * R))
    (n : Z) (k : nat) :
  0 < n -> 360 mod n = 0 -> (k < Z.to_nat n)%nat ->
  exists distances new_coordinate,
    get_polar_coordinates c_x c_y ct n = Some (distances, new_coordinate) /\
    length distances = Z.to_nat n /\
    dict_get new_coordinate (Z.of_nat k * (360 / n)) = nth_error distances k /\
    match find (has_angle c_x c_y ct) (priority (Z.of_nat k * (360 / n))) with
    | Some a => exists d, nth_error distances k = Some d /\
                          is_max_dist c_x c_y ct a d
    | None => nth_error distances k = Some epsilon
    end.
Proof. apply get_polar_coordinates_bins. Qed.

Lemma get_polar_coordinates_priority_witness :
  exists distances new_coordinate,
    get_polar_coordinates 10 10 [(10, 10 + 5); (10 + 3, 10)]%R 72
    = Some (distances, new_coordinate) /\
    length distances = Z.to_nat 72 /\
    dict_get new_coordinate (Z.of_nat 18 * (360 / 72)) = nth_error distances 18 /\
    match find (has_angle 10 10 [(10, 10 + 5); (10 + 3, 10)]%R)
               (priority (Z.of_nat 18 * (360 / 72))) with
    | Some a => exists d, nth_error distances 18 = Some d /\
                          is_max_dist 10 10 [(10, 10 + 5); (10 + 3, 10)]%R a d
    | None => nth_error distances 18 = Some epsilon
    end.
Proof.
  apply (@get_polar_coordinates_priority 10 10 [(10, 10 + 5); (10 + 3, 10)]%R 72 18).
  - lia.
  - reflexivity.
  - vm_compute. lia.
Defined.

(** A bin count of 7 does not divide 360: the second loop writes past
    the end of [distances] and the function raises. *)
Lemma get_polar_coordinates_7_bins_raises :
  get_polar_coordinates 10 10 [(10, 10 + 5); (10 + 3, 10)]%R 7 = None.
Proof. apply get_polar_coordinates_raises. intros [_ H]. discriminate H. Qed.

(** The same for 100 bins. *)
Example get_polar_coordinates_100_bins_raises (c_x c_y : R) (ct : list (R * R)) :
  get_polar_coordinates c_x c_y ct 100 = None.
Proof. apply get_polar_coordinates_raises. intros [_ H]. discriminate H. Qed.

(** The order of the search, on given angles: with contour points at
    89 and 91 degrees, the bin of 90 degrees takes the point at 91
    ([+1] before [-1]); with points at 91 and 88, again 91 ([+1] before
    [-2]). *)
Example nearest_angle_plus_before_minus :
  nearest_angle [89; 91] 90 = Some 91 /\ nearest_angle [88; 91] 90 = Some 91 /\
  nearest_angle [89; 92] 90 = Some 89 /\ nearest_angle [86; 94] 90 = None.
Proof. repeat split. Qed.

(** No wrap-around: the bin of 0 degrees does not see a point at 359. *)
Example nearest_angle_no_wrap : nearest_angle [359] 0 = None.
Proof. reflexivity. Qed.

(** C4 (as amended). Every entry of the signal [get_polar_coordinates]
    returns is either the epsilon [1e-6] or the distance of some contour
    point from the centre; so every entry is non-negative, and every
    entry is at least the epsilon whenever no contour point is closer
    than the epsilon to the centre. *)
Theorem get_polar_coordinates_floor (c_x c_y : R) (ct : list (R * R)) (n : Z)
    (distances : list R) (new_coordinate : dict) :
  get_polar_coordinates c_x c_y ct n = Some (distances, new_coordinate) ->
  Forall (fun d => d = epsilon \/ exists p, In p ct /\ point_dist c_x c_y p = d)
         distances /\
  Forall (fun d => (0 <= d)%R) distances /\
  ((forall p, In p ct -> (epsilon <= point_dist c_x c_y p)%R) ->
   Forall (fun d => (epsilon <= d)%R) distances).
Proof.
  intros Hrun. pose proof (get_polar_coordinates_origin _ _ _ _ Hrun) as H.
  split; [exact H |]. split.
  - eapply Forall_impl; [| exact H]. intros d [-> | (p & _ & <-)].
    + pose proof epsilon_pos. lra.
    + apply sqrt_pos.
  - intros Hfar. eapply Forall_impl; [| exact H].
    intros d [-> | (p & Hp & <-)]; [lra | now apply Hfar].
Qed.

Lemma get_polar_coordinates_floor_witness :
  exists distances new_coordinate,
    get_polar_coordinates 10 10 [(10, 10 + 5)]%R 72
    = Some (distances, new_coordinate) /\
    (Forall (fun d => d = epsilon \/
                      exists p, In p [(10, 10 + 5)]%R /\ point_dist 10 10 p = d)
            distances /\
     Forall (fun d => (0 <= d)%R) distances /\
     ((forall p, In p [(10, 10 + 5)]%R -> (epsilon <= point_dist 10 10 p)%R) ->
      Forall (fun d => (epsilon <= d)%R) distances)).
Proof.
  destruct (@get_polar_coordinates_bins 10 10 [(10, 10 + 5)]%R 72 0)
    as (distances & new_coordinate & Hrun & _); [lia | reflexivity | vm_compute; lia |].
  exists distances, new_coordinate. split; [exact Hrun |].
  exact (get_polar_coordinates_floor _ _ _ _ Hrun).
Defined.

(** A contour point straight to the "right" of the centre: angle 90. *)
Lemma point_angle_right (c_x c_y r : R) :
  (0 < r)%R -> point_angle c_x c_y ((c_x + r)%R, c_y) = 90.
Proof.
  intros Hr. unfold point_angle. cbn [fst snd].
  replace (c_x + r - c_x)%R with r by ring.
  replace (c_y - c_y)%R with 0%R by ring.
  unfold atan2.
  destruct (Rlt_dec 0 0) as [H | _]; [lra |].
  destruct (Rlt_dec 0 r) as [_ | H]; [| contradiction].
  replace (PI / 2 * 180 / PI)%R with 90%R by (field; apply PI_neq0).
  destruct (Rlt_dec 90 0) as [H | _]; [lra |].
  unfold to_int. destruct (Rle_dec 0 90) as [_ | H]; [| exfalso; apply H; lra].
  apply (ZfloorZ 90).
Qed.

(** A contour that passes through the centre: the bin of 0 degrees
    holds the distance 0, below the epsilon. *)
Lemma get_polar_coordinates_zero_entry :
  exists distances new_coordinate,
    get_polar_coordinates 10 10 [(10, 10); (10 + 3, 10)]%R 72
    = Some (distances, new_coordinate) /\
    nth_error distances 0 = Some 0%R /\
    ~ Forall (fun d => (epsilon <= d)%R) distances.
Proof.
  destruct (@get_polar_coordinates_bins 10 10 [(10, 10); (10 + 3, 10)]%R 72 0)
    as (distances & new_coordinate & Hrun & _ & _ & Hbin);
    [lia | reflexivity | vm_compute; lia |].
  exists distances, new_coordinate. split; [exact Hrun |].
  change (Z.of_nat 0 * (360 / 72)) with 0 in Hbin.
  unfold priority in Hbin. cbn [find] in Hbin.
  assert (Hhas : has_angle 10 10 [(10, 10); (10 + 3, 10)]%R 0 = true).
  { apply has_angle_iff. exists (10, 10)%R. split; [now left |].
    apply point_angle_centre. }
  rewrite Hhas in Hbin. destruct Hbin as (d & Hd & (p & Hp & Ha & Hdist) & _).
  assert (Hzero : d = 0%R).
  { rewrite <- Hdist. destruct Hp as [<- | [<- | []]].
    - apply point_dist_centre.
    - rewrite point_angle_right in Ha by lra. discriminate Ha. }
  rewrite Hzero in Hd. split; [exact Hd |].
  intros Hall. rewrite Forall_forall in Hall.
  apply nth_error_In in Hd. apply Hall in Hd.
  pose proof epsilon_pos. lra.
Qed.

End PolarSamplerProps.

(** ** FourierCodec *)

Section FourierCodecProps.
Import FourierCodec.
Local Open Scope R_scope.

(** *** Finite sums *)

Lemma Rsum_ext (f g : nat -> R) (n : nat) :
  (forall k, (k < n)%nat -> f k = g k) -> Rsum f n = Rsum g n.
Proof.
  induction n as [| n IH]; intros H; simpl; [reflexivity |].
  rewrite IH by (intros; apply H; lia). rewrite H by lia. reflexivity.
Qed.

Lemma Rsum_plus (f g : nat -> R) (n : nat) :
  Rsum (fun k => f k + g k) n = Rsum f n + Rsum g n.
Proof. induction n as [| n IH]; simpl; [ring |]. rewrite IH. ring. Qed.

Lemma Rsum_scal (c : R) (f : nat -> R) (n : nat) :
  Rsum (fun k => c * f k) n = c * Rsum f n.
Proof. induction n as [| n IH]; simpl; [ring |]. rewrite IH. ring. Qed.

Lemma Rsum_zero (n : nat) : Rsum (fun _ => 0) n = 0.
Proof. induction n as [| n IH]; simpl; [reflexivity |]. rewrite IH. ring. Qed.

Lemma Rsum_const (c : R) (n : nat) : Rsum (fun _ => c) n = INR n * c.
Proof.
  induction n as [| n IH]; [simpl; ring |].
  cbn [Rsum]. rewrite IH, S_INR. ring.
Qed.

Lemma Rsum_swap (f : nat -> nat -> R) (n m : nat) :
  Rsum (fun k => Rsum (fun j => f k j) m) n
  = Rsum (fun j => Rsum (fun k => f k j) n) m.
Proof.
  induction n as [| n IH]; simpl.
  - now rewrite Rsum_zero.
  - rewrite IH, <- Rsum_plus. reflexivity.
Qed.

(** A sum against an indicator picks one term. *)
Lemma Rsum_delta (f : nat -> R) (n i : nat) :
  (i < n)%nat ->
  Rsum (fun k => if (k =? i)%nat then f k else 0) n = f i.
Proof.
  induction n as [| n IH]; intros Hi; [lia |]. simpl.
  destruct (Nat.eqb_spec n i) as [-> | Hne].
  - rewrite (Rsum_ext (fun k => if (k =? i)%nat then f k else 0) (fun _ => 0)).
    + rewrite Rsum_zero. ring.
    + intros k Hk. destruct (Nat.eqb_spec k i); [lia | reflexivity].
  - rewrite IH by lia. ring.
Qed.

(** *** Orthogonality of the cosines *)

(** The telescoping form of a sum of cosines in arithmetic progression. *)
Lemma cos_sum_telescope (theta : R) (M : nat) :
  2 * sin (theta / 2) * Rsum (fun k => cos (INR k * theta)) M
  = sin ((INR M - 1 / 2) * theta) + sin (theta / 2).
Proof.
  induction M as [| M IH].
  - simpl. replace ((0 - 1 / 2) * theta) with (- (theta / 2)) by field.
    rewrite sin_neg. ring.
  - cbn [Rsum]. rewrite Rmult_plus_distr_l, IH, S_INR.
    replace ((INR M + 1 - 1 / 2) * theta) with (INR M * theta + theta / 2) by field.
    replace ((INR M - 1 / 2) * theta) with (INR M * theta - theta / 2) by field.
    rewrite sin_plus, sin_minus. ring.
Qed.

(** Over a full period the cosines of a nonzero frequency cancel. *)
Lemma cos_sum_zero (N j : nat) :
  (0 < j < N)%nat ->
  Rsum (fun k => cos (INR k * (2 * PI * INR j / INR N))) N = 0.
Proof.
  intros [Hj HjN].
  assert (HN : 0 < INR N) by (apply lt_0_INR; lia).
  assert (Hj0 : 0 < INR j) by (apply lt_0_INR; lia).
  assert (HjN' : INR j < INR N) by (apply lt_INR; lia).
  set (theta := 2 * PI * INR j / INR N).
  pose proof (cos_sum_telescope theta N) as T.
  assert (E : (INR N - 1 / 2) * theta = - (theta / 2) + 2 * INR j * PI).
  { unfold theta. field. lra. }
  rewrite E, sin_period, sin_neg in T.
  assert (Hs : 0 < sin (theta / 2)).
  { pose proof PI_RGT_0 as Hpi.
    assert (Eh : theta / 2 = PI * (INR j / INR N)) by (unfold theta; field; lra).
    assert (Hfrac : 0 < INR j / INR N < 1).
    { split; [apply Rdiv_lt_0_compat; lra |].
      apply (Rmult_lt_reg_r (INR N)); [lra |].
      unfold Rdiv. rewrite Rmult_assoc, Rinv_l by lra. lra. }
    apply sin_gt_0; rewrite Eh; nra. }
  nra.
Qed.

(** The sum over [k] of [cos (2 PI k (n - m) / N)]: [N] when [n = m],
    zero otherwise. *)
Lemma cos_orthogonal (N n m : nat) :
  (n < N)%nat -> (m < N)%nat ->
  Rsum (fun k => cos (phase N k n - phase N k m)) N
  = if (m =? n)%nat then INR N else 0.
Proof.
  intros Hn Hm.
  assert (HN : INR N <> 0) by (apply not_0_INR; lia).
  destruct (Nat.eqb_spec m n) as [-> | Hne].
  - rewrite (Rsum_ext _ (fun _ => 1)).
    + rewrite Rsum_const. ring.
    + intros k _. rewrite Rminus_diag. apply cos_0.
  - destruct (Nat.lt_trichotomy n m) as [Hlt | [E | Hgt]]; [| congruence |].
    + rewrite <- (cos_sum_zero (N := N) (j := m - n)) by lia.
      apply Rsum_ext. intros k _. rewrite <- cos_neg. f_equal.
      unfold phase. rewrite minus_INR by lia. field. exact HN.
    + rewrite <- (cos_sum_zero (N := N) (j := n - m)) by lia.
      apply Rsum_ext. intros k _. f_equal.
      unfold phase. rewrite minus_INR by lia. field. exact HN.
Qed.

(** *** The transforms *)

Lemma nth_map_seq {A : Type} (f : nat -> A) (N k : nat) (d : A) :
  (k < N)%nat -> nth k (map f (seq 0 N)) d = f k.
Proof.
  intros Hk. rewrite (nth_indep _ d (f 0%nat)) by (now rewrite length_map, length_seq).
  rewrite map_nth, seq_nth by exact Hk. reflexivity.
Qed.

Lemma map_nth_seq (x : list R) :
  map (fun n => nth n x 0) (seq 0 (length x)) = x.
Proof.
  apply (nth_ext _ _ 0 0).
  - now rewrite length_map, length_seq.
  - intros n Hn. rewrite length_map, length_seq in Hn.
    exact (@nth_map_seq R (fun i => nth i x 0) (length x) n 0 Hn).
Qed.

Lemma rfft_length (x : list R) : length (rfft x) = length x.
Proof. unfold rfft. now rewrite length_map, length_seq. Qed.

Lemma rfft_nth (x : list R) (k : nat) :
  (k < length x)%nat -> nth k (rfft x) (0, 0) = bin x k.
Proof. intros Hk. unfold rfft. now rewrite nth_map_seq. Qed.

(** The mirror bins of a real signal are conjugate. *)
Lemma phase_mirror (N k n : nat) :
  (0 < N)%nat -> (k <= N)%nat ->
  phase N (N - k) n = - phase N k n + 2 * INR n * PI.
Proof.
  intros HN Hk. unfold phase. rewrite minus_INR by exact Hk.
  field. apply not_0_INR. lia.
Qed.

Lemma bin_mirror (x : list R) (k : nat) :
  (0 < length x)%nat -> (k <= length x)%nat ->
  bin x (length x - k) = (fst (bin x k), - snd (bin x k)).
Proof.
  intros HN Hk. unfold bin. cbn [fst snd]. f_equal.
  - f_equal. apply Rsum_ext. intros n _.
    rewrite phase_mirror, cos_period, cos_neg by assumption. reflexivity.
  - rewrite (Rsum_ext (fun n => nth n x 0 * sin (phase (length x) (length x - k) n))
                      (fun n => (-1) * (nth n x 0 * sin (phase (length x) k n)))).
    + rewrite Rsum_scal. field.
      apply Rgt_not_eq, sqrt_lt_R0, lt_0_INR. exact HN.
    + intros n _. rewrite phase_mirror, sin_period, sin_neg by assumption. ring.
Qed.

Lemma half_plus_one_le (N : nat) : (0 < N)%nat -> (N / 2 + 1 <= N)%nat.
Proof.
  intros HN. pose proof (Nat.div_mod_eq N 2) as E.
  pose proof (Nat.mod_upper_bound N 2 ltac:(lia)) as Hm.
  destruct (Nat.eq_dec (N / 2) 0) as [E0 | Hne]; lia.
Qed.

(** The spectrum the inverse transform reads from the truncated and
    zero-padded coefficients is the whole spectrum of the signal. *)
Lemma hermitian_padded (x : list R) (k : nat) :
  (k < length x)%nat ->
  hermitian (firstn (length x / 2 + 1) (rfft x)
             ++ repeat (0, 0) (length x - (length x / 2 + 1))) k
  = bin x k.
Proof.
  intros Hk. set (N := length x). set (K := (N / 2 + 1)%nat).
  assert (HN : (0 < N)%nat) by (unfold N; lia).
  assert (HK : (K <= N)%nat) by (apply half_plus_one_le; exact HN).
  assert (Hfirst : length (firstn K (rfft x)) = K).
  { apply firstn_length_le. rewrite rfft_length. exact HK. }
  assert (Hlen : length (firstn K (rfft x) ++ repeat (0, 0) (N - K)) = N).
  { rewrite length_app, Hfirst, repeat_length. lia. }
  assert (Hlow : forall i, (i < K)%nat ->
            nth i (firstn K (rfft x) ++ repeat (0, 0) (N - K)) (0, 0) = bin x i).
  { intros i Hi. rewrite app_nth1 by lia. rewrite nth_firstn.
    destruct (Nat.ltb_spec i K); [| lia]. apply rfft_nth. fold N. lia. }
  unfold hermitian. rewrite Hlen.
  destruct (Nat.leb_spec k (N / 2)) as [Hle | Hgt].
  - apply Hlow. unfold K. lia.
  - assert (Hmirror : (N - k < K)%nat).
    { unfold K. pose proof (Nat.div_mod_eq N 2) as E.
      pose proof (Nat.mod_upper_bound N 2 ltac:(lia)) as Hm. lia. }
    rewrite (Hlow _ Hmirror). unfold N.
    rewrite bin_mirror by (fold N; lia).
    destruct (bin x k) as [a b]. cbn [fst snd]. f_equal. ring.
Qed.

(** The inverse transform of the whole spectrum gives the signal back. *)
Lemma inverse_of_bins (x : list R) (n : nat) :
  (n < length x)%nat ->
  Rsum (fun k => let '(a, b) := bin x k in
                 a * cos (phase (length x) k n) - b * sin (phase (length x) k n))
       (length x)
  / sqrt (INR (length x))
  = nth n x 0.
Proof.
  intros Hn. set (N := length x).
  assert (HN : 0 < INR N) by (apply lt_0_INR; unfold N; lia).
  assert (Hs : 0 < sqrt (INR N)) by (apply sqrt_lt_R0; exact HN).
  assert (Hss : sqrt (INR N) * sqrt (INR N) = INR N) by (apply sqrt_sqrt; lra).
  rewrite (Rsum_ext _
             (fun k => / sqrt (INR N)
                       * Rsum (fun m => nth m x 0 * cos (phase N k n - phase N k m)) N)).
  - rewrite Rsum_scal, Rsum_swap.
    rewrite (Rsum_ext _ (fun m => if (m =? n)%nat then nth m x 0 * INR N else 0)).
    + rewrite Rsum_delta by exact Hn.
      set (s := sqrt (INR N)) in *. rewrite <- Hss. field. lra.
    + intros m Hm. rewrite Rsum_scal, cos_orthogonal by assumption.
      destruct (m =? n)%nat; ring.
  - intros k Hk. unfold bin. fold N.
    rewrite (Rsum_ext (fun m => nth m x 0 * cos (phase N k n - phase N k m))
               (fun m => cos (phase N k n) * (nth m x 0 * cos (phase N k m))
                         + sin (phase N k n) * (nth m x 0 * sin (phase N k m))))
      by (intros m _; rewrite cos_minus; ring).
    rewrite Rsum_plus, !Rsum_scal. field. lra.
Qed.

Lemma irfft_padded_coe_targets (x : list R) :
  (0 < length x)%nat ->
  irfft_padded (length x) (length x / 2 + 1) (coe_targets (length x / 2 + 1) x)
  = Some x.
Proof.
  intros HN. unfold irfft_padded, pad_coe, coe_targets.
  pose proof (half_plus_one_le HN) as HK.
  destruct (Nat.ltb_spec (length x) (length x / 2 + 1)); [lia |].
  cbn [option_map]. f_equal. unfold irfft.
  assert (Hlen : length (firstn (length x / 2 + 1) (rfft x)
                         ++ repeat (0, 0) (length x - (length x / 2 + 1)))
                 = length x).
  { rewrite length_app, firstn_length_le, repeat_length by (rewrite rfft_length; lia).
    lia. }
  rewrite Hlen.
  transitivity (map (fun n => nth n x 0) (seq 0 (length x))); [| apply map_nth_seq].
  apply map_ext_in. intros n Hn. apply in_seq in Hn.
  rewrite <- (@inverse_of_bins x n) by lia.
  f_equal. apply Rsum_ext. intros k Hk.
  now rewrite hermitian_padded.
Qed.

(** C2. For every signal of length [N >= 1], the forward transform cut
    to its first [K = N / 2 + 1] coefficients, padded with zeros back to
    [N] bins and put through the inverse transform, gives back the
    signal (exactly, over the reals). *)
Theorem fourier_round_trip (x : list R) (N K : nat) :
  length x = N -> (0 < N)%nat -> K = (N / 2 + 1)%nat ->
  irfft_padded N K (coe_targets K x) = Some x.
Proof. intros <- HN ->. now apply irfft_padded_coe_targets. Qed.

Lemma fourier_round_trip_witness :
  irfft_padded 4 3 (coe_targets 3 [3; 1; 4; 1]) = Some [3; 1; 4; 1].
Proof. apply (@fourier_round_trip [3; 1; 4; 1] 4 3); [reflexivity | lia | reflexivity]. Defined.

(** The decode path of [distance2mask] exponentiates what the inverse
    transform returns. *)
Lemma decode_coe_coe_targets (x : list R) :
  (0 < length x)%nat ->
  decode_coe (length x) (length x / 2 + 1) (coe_targets (length x / 2 + 1) x)
  = Some (map exp x).
Proof.
  intros HN. unfold decode_coe. now rewrite irfft_padded_coe_targets.
Qed.

(** With fewer coefficients the round trip is lossy: of the signal
    [0, 1] the first coefficient alone gives back the mean. *)
Example irfft_padded_lossy :
  irfft_padded 2 1 (coe_targets 1 [0; 1]) = Some [1 / 2; 1 / 2].
Proof.
  unfold irfft_padded, pad_coe, coe_targets, rfft, irfft, hermitian, phase.
  cbn [length Nat.ltb Nat.leb Nat.sub Nat.div Nat.divmod fst snd seq map firstn
       repeat app option_map nth Rsum INR].
  assert (H2 : sqrt (1 + 1) * sqrt (1 + 1) = 1 + 1) by (apply sqrt_sqrt; lra).
  assert (Hs : 0 < sqrt (1 + 1)) by (apply sqrt_lt_R0; lra).
  replace (2 * PI * 0 * 0 / (1 + 1)) with 0 by (field; lra).
  replace (2 * PI * 0 * 1 / (1 + 1)) with 0 by (field; lra).
  rewrite cos_0, sin_0.
  assert (E : forall a b a' b' : R, a = a' -> b = b' -> Some [a; b] = Some [a'; b'])
    by (intros; subst; reflexivity).
  apply E.
  - apply (Rmult_eq_reg_r (sqrt (1 + 1) * sqrt (1 + 1))); [| nra].
    rewrite H2 at 2. field. lra.
  - apply (Rmult_eq_reg_r (sqrt (1 + 1) * sqrt (1 + 1))); [| nra].
    rewrite H2 at 2. field. lra.
Qed.

End FourierCodecProps.

(** ** TargetAssigner *)

Section TargetAssignerProps.
Import Prelude Head TargetAssigner Samples.
Local Open Scope R_scope.

(** *** [tensor_argmin]: the first minimum *)

Lemma tensor_argmin_spec (l : list R) :
  l <> [] ->
  exists m i,
    tensor_argmin l = Some (m, i) /\
    nth_error l i = Some m /\
    (forall j x, nth_error l j = Some x -> m <= x) /\
    (forall j x, (j < i)%nat -> nth_error l j = Some x -> m < x).
Proof.
  induction l as [| a t IH]; [congruence |]. intros _.
  destruct t as [| b t].
  - exists a, 0%nat. repeat split.
    + intros [| j] x H; simpl in H; [inversion H; lra |].
      destruct j; discriminate.
    + intros j x Hj. lia.
  - destruct IH as (m & i & Hrun & Hnth & Hmin & Hfirst); [discriminate |].
    change (tensor_argmin (a :: b :: t))
      with (match tensor_argmin (b :: t) with
            | None => Some (a, 0%nat)
            | Some (m0, i0) =>
                if Rle_dec a m0 then Some (a, 0%nat) else Some (m0, S i0)
            end).
    rewrite Hrun. destruct (Rle_dec a m) as [Hle | Hgt].
    + exists a, 0%nat. repeat split.
      * intros [| j] x H; simpl in H; [inversion H; lra |].
        apply Hmin in H. lra.
      * intros j x Hj. lia.
    + exists m, (S i). repeat split.
      * exact Hnth.
      * intros [| j] x H; simpl in H; [inversion H; lra |].
        now apply Hmin in H.
      * intros [| j] x Hj H; simpl in H; [inversion H; lra |].
        apply (Hfirst j); [lia | exact H].
Qed.

(** *** The masked areas of one point *)

Lemma nth_error_combine {A B : Type} (l1 : list A) (l2 : list B) (n : nat) :
  nth_error (combine l1 l2) n
  = match nth_error l1 n, nth_error l2 n with
    | Some a, Some b => Some (a, b)
    | _, _ => None
    end.
Proof.
  revert l2 n. induction l1 as [| a l1 IH]; intros [| b l2] [| n]; simpl;
    try reflexivity.
  - now destruct (nth_error l1 n).
  - apply IH.
Qed.

(** The area the minimum is taken over: the box area where both tests
    pass, the sentinel elsewhere. *)
Lemma masked_areas_nth (inside : list bool) (rr pt : R * R) (gt_bboxes : list box)
    (g : nat) (bb : box) (b : bool) :
  nth_error gt_bboxes g = Some bb -> nth_error inside g = Some b ->
  nth_error (masked_areas inside rr pt gt_bboxes) g
  = Some (if passes b rr pt bb then area bb else INF).
Proof.
  intros Hbb Hb. unfold masked_areas.
  rewrite nth_error_map, nth_error_combine, Hbb, Hb. simpl.
  unfold passes. now destruct b, (inside_regress_range rr pt bb).
Qed.

Lemma masked_areas_length (inside : list bool) (rr pt : R * R) (gt_bboxes : list box) :
  length inside = length gt_bboxes ->
  length (masked_areas inside rr pt gt_bboxes) = length gt_bboxes.
Proof.
  intros H. unfold masked_areas. rewrite length_map, length_combine. lia.
Qed.

Lemma nth_error_lt {A : Type} (l : list A) (n : nat) :
  (n < length l)%nat -> exists x, nth_error l n = Some x.
Proof.
  intros H. destruct (nth_error l n) as [x |] eqn:E; [eauto |].
  apply nth_error_None in E. lia.
Qed.

Lemma passing_nth (gt_bboxes : list box) (inside : list bool) (rr pt : R * R)
    (g : nat) (bb : box) (b : bool) :
  nth_error gt_bboxes g = Some bb -> nth_error inside g = Some b ->
  (passes b rr pt bb = true <-> passing gt_bboxes inside rr pt g).
Proof.
  intros Hbb Hb. unfold passing.
  rewrite (nth_error_nth _ _ false Hb). split.
  - intros H. eauto.
  - intros (bb' & Hbb' & H). congruence.
Qed.

(** *** One point (lines 601-608) *)

Lemma assign_point_spec (gt_bboxes : list box) (gt_labels : list Z)
    (inside : list bool) (rr pt : R * R) :
  gt_labels <> [] ->
  length gt_bboxes = length gt_labels ->
  length inside = length gt_bboxes ->
  exists label ind bb,
    assign_point gt_bboxes gt_labels inside rr pt
    = Some (label, box_distances pt bb, ind) /\
    nth_error gt_bboxes ind = Some bb /\
    ((forall g, ~ passing gt_bboxes inside rr pt g) -> label = 0%Z) /\
    (forall g, min_area_passing gt_bboxes inside rr pt g ->
               area (nth g gt_bboxes zero_box) < INF ->
               ind = g /\ nth_error gt_labels g = Some label).
Proof.
  intros Hne Hlen Hin.
  assert (Hmne : masked_areas inside rr pt gt_bboxes <> []).
  { intros E. apply (f_equal (@length R)) in E.
    rewrite (masked_areas_length inside rr pt gt_bboxes Hin) in E. simpl in E.
    destruct gt_labels; [congruence | simpl in Hlen; lia]. }
  destruct (@tensor_argmin_spec _ Hmne) as (m & i & Hrun & Hnth & Hmin & Hfirst).
  assert (Hi : (i < length gt_bboxes)%nat).
  { rewrite <- (masked_areas_length inside rr pt gt_bboxes Hin). apply nth_error_Some. congruence. }
  destruct (nth_error_lt gt_bboxes Hi) as (bb & Hbb).
  destruct (@nth_error_lt _ gt_labels i) as (lab & Hlab); [lia |].
  destruct (@nth_error_lt _ inside i) as (b & Hb); [lia |].
  exists (if Reqb m INF then 0%Z else lab), i, bb.
  split; [| split; [exact Hbb | split]].
  - unfold assign_point. now rewrite Hrun, Hlab, Hbb.
  - intros Hnone. rewrite (masked_areas_nth inside rr pt gt_bboxes i Hbb Hb) in Hnth.
    destruct (passes b rr pt bb) eqn:Ep.
    + exfalso. apply (Hnone i). now apply (@passing_nth gt_bboxes inside rr pt i bb b Hbb Hb).
    + inversion Hnth. rewrite (proj2 (Reqb_true INF INF) eq_refl). reflexivity.
  - intros g (Hpass & Hleast & Hearly) Harea.
    destruct Hpass as (bbg & Hbbg & Hpg).
    assert (Hg : (g < length gt_bboxes)%nat) by (apply nth_error_Some; congruence).
    destruct (@nth_error_lt _ inside g) as (bg & Hbg); [lia |].
    rewrite (nth_error_nth _ _ false Hbg) in Hpg.
    rewrite (nth_error_nth _ _ zero_box Hbbg) in Harea.
    pose proof (masked_areas_nth inside rr pt gt_bboxes g Hbbg Hbg) as Hmg. rewrite Hpg in Hmg.
    pose proof (Hmin _ _ Hmg) as Hle.
    rewrite (masked_areas_nth inside rr pt gt_bboxes i Hbb Hb) in Hnth.
    destruct (passes b rr pt bb) eqn:Ep; inversion Hnth as [Em]; [| lra].
    assert (Hpi : passing gt_bboxes inside rr pt i)
      by now apply (@passing_nth gt_bboxes inside rr pt i bb b Hbb Hb).
    pose proof (Hleast i Hpi) as Hgi.
    rewrite (nth_error_nth _ _ zero_box Hbbg) in Hgi.
    rewrite (nth_error_nth _ _ zero_box Hbb) in Hgi.
    assert (Eig : i = g).
    { destruct (Nat.lt_trichotomy i g) as [Hlt | [E | Hgt]]; [| exact E |].
      - pose proof (Hearly i Hlt Hpi) as Hc.
        rewrite (nth_error_nth _ _ zero_box Hbbg) in Hc.
        rewrite (nth_error_nth _ _ zero_box Hbb) in Hc. lra.
      - pose proof (Hfirst g _ Hgt Hmg). lra. }
    subst g. split; [reflexivity |].
    destruct (Reqb _ INF) eqn:E; [apply Reqb_true in E; lra | exact Hlab].
Qed.

(** *** All points (lines 552-608) *)

Lemma expand_same {A : Type} (n : nat) (l : list A) :
  length l = n -> expand n l = Some l.
Proof. intros H. unfold expand. now rewrite H, Nat.eqb_refl. Qed.

Lemma map_opt_total {A B : Type} (f : A -> option B) (l : list A) :
  (forall x, In x l -> f x <> None) ->
  exists l', map_opt f l = Some l' /\ length l' = length l /\
             forall p x, nth_error l p = Some x -> nth_error l' p = f x.
Proof.
  induction l as [| a l IH]; intros Hall.
  - exists []. repeat split. intros [| p] x H; discriminate.
  - destruct IH as (l' & Hrun & Hlen & Hnth).
    { intros x Hx. apply Hall. now right. }
    destruct (f a) as [b |] eqn:E; [| exfalso; apply (Hall a); [now left | exact E]].
    exists (b :: l'). simpl. rewrite E, Hrun. repeat split; [simpl; lia |].
    intros [| p] x H; simpl in *; [inversion H; congruence | now apply Hnth].
Qed.

Lemma map_opt_some {A B : Type} (f : A -> option B) (l : list A) (l' : list B) :
  map_opt f l = Some l' ->
  length l' = length l /\
  forall p x, nth_error l p = Some x -> nth_error l' p = f x.
Proof.
  revert l'. induction l as [| a l IH]; intros l' H; simpl in H.
  - inversion H. split; [reflexivity |]. intros [| p] x Hx; discriminate.
  - destruct (f a) as [b |] eqn:E; [| discriminate].
    destruct (map_opt f l) as [bs |]; [| discriminate].
    inversion H. subst. destruct (IH bs eq_refl) as [Hlen Hnth].
    split; [simpl; lia |].
    intros [| p] x Hx; simpl in *; [inversion Hx; congruence | now apply Hnth].
Qed.

(** The inclusion mask has one row per point and one entry per box. *)
Lemma inside_gt_bbox_mask_shape (self : FourierNetHead) (gt_bboxes : list box)
    (mask_centers : list (R * R)) (points : list (R * R)) (inside : list (list bool)) :
  length mask_centers = length gt_bboxes ->
  inside_gt_bbox_mask self gt_bboxes mask_centers points = Some inside ->
  length inside = length points /\
  forall row, In row inside -> length row = length gt_bboxes.
Proof.
  intros Hlen. unfold inside_gt_bbox_mask.
  destruct (center_sample self).
  - destruct (use_mask_center self); [| discriminate].
    unfold get_mask_sample_region. destruct mask_centers as [| c0 mc]; [discriminate |].
    destruct (Reqb _ 0).
    + intros H. inversion H. split; [apply length_map |].
      intros row Hrow. apply in_map_iff in Hrow. destruct Hrow as (x & <- & _).
      apply length_map.
    + destruct (length (strides self) <? length (num_points_per_level self))%nat;
        [discriminate |].
      intros H. inversion H. split.
      * rewrite length_map, length_combine, length_seq. lia.
      * intros row Hrow. apply in_map_iff in Hrow. destruct Hrow as (x & <- & _).
        rewrite length_map, length_combine. lia.
  - intros H. inversion H. split; [apply length_map |].
    intros row Hrow. apply in_map_iff in Hrow. destruct Hrow as (x & <- & _).
    apply length_map.
Qed.

Lemma assign_labels_points (self : FourierNetHead) (gt_bboxes : list box)
    (gt_labels : list Z) (mask_centers : list (R * R)) (points : list (R * R))
    (regress_ranges : list (R * R)) (inside : list (list bool)) :
  gt_labels <> [] ->
  length gt_bboxes = length gt_labels ->
  length mask_centers = length gt_labels ->
  length regress_ranges = length points ->
  inside_gt_bbox_mask self gt_bboxes mask_centers points = Some inside ->
  exists assigned,
    assign_labels self gt_bboxes gt_labels mask_centers points regress_ranges
    = Some assigned /\
    length assigned = length points /\
    forall p pt rr row,
      nth_error points p = Some pt -> nth_error regress_ranges p = Some rr ->
      nth_error inside p = Some row ->
      length row = length gt_bboxes /\
      nth_error assigned p = assign_point gt_bboxes gt_labels row rr pt.
Proof.
  intros Hne Hbb Hmc Hrr Hinside.
  destruct (inside_gt_bbox_mask_shape self gt_bboxes mask_centers points
              ltac:(congruence) Hinside) as [Hrows Hcols].
  assert (Hguard : negb (length gt_bboxes =? length gt_labels)%nat = false).
  { now rewrite Hbb, Nat.eqb_refl. }
  unfold assign_labels.
  rewrite Hguard, (expand_same _ Hrr), (expand_same _ Hmc), Hinside.
  destruct (map_opt_total
              (fun x => assign_point gt_bboxes gt_labels (snd x) (snd (fst x))
                                     (fst (fst x)))
              (combine (combine points regress_ranges) inside))
    as (assigned & Hrun & Hlen & Hnth).
  { intros [[pt rr] row] Hx. simpl.
    apply in_combine_r in Hx. apply Hcols in Hx.
    destruct (@assign_point_spec gt_bboxes gt_labels row rr pt Hne Hbb Hx)
      as (label & ind & bb & E & _). congruence. }
  exists assigned. split; [exact Hrun |]. split.
  - rewrite Hlen, !length_combine. lia.
  - intros p pt rr row Hpt Hr Hrow. split.
    + apply Hcols. eapply nth_error_In; eassumption.
    + rewrite (Hnth p (pt, rr, row)); [reflexivity |].
      now rewrite !nth_error_combine, Hpt, Hr, Hrow.
Qed.

(** The labels [polar_target_single] returns are those of
    [assign_labels]. *)
Lemma polar_target_single_labels (self : FourierNetHead) (gt_bboxes : list box)
    (gt_masks : list (list (R * R))) (gt_labels : list Z)
    (mask_centers : list (R * R)) (gt_max_centerness : list R)
    (points regress_ranges : list (R * R)) (res : list tensor) :
  gt_labels <> [] ->
  polar_target_single self gt_bboxes gt_masks gt_labels mask_centers
    gt_max_centerness points regress_ranges = Some res ->
  exists assigned mask_targets centerness_target,
    assign_labels self gt_bboxes gt_labels mask_centers points regress_ranges
    = Some assigned /\
    res = [Labels (map (fun a => fst (fst a)) assigned);
           Boxes (map (fun a => snd (fst a)) assigned);
           Rows mask_targets; Scalars centerness_target].
Proof.
  intros Hne. unfold polar_target_single.
  destruct gt_labels as [| l0 ls]; [congruence |]. cbn [length Nat.eqb].
  destruct (assign_labels _ _ _ _ _ _) as [assigned |]; [| discriminate].
  destruct (map_opt _ _) as [targets |]; [| discriminate].
  intros H. inversion H. eauto.
Qed.

(** *** The four distances *)

Lemma min4_pos (a b c d : R) : 0 < min4 (a, b, c, d) <-> 0 < a /\ 0 < b /\ 0 < c /\ 0 < d.
Proof.
  unfold min4, Rmin.
  destruct (Rle_dec a b); destruct (Rle_dec _ c); destruct (Rle_dec _ d); lra.
Qed.

Lemma max4_is_max (a b c d : R) : is_max [a; b; c; d] (max4 (a, b, c, d)).
Proof.
  unfold max4, Rmax, is_max.
  destruct (Rle_dec a b); destruct (Rle_dec _ c); destruct (Rle_dec _ d);
    (split; [simpl; tauto | intros x [<- | [<- | [<- | [<- | []]]]]; lra]).
Qed.

(** C5 (as amended). Whatever the inclusion test in force, for every
    point: when no instance passes both the inclusion test and the
    regression-range test the point gets the background label 0; when
    some do, and the smallest box area among them is below the
    sentinel [INF = 1e8], the point gets the label (and the index) of
    the passing instance of minimum area, the earliest in input order
    among equal areas. The labels [polar_target_single] returns are
    these. *)
Theorem assign_labels_min_area (self : FourierNetHead) (gt_bboxes : list box)
    (gt_masks : list (list (R * R))) (gt_labels : list Z)
    (mask_centers : list (R * R)) (gt_max_centerness : list R)
    (points regress_ranges : list (R * R)) (inside : list (list bool)) :
  gt_labels <> [] ->
  length gt_bboxes = length gt_labels ->
  length mask_centers = length gt_labels ->
  length regress_ranges = length points ->
  inside_gt_bbox_mask self gt_bboxes mask_centers points = Some inside ->
  exists assigned,
    assign_labels self gt_bboxes gt_labels mask_centers points regress_ranges
    = Some assigned /\
    length assigned = length points /\
    (forall p pt rr row,
       nth_error points p = Some pt -> nth_error regress_ranges p = Some rr ->
       nth_error inside p = Some row ->
       exists label tgt ind,
         nth_error assigned p = Some (label, tgt, ind) /\
         ((forall g, ~ passing gt_bboxes row rr pt g) -> label = 0%Z) /\
         (forall g, min_area_passing gt_bboxes row rr pt g ->
                    area (nth g gt_bboxes zero_box) < INF ->
                    ind = g /\ nth_error gt_labels g = Some label)) /\
    (forall res,
       polar_target_single self gt_bboxes gt_masks gt_labels mask_centers
         gt_max_centerness points regress_ranges = Some res ->
       nth_error res 0 = Some (Labels (map (fun a => fst (fst a)) assigned))).
Proof.
  intros Hne Hbb Hmc Hrr Hinside.
  destruct (@assign_labels_points self gt_bboxes gt_labels mask_centers points
              regress_ranges inside Hne Hbb Hmc Hrr Hinside)
    as (assigned & Hrun & Hlen & Hnth).
  exists assigned. split; [exact Hrun |]. split; [exact Hlen |]. split.
  - intros p pt rr row Hpt Hr Hrow.
    destruct (Hnth p pt rr row Hpt Hr Hrow) as [Hcols Hp].
    destruct (@assign_point_spec gt_bboxes gt_labels row rr pt Hne Hbb Hcols)
      as (label & ind & bb & E & _ & Hnone & Hmin).
    exists label, (box_distances pt bb), ind.
    split; [congruence |]. split; assumption.
  - intros res Hres.
    destruct (@polar_target_single_labels _ _ _ _ _ _ _ _ _ Hne Hres)
      as (assigned' & mt & ct & Hrun' & ->).
    rewrite Hrun in Hrun'. inversion Hrun'. reflexivity.
Qed.

Lemma nested_inside :
  inside_gt_bbox_mask plain_head nested_boxes nested_centers [(40, 40)]
  = Some [[true; true]].
Proof.
  unfold inside_gt_bbox_mask, plain_head, nested_boxes. cbn [center_sample with_center_sample map].
  unfold box_distances, min4. Rcompute. reflexivity.
Qed.

Lemma assign_labels_min_area_witness :
  exists assigned,
    assign_labels plain_head nested_boxes nested_labels nested_centers
      [(40, 40)] [(-1, 64)] = Some assigned /\
    length assigned = length [(40, 40)] /\
    (forall p pt rr row,
       nth_error [(40, 40)] p = Some pt -> nth_error [(-1, 64)] p = Some rr ->
       nth_error [[true; true]] p = Some row ->
       exists label tgt ind,
         nth_error assigned p = Some (label, tgt, ind) /\
         ((forall g, ~ passing nested_boxes row rr pt g) -> label = 0%Z) /\
         (forall g, min_area_passing nested_boxes row rr pt g ->
                    area (nth g nested_boxes zero_box) < INF ->
                    ind = g /\ nth_error nested_labels g = Some label)) /\
    (forall res,
       polar_target_single plain_head nested_boxes [] nested_labels nested_centers
         [] [(40, 40)] [(-1, 64)] = Some res ->
       nth_error res 0 = Some (Labels (map (fun a => fst (fst a)) assigned))).
Proof.
  apply (@assign_labels_min_area plain_head nested_boxes [] nested_labels
           nested_centers [] [(40, 40)] [(-1, 64)] [[true; true]]).
  - discriminate.
  - reflexivity.
  - reflexivity.
  - reflexivity.
  - exact nested_inside.
Defined.

(** The nested boxes, evaluated: the point (40, 40) lies in both and
    takes the label of the inner, smaller one. *)
Example assign_labels_nested :
  assign_labels plain_head nested_boxes nested_labels nested_centers
    [(40, 40)] [(-1, 64)]
  = Some [(2%Z, (40 - 20, 40 - 20, 60 - 40, 60 - 40), 1%nat)].
Proof.
  unfold assign_labels. rewrite !expand_same by reflexivity.
  rewrite nested_inside.
  unfold nested_boxes, nested_labels, nested_centers.
  cbn [length Nat.eqb andb negb combine map_opt fst snd].
  unfold assign_point, masked_areas, inside_regress_range, box_distances, max4, area.
  cbn [combine map fst snd negb]. Rcompute. cbn [andb negb tensor_argmin].
  Rcompute. cbn [nth_error]. unfold INF. Rcompute. reflexivity.
Qed.

(** Both huge boxes contain the point (5000, 5000) and its largest
    distance lies in the range (512, INF) of the last level: both pass;
    the smaller has area exactly [INF], so [min_area == INF] holds and the
    point is labelled background. *)
Lemma polar_target_single_huge_boxes_background :
  polar_target_single plain_head [huge_box; huger_box] [] [1; 2]%Z
    [(5000, 5000); (5000, 5500)] [] [(5000, 5000)] [(512, INF)]
  = Some [Labels [0%Z];
          Boxes [(5000 - 0, 5000 - 0, 9999 - 5000, 9999 - 5000)];
          Rows [repeat 0 360]; Scalars [0]] /\
  passing [huge_box; huger_box] [true; true] (512, INF) (5000, 5000) 0 /\
  passing [huge_box; huger_box] [true; true] (512, INF) (5000, 5000) 1 /\
  inside_gt_bbox_mask plain_head [huge_box; huger_box]
    [(5000, 5000); (5000, 5500)] [(5000, 5000)] = Some [[true; true]].
Proof.
  assert (Hin : inside_gt_bbox_mask plain_head [huge_box; huger_box]
                  [(5000, 5000); (5000, 5500)] [(5000, 5000)] = Some [[true; true]]).
  { unfold inside_gt_bbox_mask, plain_head, huge_box, huger_box.
    cbn [center_sample with_center_sample map].
    unfold box_distances, min4. Rcompute. reflexivity. }
  split; [| split; [| split; [| exact Hin]]].
  - unfold polar_target_single. cbn [length Nat.eqb].
    unfold assign_labels. rewrite !expand_same by reflexivity.
    rewrite Hin. unfold huge_box, huger_box.
    cbn [length Nat.eqb andb negb combine map_opt fst snd].
    unfold assign_point, masked_areas, inside_regress_range, box_distances, max4,
      area, INF.
    cbn [combine map fst snd negb]. Rcompute. cbn [andb negb tensor_argmin].
    Rcompute. cbn [nth_error]. Rcompute.
    cbn [combine map_opt mask_target fst snd Z.eqb map].
    reflexivity.
  - exists huge_box. split; [reflexivity |].
    unfold passes, inside_regress_range, huge_box, box_distances, max4, INF.
    cbn [nth fst snd]. Rcompute. reflexivity.
  - exists huger_box. split; [reflexivity |].
    unfold passes, inside_regress_range, huger_box, box_distances, max4, INF.
    cbn [nth fst snd]. Rcompute. reflexivity.
Qed.

(** C6 (as amended). With centre sampling disabled and a single
    instance whose box area is not the sentinel [INF = 1e8], a point
    gets the instance's label when all four distances to the box edges
    are strictly positive and their maximum lies in the point's
    regression range, bounds included, and the background label 0
    otherwise; in particular a point that fails the inclusion test is
    background whatever its regression range. *)
Theorem assign_labels_single_instance (self : FourierNetHead) (bb : box)
    (label : Z) (mask_center : R * R) (points regress_ranges : list (R * R)) :
  center_sample self = false ->
  length regress_ranges = length points ->
  area bb <> INF ->
  exists assigned,
    assign_labels self [bb] [label] [mask_center] points regress_ranges
    = Some assigned /\
    length assigned = length points /\
    (forall p pt rr left top right bottom mx,
      nth_error points p = Some pt -> nth_error regress_ranges p = Some rr ->
      box_distances pt bb = (left, top, right, bottom) ->
      is_max [left; top; right; bottom] mx ->
      exists l,
        nth_error assigned p = Some (l, (left, top, right, bottom), 0%nat) /\
        ((0 < left /\ 0 < top /\ 0 < right /\ 0 < bottom) /\
         fst rr <= mx <= snd rr -> l = label) /\
        (~ ((0 < left /\ 0 < top /\ 0 < right /\ 0 < bottom) /\
            fst rr <= mx <= snd rr) -> l = 0%Z) /\
        (~ (0 < left /\ 0 < top /\ 0 < right /\ 0 < bottom) -> l = 0%Z)) /\
    (forall gt_masks gt_max_centerness res,
       polar_target_single self [bb] gt_masks [label] [mask_center]
         gt_max_centerness points regress_ranges = Some res ->
       nth_error res 0 = Some (Labels (map (fun a => fst (fst a)) assigned))).
Proof.
  intros Hcs Hrr Harea.
  assert (Hinside : inside_gt_bbox_mask self [bb] [mask_center] points
                    = Some (map (fun pt => [Rltb 0 (min4 (box_distances pt bb))])
                                points)).
  { unfold inside_gt_bbox_mask. now rewrite Hcs. }
  destruct (@assign_labels_points self [bb] [label] [mask_center] points
              regress_ranges _ ltac:(discriminate) eq_refl eq_refl Hrr Hinside)
    as (assigned & Hrun & Hlen & Hnth).
  exists assigned. split; [exact Hrun |]. split; [exact Hlen |]. split.
  2: { intros gt_masks gt_max_centerness res Hres.
       assert (Hne : [label] <> []) by discriminate.
       destruct (@polar_target_single_labels _ _ _ _ _ _ _ _ _ Hne Hres)
         as (assigned' & mt & ct & Hrun' & ->).
       rewrite Hrun in Hrun'. inversion Hrun'. reflexivity. }
  intros p pt rr left top right bottom mx Hpt Hr Hbox Hmx.
  destruct (Hnth p pt rr [Rltb 0 (min4 (box_distances pt bb))] Hpt Hr) as [_ Hp].
  { rewrite nth_error_map, Hpt. reflexivity. }
  rewrite Hp. unfold assign_point, masked_areas, inside_regress_range.
  cbn [combine map fst snd tensor_argmin nth_error]. rewrite Hbox.
  assert (Emx : max4 (left, top, right, bottom) = mx).
  { eapply is_max_unique; [apply max4_is_max | exact Hmx]. }
  rewrite Emx.
  assert (Hincl : Rltb 0 (min4 (left, top, right, bottom)) = true
                  <-> 0 < left /\ 0 < top /\ 0 < right /\ 0 < bottom).
  { rewrite Rltb_true. apply min4_pos. }
  assert (Hrange : Rleb (fst rr) mx && Rleb mx (snd rr) = true
                   <-> fst rr <= mx <= snd rr).
  { rewrite andb_true_iff, !Rleb_true. tauto. }
  eexists. split; [reflexivity |].
  destruct (Rltb 0 (min4 (left, top, right, bottom))) eqn:Ei;
    destruct (Rleb (fst rr) mx && Rleb mx (snd rr)) eqn:Er; cbn [negb];
    try rewrite (proj2 (Reqb_true INF INF) eq_refl);
    try rewrite (proj2 (Reqb_false (area bb) INF) Harea);
    repeat split; intros H; try reflexivity; exfalso;
    try (apply H; tauto);
    try (destruct H as [H1 H2]; apply Hincl in H1; discriminate);
    try (destruct H as [H1 H2]; apply Hrange in H2; discriminate).
Qed.

Lemma assign_labels_single_instance_witness :
  exists assigned,
    assign_labels plain_head [(20, 20, 60, 60)] [2%Z] [(40, 40)]
      [(40, 40); (10, 40)] [(-1, 64); (-1, 64)] = Some assigned /\
    length assigned = length [(40, 40); (10, 40)] /\
    (forall p pt rr left top right bottom mx,
      nth_error [(40, 40); (10, 40)] p = Some pt ->
      nth_error [(-1, 64); (-1, 64)] p = Some rr ->
      box_distances pt (20, 20, 60, 60) = (left, top, right, bottom) ->
      is_max [left; top; right; bottom] mx ->
      exists l,
        nth_error assigned p = Some (l, (left, top, right, bottom), 0%nat) /\
        ((0 < left /\ 0 < top /\ 0 < right /\ 0 < bottom) /\
         fst rr <= mx <= snd rr -> l = 2%Z) /\
        (~ ((0 < left /\ 0 < top /\ 0 < right /\ 0 < bottom) /\
            fst rr <= mx <= snd rr) -> l = 0%Z) /\
        (~ (0 < left /\ 0 < top /\ 0 < right /\ 0 < bottom) -> l = 0%Z)) /\
    (forall gt_masks gt_max_centerness res,
       polar_target_single plain_head [(20, 20, 60, 60)] gt_masks [2%Z] [(40, 40)]
         gt_max_centerness [(40, 40); (10, 40)] [(-1, 64); (-1, 64)] = Some res ->
       nth_error res 0 = Some (Labels (map (fun a => fst (fst a)) assigned))).
Proof.
  apply (@assign_labels_single_instance plain_head (20, 20, 60, 60) 2%Z (40, 40)
           [(40, 40); (10, 40)] [(-1, 64); (-1, 64)]).
  - reflexivity.
  - reflexivity.
  - unfold area, INF. lra.
Defined.

(** The same instance, evaluated on a point inside and a point outside
    the box. *)
Example assign_labels_single_evaluated :
  assign_labels plain_head [(20, 20, 60, 60)] [2%Z] [(40, 40)]
    [(40, 40); (10, 40)] [(-1, 64); (-1, 64)]
  = Some [(2%Z, (40 - 20, 40 - 20, 60 - 40, 60 - 40), 0%nat);
          (0%Z, (10 - 20, 40 - 20, 60 - 10, 60 - 40), 0%nat)].
Proof.
  unfold assign_labels. rewrite !expand_same by reflexivity.
  unfold inside_gt_bbox_mask, plain_head.
  cbn [center_sample with_center_sample length Nat.eqb andb negb map combine
       map_opt fst snd].
  unfold assign_point, masked_areas, inside_regress_range, box_distances, min4,
    max4, area, INF.
  cbn [combine map fst snd]. Rcompute. cbn [andb negb tensor_argmin nth_error].
  Rcompute. reflexivity.
Qed.

(** A single box of area exactly [INF]: the point (5000, 5000) is
    strictly inside it and its largest distance, 5000, lies in the
    range (512, INF), yet the point is labelled background. *)
Lemma polar_target_single_huge_box_background :
  polar_target_single plain_head [huge_box] [] [1%Z] [(5000, 5000)] []
    [(5000, 5000)] [(512, INF)]
  = Some [Labels [0%Z];
          Boxes [(5000 - 0, 5000 - 0, 9999 - 5000, 9999 - 5000)];
          Rows [repeat 0 360]; Scalars [0]] /\
  box_distances (5000, 5000) huge_box
  = (5000 - 0, 5000 - 0, 9999 - 5000, 9999 - 5000) /\
  (0 < 5000 - 0 /\ 0 < 5000 - 0 /\ 0 < 9999 - 5000 /\ 0 < 9999 - 5000) /\
  is_max [5000 - 0; 5000 - 0; 9999 - 5000; 9999 - 5000] 5000 /\
  512 <= 5000 <= INF /\
  area huge_box = INF.
Proof.
  split; [| split; [reflexivity | split; [lra | split; [| split]]]].
  - unfold polar_target_single. cbn [length Nat.eqb].
    unfold assign_labels. rewrite !expand_same by reflexivity.
    unfold inside_gt_bbox_mask, plain_head, huge_box.
    cbn [center_sample with_center_sample length Nat.eqb andb negb map combine
         map_opt fst snd].
    unfold assign_point, masked_areas, inside_regress_range, box_distances, min4,
      max4, area, INF.
    cbn [combine map fst snd]. Rcompute. cbn [andb negb tensor_argmin nth_error].
    Rcompute.
    cbn [combine map_opt mask_target fst snd Z.eqb map].
    reflexivity.
  - split; [simpl; left; lra |].
    intros x [<- | [<- | [<- | [<- | []]]]]; lra.
  - unfold INF. lra.
  - unfold area, huge_box, INF. lra.
Qed.

(** *** No ground truth (lines 548-550) *)

Lemma polar_target_single_no_gt_eq (self : FourierNetHead) (gt_bboxes : list box)
    (gt_masks : list (list (R * R))) (mask_centers : list (R * R))
    (gt_max_centerness : list R) (points regress_ranges : list (R * R)) :
  polar_target_single self gt_bboxes gt_masks [] mask_centers gt_max_centerness
    points regress_ranges
  = Some [Labels (repeat 0%Z (length points));
          Boxes (repeat zero_box (length points))].
Proof. reflexivity. Qed.

(** C1 (what the code does). With an empty ground-truth list,
    [polar_target_single] returns a tuple of two tensors only, the
    all-background labels and the zero box targets: it returns no mask
    target and no centerness target. *)
Theorem polar_target_single_no_gt (self : FourierNetHead) (gt_bboxes : list box)
    (gt_masks : list (list (R * R))) (mask_centers : list (R * R))
    (gt_max_centerness : list R) (points regress_ranges : list (R * R)) :
  polar_target_single self gt_bboxes gt_masks [] mask_centers gt_max_centerness
    points regress_ranges
  = Some [Labels (repeat 0%Z (length points));
          Boxes (repeat zero_box (length points))].
Proof. reflexivity. Qed.

Lemma zip_star_length {A : Type} (rows : list (list A)) (r : list A) :
  In r rows -> (length (zip_star rows) <= length r)%nat.
Proof.
  destruct rows as [| r0 rs]; [intros [] |].
  unfold zip_star. rewrite length_map, length_seq.
  intros [<- | Hin].
  - induction rs as [| x rs IH]; simpl; lia.
  - induction rs as [| x rs IH]; [destruct Hin |].
    simpl. destruct Hin as [<- | Hin]; [lia |]. specialize (IH Hin). lia.
Qed.

Lemma map_opt_In {A B : Type} (f : A -> option B) (l : list A) (l' : list B) (a : A) :
  map_opt f l = Some l' -> In a l -> exists b, f a = Some b /\ In b l'.
Proof.
  revert l'. induction l as [| x l IH]; intros l' H Hin; [destruct Hin |].
  simpl in H. destruct (f x) as [b |] eqn:E; [| discriminate].
  destruct (map_opt f l) as [bs |]; [| discriminate].
  inversion H. subst. destruct Hin as [-> | Hin].
  - exists b. split; [exact E | now left].
  - destruct (IH bs eq_refl Hin) as (b' & Hb' & Hin'). exists b'.
    split; [exact Hb' | now right].
Qed.

(** As soon as one image of the batch has no ground truth, the four
    names [polar_target] unpacks the result into cannot be bound: it
    raises. *)
Lemma polar_target_no_gt_raises (self : FourierNetHead)
    (points : list (list (R * R))) (images : list image_gt) (img : image_gt) :
  In img images -> gt_labels img = [] -> polar_target self points images = None.
Proof.
  intros Hin Hgt. unfold polar_target.
  destruct (negb _); [reflexivity |].
  unfold multi_apply.
  destruct (map_opt _ images) as [results |] eqn:Eres; [| reflexivity].
  destruct (map_opt_In _ _ img Eres Hin) as (r & Hr & Hrin).
  rewrite Hgt, polar_target_single_no_gt_eq in Hr.
  pose proof (zip_star_length results r Hrin) as Hlen.
  inversion Hr. subst r. simpl in Hlen. cbn [option_map].
  destruct (zip_star results) as [| a [| b [| c [| d [| e l]]]]];
    try reflexivity. simpl in Hlen. lia.
Qed.

(** *** The mask and centerness targets of a positive point *)

Lemma mask_target_positive (self : FourierNetHead) (gt_masks : list (list (R * R)))
    (gt_max_centerness : list R) (pt : R * R) (label : Z) (tgt : box) (i : nat)
    (contour : list (R * R)) :
  label <> 0%Z ->
  nth_error gt_masks i = Some contour ->
  normalized_centerness self = false ->
  (0 < contour_points self)%nat ->
  (360 mod Z.of_nat (contour_points self) = 0)%Z ->
  exists dists c nc,
    mask_target self gt_masks gt_max_centerness pt (label, tgt, i) = Some (dists, c) /\
    PolarSampler.get_polar_coordinates (fst pt) (snd pt) contour
      (Z.of_nat (contour_points self)) = Some (dists, nc) /\
    CenternessScorer.polar_centerness_target dists None = Some c /\
    length dists = contour_points self.
Proof.
  intros Hlab Hmask Hnorm HN Hmod.
  destruct (@get_polar_coordinates_bins (fst pt) (snd pt) contour
              (Z.of_nat (contour_points self)) 0)
    as (dists & nc & Hrun & Hlen & _); [lia | exact Hmod | lia |].
  rewrite Nat2Z.id in Hlen.
  assert (Hne : dists <> []) by (intros ->; simpl in Hlen; lia).
  destruct (tensor_min_is_min Hne) as (mn & Emn & _).
  destruct (tensor_max_is_max Hne) as (mx & Emx & _).
  exists dists, (Rmin (sqrt (mn / mx)) 1), nc.
  assert (Hc : CenternessScorer.polar_centerness_target dists None
               = Some (Rmin (sqrt (mn / mx)) 1)).
  { unfold CenternessScorer.polar_centerness_target. now rewrite Emn, Emx. }
  split; [| split; [exact Hrun | split; [exact Hc | exact Hlen]]].
  unfold mask_target. destruct (Z.eqb_spec label 0); [contradiction |].
  now rewrite Hmask, Hrun, Hnorm, Hc.
Qed.

(** The whole of [polar_target_single] on the nested boxes: the point
    (40, 40) is positive for the inner box (label 2, index 1) and gets
    the 360 polar distances of that box's contour around itself, and
    their centerness. *)
Example polar_target_single_nested :
  exists dists c nc,
    polar_target_single plain_head nested_boxes
      [[(0, 0); (100, 0); (100, 100); (0, 100)];
       [(20, 20); (60, 20); (60, 60); (20, 60)]]
      nested_labels nested_centers [] [(40, 40)] [(-1, 64)]
    = Some [Labels [2%Z]; Boxes [(40 - 20, 40 - 20, 60 - 40, 60 - 40)];
            Rows [dists]; Scalars [c]] /\
    PolarSampler.get_polar_coordinates 40 40
      [(20, 20); (60, 20); (60, 60); (20, 60)] 360 = Some (dists, nc) /\
    CenternessScorer.polar_centerness_target dists None = Some c /\
    length dists = 360%nat.
Proof.
  destruct (@mask_target_positive plain_head
              [[(0, 0); (100, 0); (100, 100); (0, 100)];
               [(20, 20); (60, 20); (60, 60); (20, 60)]]
              [] (40, 40) 2%Z (40 - 20, 40 - 20, 60 - 40, 60 - 40) 1
              [(20, 20); (60, 20); (60, 60); (20, 60)])
    as (dists & c & nc & Hmt & Hrun & Hc & Hlen);
    [discriminate | reflexivity | reflexivity | cbn; lia | reflexivity |].
  exists dists, c, nc. split; [| split; [exact Hrun | split; [exact Hc | exact Hlen]]].
  unfold polar_target_single. rewrite assign_labels_nested.
  cbn [length nested_labels Nat.eqb combine map_opt fst snd].
  match goal with
  | |- context [mask_target ?s ?m ?g ?p ?a] =>
      replace (mask_target s m g p a) with (Some (dists, c))
        by (symmetry; exact Hmt)
  end.
  reflexivity.
Qed.

Lemma polar_target_single_outside_point :
  polar_target_single plain_head [(20, 20, 60, 60)] [] [2%Z] [(40, 40)] []
    [(10, 40)] [(-1, 64)]
  = Some [Labels [0%Z]; Boxes [(10 - 20, 40 - 20, 60 - 10, 60 - 40)];
          Rows [repeat 0 360]; Scalars [0]].
Proof.
  unfold polar_target_single. cbn [length Nat.eqb].
  unfold assign_labels. rewrite !expand_same by reflexivity.
  unfold inside_gt_bbox_mask, plain_head.
  cbn [center_sample with_center_sample length Nat.eqb andb negb map combine
       map_opt fst snd].
  unfold assign_point, masked_areas, inside_regress_range, box_distances, min4,
    max4, area, INF.
  cbn [combine map fst snd]. Rcompute. cbn [andb negb tensor_argmin nth_error].
  Rcompute.
  cbn [combine map_opt mask_target fst snd Z.eqb map].
  reflexivity.
Qed.

(** [polar_target] on a one-point grid and one image with one instance:
    the four per-level lists; with a second image without ground truth
    it raises. *)
Example polar_target_one_image :
  polar_target plain_head [[(10, 40)]; []; []; []; []]
    [{| gt_bboxes := [(20, 20, 60, 60)]; gt_masks := []; gt_labels := [2%Z];
        mask_centers := [(40, 40)]; gt_max_centerness := [] |}]
  = Some ([Labels [0%Z]; Labels []; Labels []; Labels []; Labels []],
          [Boxes [(10 - 20, 40 - 20, 60 - 10, 60 - 40)];
           Boxes []; Boxes []; Boxes []; Boxes []],
          [Rows [repeat 0 360]; Rows []; Rows []; Rows []; Rows []],
          [Scalars [0]; Scalars []; Scalars []; Scalars []; Scalars []]).
Proof.
  unfold polar_target, multi_apply.
  change (regress_ranges plain_head)
    with [(-1, 64); (64, 128); (128, 256); (256, 512); (512, 100000000)].
  cbn [length Nat.eqb negb combine map concat app fst snd map_opt gt_bboxes
       gt_masks gt_labels mask_centers gt_max_centerness].
  rewrite polar_target_single_outside_point.
  reflexivity.
Qed.

Example polar_target_with_empty_image :
  polar_target plain_head [[(10, 40)]; []; []; []; []]
    [{| gt_bboxes := [(20, 20, 60, 60)]; gt_masks := []; gt_labels := [2%Z];
        mask_centers := [(40, 40)]; gt_max_centerness := [] |};
     {| gt_bboxes := []; gt_masks := []; gt_labels := [];
        mask_centers := []; gt_max_centerness := [] |}]
  = None.
Proof.
  apply polar_target_no_gt_raises
    with (img := {| gt_bboxes := []; gt_masks := []; gt_labels := [];
                    mask_centers := []; gt_max_centerness := [] |});
    [right; left; reflexivity | reflexivity].
Qed.

End TargetAssignerProps.

(** ** Decoder: [distance2mask] *)

Section DecoderProps.
Import Prelude Head Decoder.
Local Open Scope R_scope.

(** The table of angles of a contour size that divides 360: the [N]
    multiples of [360 / N] degrees. *)
Lemma torch_range_table (N : Z) :
  (0 < N)%Z -> (360 mod N = 0)%Z ->
  torch_range 0 359 (360 / N)
  = Some (map (fun k => (Z.of_nat k * (360 / N))%Z) (seq 0 (Z.to_nat N))).
Proof.
  intros HN Hmod.
  assert (E : (360 = N * (360 / N))%Z) by (apply Z.div_exact; lia).
  assert (Hpos : (0 < 360 / N)%Z) by nia.
  unfold torch_range.
  destruct (Z.eqb_spec (360 / N) 0); [lia |].
  destruct (Z.ltb_spec 0 (360 / N)); [| lia].
  destruct (Z.ltb_spec 359 0); [lia |].
  destruct (Z.ltb_spec (360 / N) 0); [lia |]. cbn [andb orb].
  assert (Hq : ((359 - 0) / (360 / N) = N - 1)%Z).
  { symmetry. apply (Z.div_unique_pos _ _ _ (360 / N - 1)); nia. }
  rewrite Hq. replace (N - 1 + 1)%Z with N by ring.
  reflexivity.
Qed.

Lemma angles_table (self : FourierNetHead) :
  (0 < contour_points self)%nat ->
  (360 mod Z.of_nat (contour_points self) = 0)%Z ->
  angles self
  = Some (map (fun k => IZR (Z.of_nat k * (360 / Z.of_nat (contour_points self)))
                        / 180 * PI)
              (seq 0 (contour_points self))).
Proof.
  intros HN Hmod. unfold angles, interval.
  destruct (Nat.eqb_spec (contour_points self) 0); [lia |].
  rewrite torch_range_table by lia. cbn [option_map].
  now rewrite map_map, Nat2Z.id.
Qed.

Lemma broadcast2_same (f : R -> R -> R) (a b : list R) :
  length a = length b ->
  broadcast2 f a b = Some (map (fun p => f (fst p) (snd p)) (combine a b)).
Proof. intros H. unfold broadcast2. now rewrite H, Nat.eqb_refl. Qed.

Lemma nth_error_map2 (f : R -> R -> R) (a b : list R) (i : nat) (x y : R) :
  nth_error a i = Some x -> nth_error b i = Some y ->
  nth_error (map (fun p => f (fst p) (snd p)) (combine a b)) i = Some (f x y).
Proof.
  intros Ha Hb. rewrite nth_error_map, nth_error_combine, Ha, Hb. reflexivity.
Qed.

(** [clamp] keeps a value inside a non-empty interval. *)
Lemma clamp_bounds (lo hi x : R) : lo <= hi -> lo <= clamp lo hi x <= hi.
Proof.
  intros H. unfold clamp, Rmin, Rmax.
  destruct (Rle_dec x lo); destruct (Rle_dec _ hi); lra.
Qed.

(** The vertices are computed from the decoded distances: the signal
    itself, or what the inverse transform and the exponential make of
    the coefficients. *)
Lemma distance2mask_decoded (self : FourierNetHead) (point : R * R)
    (prediction : prediction) (distances : list R) (max_shape : option (Z * Z))
    (train : bool) :
  decoded_distances self prediction train = Some distances ->
  (0 < contour_points self)%nat ->
  (360 mod Z.of_nat (contour_points self) = 0)%Z ->
  length distances = contour_points self ->
  exists x y,
    distance2mask self point prediction max_shape train None
    = Some (x, y, distances) /\
    length x = contour_points self /\ length y = contour_points self /\
    forall i d,
      nth_error distances i = Some d ->
      let a := (Z.of_nat i * (360 / Z.of_nat (contour_points self)))%Z in
      nth_error x i
      = Some (clamp_to (option_map snd max_shape) (fst (vertex point d a))) /\
      nth_error y i
      = Some (clamp_to (option_map fst max_shape) (snd (vertex point d a))).
Proof.
  intros Hdec HN Hmod Hlen.
  unfold distance2mask. rewrite Hdec, (angles_table self HN Hmod).
  set (tbl := map (fun k => IZR (Z.of_nat k * (360 / Z.of_nat (contour_points self)))
                            / 180 * PI) (seq 0 (contour_points self))).
  assert (Htbl : length tbl = contour_points self).
  { unfold tbl. now rewrite length_map, length_seq. }
  rewrite !broadcast2_same
    by (repeat first [rewrite length_map | rewrite length_combine]; lia).
  eexists. eexists. split; [reflexivity |].
  split; [| split].
  - destruct max_shape;
      repeat first [rewrite length_map | rewrite length_combine]; lia.
  - destruct max_shape;
      repeat first [rewrite length_map | rewrite length_combine]; lia.
  - intros i d Hd. cbv zeta.
    set (a := (Z.of_nat i * (360 / Z.of_nat (contour_points self)))%Z).
    assert (Hi : (i < contour_points self)%nat).
    { rewrite <- Hlen. apply nth_error_Some. congruence. }
    assert (Hang : nth_error tbl i = Some (IZR a / 180 * PI)).
    { unfold tbl. rewrite nth_error_map, nth_error_seq.
      destruct (Nat.ltb_spec i (contour_points self)); [reflexivity | lia]. }
    assert (Hx : nth_error
                   (map (fun p => fst p + snd p)
                      (combine (map (fun p => fst p * snd p)
                                  (combine distances (map sin tbl)))
                               (map (fun _ => fst point) tbl))) i
                 = Some (fst (vertex point d a))).
    { apply nth_error_map2.
      - apply nth_error_map2; [exact Hd |]. now rewrite nth_error_map, Hang.
      - now rewrite nth_error_map, Hang. }
    assert (Hy : nth_error
                   (map (fun p => fst p + snd p)
                      (combine (map (fun p => fst p * snd p)
                                  (combine distances (map cos tbl)))
                               (map (fun _ => snd point) tbl))) i
                 = Some (snd (vertex point d a))).
    { apply nth_error_map2.
      - apply nth_error_map2; [exact Hd |]. now rewrite nth_error_map, Hang.
      - now rewrite nth_error_map, Hang. }
    destruct max_shape as [[h w] |]; cbn [option_map clamp_to fst snd].
    + split; rewrite nth_error_map; [rewrite Hx | rewrite Hy]; reflexivity.
    + split; assumption.
Qed.

(** The four angles of [N = 4]. *)
Lemma quarter_turns :
  sin (IZR 0 / 180 * PI) = 0 /\ cos (IZR 0 / 180 * PI) = 1 /\
  sin (IZR 90 / 180 * PI) = 1 /\ cos (IZR 90 / 180 * PI) = 0 /\
  sin (IZR 180 / 180 * PI) = 0 /\ cos (IZR 180 / 180 * PI) = -1 /\
  sin (IZR 270 / 180 * PI) = -1 /\ cos (IZR 270 / 180 * PI) = 0.
Proof.
  replace (IZR 0 / 180 * PI) with 0 by field.
  replace (IZR 90 / 180 * PI) with (PI / 2) by field.
  replace (IZR 180 / 180 * PI) with PI by field.
  replace (IZR 270 / 180 * PI) with (3 * (PI / 2)) by field.
  rewrite sin_0, cos_0, sin_PI2, cos_PI2, sin_PI, cos_PI, sin_3PI2, cos_3PI2.
  repeat split; reflexivity.
Qed.

Lemma distance2mask_square (self : FourierNetHead) (d : R) (train : bool) :
  use_fourier self = false ->
  contour_points self = 4%nat ->
  distance2mask self (10, 10) (Flat [d; d; d; d]) None train None
  = Some ([10; 10 + d; 10; 10 - d], [10 + d; 10; 10 - d; 10], [d; d; d; d]).
Proof.
  intros Hf HN.
  unfold distance2mask, decoded_distances, angles, interval. rewrite Hf, HN.
  cbn [Nat.eqb]. change (360 / Z.of_nat 4)%Z with 90%Z.
  change (torch_range 0 359 90) with (Some [0; 90; 180; 270]%Z).
  cbn [option_map map]. unfold broadcast2.
  cbn [length Nat.eqb combine map fst snd].
  destruct quarter_turns as (-> & -> & -> & -> & -> & -> & -> & ->).
  assert (E : forall a b c e a' b' c' e' : R,
             a = a' -> b = b' -> c = c' -> e = e' ->
             [a; b; c; e] = [a'; b'; c'; e']) by (intros; subst; reflexivity).
  f_equal. f_equal. f_equal; apply E; ring.
Qed.

(** What [clamp_to] computes for a given image dimension. *)
Lemma clamp_to_some (dim : Z) (v : R) :
  clamp_to (Some dim) v = Rmin (Rmax v 0) (IZR dim - 1).
Proof. reflexivity. Qed.

Lemma min_max_bounds (hi v : R) : 0 <= hi -> 0 <= Rmin (Rmax v 0) hi <= hi.
Proof.
  intros H. unfold Rmin, Rmax.
  destruct (Rle_dec v 0); destruct (Rle_dec _ hi); lra.
Qed.

Lemma min_max_inside (hi v : R) : 0 <= v <= hi -> Rmin (Rmax v 0) hi = v.
Proof.
  intros H. unfold Rmin, Rmax.
  destruct (Rle_dec v 0); destruct (Rle_dec _ hi); lra.
Qed.

(** C7. For every sample point and every decoded signal of [N]
    distances (the prediction itself when the head predicts distances;
    [N] the contour size of the head, a divisor of 360),
    [distance2mask] returns [N] vertices, vertex [i] being
    [(d_i * sin a_i + px, d_i * cos a_i + py)] for the angle
    [a_i = i * (360 / N)] degrees. When an image shape
    [(height, width)] is supplied, each coordinate [v] is replaced by
    [min (max v 0) (width - 1)] resp. [min (max v 0) (height - 1)]: a
    coordinate inside the image is kept, and every returned coordinate
    lies in [[0, width - 1]] resp. [[0, height - 1]]. A constant signal
    [d] with [N = 4] around the point [(10, 10)] gives the vertices
    [(10, 10 + d)], [(10 + d, 10)], [(10, 10 - d)], [(10 - d, 10)]. *)
Theorem distance2mask_vertices (self : FourierNetHead) (point : R * R)
    (prediction : prediction) (distances : list R) (max_shape : option (Z * Z))
    (train : bool) :
  decoded_distances self prediction train = Some distances ->
  (0 < contour_points self)%nat ->
  (360 mod Z.of_nat (contour_points self) = 0)%Z ->
  length distances = contour_points self ->
  (exists x y,
     distance2mask self point prediction max_shape train None
     = Some (x, y, distances) /\
     length x = contour_points self /\ length y = contour_points self /\
     forall i d,
       nth_error distances i = Some d ->
       let a := (Z.of_nat i * (360 / Z.of_nat (contour_points self)))%Z in
       let vx := d * sin (IZR a / 180 * PI) + fst point in
       let vy := d * cos (IZR a / 180 * PI) + snd point in
       match max_shape with
       | None => nth_error x i = Some vx /\ nth_error y i = Some vy
       | Some (height, width) =>
           nth_error x i = Some (Rmin (Rmax vx 0) (IZR width - 1)) /\
           nth_error y i = Some (Rmin (Rmax vy 0) (IZR height - 1)) /\
           (0 <= vx <= IZR width - 1 -> nth_error x i = Some vx) /\
           (0 <= vy <= IZR height - 1 -> nth_error y i = Some vy) /\
           ((1 <= width)%Z ->
            exists cx, nth_error x i = Some cx /\ 0 <= cx <= IZR width - 1) /\
           ((1 <= height)%Z ->
            exists cy, nth_error y i = Some cy /\ 0 <= cy <= IZR height - 1)
       end) /\
  (use_fourier self = false ->
   (forall signal, decoded_distances self (Flat signal) train = Some signal) /\
   (contour_points self = 4%nat ->
    forall d,
      distance2mask self (10, 10) (Flat [d; d; d; d]) None train None
      = Some ([10; 10 + d; 10; 10 - d], [10 + d; 10; 10 - d; 10], [d; d; d; d]))).
Proof.
  intros Hdec HN Hmod Hlen. split.
  - destruct (@distance2mask_decoded self point prediction distances max_shape
                train Hdec HN Hmod Hlen) as (x & y & Hrun & Hx & Hy & Hv).
    exists x, y. split; [exact Hrun |]. split; [exact Hx |]. split; [exact Hy |].
    intros i d Hd. destruct (Hv i d Hd) as [Hxi Hyi]. cbv zeta in *.
    unfold vertex in Hxi, Hyi. cbn [fst snd] in Hxi, Hyi.
    destruct max_shape as [[height width] |]; cbn [option_map fst snd] in Hxi, Hyi.
    + rewrite clamp_to_some in Hxi, Hyi.
      split; [exact Hxi |]. split; [exact Hyi |].
      split; [| split; [| split]].
      * intros Hin. rewrite Hxi. f_equal. now apply min_max_inside.
      * intros Hin. rewrite Hyi. f_equal. now apply min_max_inside.
      * intros Hw. eexists. split; [exact Hxi |]. apply min_max_bounds.
        apply IZR_le in Hw. lra.
      * intros Hh. eexists. split; [exact Hyi |]. apply min_max_bounds.
        apply IZR_le in Hh. lra.
    + split; assumption.
  - intros Hf. split.
    + intros signal. unfold decoded_distances. now rewrite Hf.
    + intros H4 d. now apply distance2mask_square.
Qed.

Lemma distance2mask_vertices_witness :
  (exists x y,
     distance2mask MoreSamples.square_head (2, 10) (Flat [5; 5; 5; 5])
       (Some (12, 14)%Z) false None
     = Some (x, y, [5; 5; 5; 5]) /\
     length x = 4%nat /\ length y = 4%nat /\
     forall i d,
       nth_error [5; 5; 5; 5] i = Some d ->
       let a := (Z.of_nat i * (360 / Z.of_nat 4))%Z in
       let vx := d * sin (IZR a / 180 * PI) + 2 in
       let vy := d * cos (IZR a / 180 * PI) + 10 in
       nth_error x i = Some (Rmin (Rmax vx 0) (IZR 14 - 1)) /\
       nth_error y i = Some (Rmin (Rmax vy 0) (IZR 12 - 1)) /\
       (0 <= vx <= IZR 14 - 1 -> nth_error x i = Some vx) /\
       (0 <= vy <= IZR 12 - 1 -> nth_error y i = Some vy) /\
       ((1 <= 14)%Z ->
        exists cx, nth_error x i = Some cx /\ 0 <= cx <= IZR 14 - 1) /\
       ((1 <= 12)%Z ->
        exists cy, nth_error y i = Some cy /\ 0 <= cy <= IZR 12 - 1)) /\
  (forall signal,
     decoded_distances MoreSamples.square_head (Flat signal) false = Some signal) /\
  (forall d,
     distance2mask MoreSamples.square_head (10, 10) (Flat [d; d; d; d]) None
       false None
     = Some ([10; 10 + d; 10; 10 - d], [10 + d; 10; 10 - d; 10], [d; d; d; d])).
Proof.
  destruct (@distance2mask_vertices MoreSamples.square_head (2, 10)
              (Flat [5; 5; 5; 5]) [5; 5; 5; 5] (Some (12, 14)%Z) false)
    as [Hv Hflat].
  - reflexivity.
  - cbn. lia.
  - reflexivity.
  - reflexivity.
  - destruct (Hflat eq_refl) as [Hsig Hsq].
    split; [exact Hv |]. split; [exact Hsig | exact (Hsq eq_refl)].
Defined.

(** The vertices of that square around [(2, 10)] in an image of height
    12 and width 14: the vertex left of the image is moved to [x = 0],
    the one below it to [y = 11]. *)
Example distance2mask_square_clamped :
  distance2mask MoreSamples.square_head (2, 10) (Flat [5; 5; 5; 5])
    (Some (12, 14)%Z) false None
  = Some ([2; 7; 2; 0], [11; 10; 5; 10], [5; 5; 5; 5]).
Proof.
  unfold distance2mask, decoded_distances, angles, interval.
  cbn [use_fourier contour_points MoreSamples.square_head Nat.eqb].
  change (360 / Z.of_nat 4)%Z with 90%Z.
  change (torch_range 0 359 90) with (Some [0; 90; 180; 270]%Z).
  cbn [option_map map]. unfold broadcast2.
  cbn [length Nat.eqb combine map fst snd].
  destruct quarter_turns as (-> & -> & -> & -> & -> & -> & -> & ->).
  unfold clamp. cbn [fst snd].
  assert (E : forall a b c e a' b' c' e' : R,
             a = a' -> b = b' -> c = c' -> e = e' ->
             [a; b; c; e] = [a'; b'; c'; e']) by (intros; subst; reflexivity).
  f_equal. f_equal. f_equal; apply E; unfold Rmin, Rmax;
    repeat match goal with
           | |- context [Rle_dec ?a 0] => destruct (Rle_dec a 0)
           end;
    repeat match goal with
           | |- context [Rle_dec ?a ?b] => destruct (Rle_dec a b)
           end; lra.
Qed.

(** With Fourier coefficients (training): the vertices of the decoded
    signal, which for the coefficients of a signal [x] is [exp x]. *)
Lemma decoded_distances_coe_targets (self : FourierNetHead) (x : list R) :
  use_fourier self = true ->
  length x = contour_points self ->
  num_coe self = (contour_points self / 2 + 1)%nat ->
  (0 < contour_points self)%nat ->
  decoded_distances self (Pairs (FourierCodec.coe_targets (num_coe self) x)) true
  = Some (map exp x).
Proof.
  intros Hf Hlen HK HN. unfold decoded_distances. rewrite Hf, HK, <- Hlen.
  apply decode_coe_coe_targets. lia.
Qed.

(** A contour size that does not divide 360: with 7 contour points
    the table has the 8 angles 0, 51, ..., 357 and the product with a
    signal of 7 distances raises. *)
Example distance2mask_7_points (self : FourierNetHead) (point : R * R)
    (distances : list R) (max_shape : option (Z * Z)) (train : bool) :
  use_fourier self = false ->
  contour_points self = 7%nat ->
  length distances = 7%nat ->
  distance2mask self point (Flat distances) max_shape train None = None.
Proof.
  intros Hf HN Hlen.
  destruct distances as [| d1 [| d2 [| d3 [| d4 [| d5 [| d6 [| d7 [| d8 l]]]]]]]];
    try discriminate Hlen.
  unfold distance2mask, decoded_distances, angles, interval. rewrite Hf, HN.
  cbn [Nat.eqb]. change (360 / Z.of_nat 7)%Z with 51%Z.
  change (torch_range 0 359 51)
    with (Some [0; 51; 102; 153; 204; 255; 306; 357]%Z).
  reflexivity.
Qed.

(** The same on given values: seven distances around [(10, 10)] in an
    image of 480 by 640. *)
Lemma distance2mask_heptagon_raises :
  distance2mask MoreSamples.heptagon_head (10, 10) (Flat [5; 6; 7; 8; 7; 6; 5])
    (Some (480, 640)%Z) false None
  = None.
Proof. apply distance2mask_7_points; reflexivity. Qed.

End DecoderProps.

(** ** Inference: [get_bboxes_single] *)

Section InferenceProps.
Import Inference.

Variables Tensor Scale Shape Cfg Dets : Type.
Variable decode_level :
  Tensor * Tensor * Tensor * Tensor * Tensor -> Shape -> Cfg ->
  result (Tensor * Tensor * Tensor * Tensor).
Variable cat : list Tensor -> result Tensor.
Variable div_new_tensor : Tensor -> Scale -> result Tensor.
Variable cuda_scale : Scale -> nat -> result Scale.
Variable div_scale : Tensor -> Scale -> result Tensor.
Variable pad_scores : Tensor -> result Tensor.
Variable mask_envelope : Tensor -> result Tensor.
Variable score_factors : Tensor -> result Tensor.
Variable multiclass_nms_with_mask :
  Tensor -> Tensor -> Tensor -> Cfg -> Tensor -> result Dets.
Variable self_mask_nms : bool.
Variable self_contour_points : nat.

Local Abbreviation run :=
  (get_bboxes_single decode_level cat div_new_tensor cuda_scale div_scale
     pad_scores mask_envelope score_factors multiclass_nms_with_mask
     self_mask_nms self_contour_points).

Local Abbreviation branch :=
  (rescale_branch div_new_tensor cuda_scale div_scale self_contour_points).

(** Without [rescale] the branch binds neither local. *)
Lemma rescale_branch_falsy (rescale : option bool) (mlvl_bboxes mlvl_masks : Tensor)
    (scale_factor : Scale) :
  truthy rescale = false ->
  branch rescale mlvl_bboxes mlvl_masks scale_factor = Ok (scale_factor, None, None).
Proof. intros H. unfold rescale_branch. now rewrite H. Qed.

(** With [rescale] the branch binds both locals, or raises. *)
Lemma rescale_branch_truthy (rescale : option bool) (mlvl_bboxes mlvl_masks : Tensor)
    (scale_factor : Scale) (s : Scale) (b m : option Tensor) :
  truthy rescale = true ->
  branch rescale mlvl_bboxes mlvl_masks scale_factor = Ok (s, b, m) ->
  b <> None /\ m <> None.
Proof.
  intros H. unfold rescale_branch. rewrite H. unfold bind.
  destruct (div_new_tensor mlvl_bboxes scale_factor); [| discriminate].
  destruct (cuda_scale scale_factor self_contour_points) as [s' | e].
  - destruct (div_scale mlvl_masks s') as [x | e].
    + intros E. inversion E. split; discriminate.
    + destruct (caught e); [| discriminate].
      destruct (div_new_tensor mlvl_masks s'); [| discriminate].
      intros E. inversion E. split; discriminate.
  - destruct (caught e); [| discriminate].
    destruct (div_new_tensor mlvl_masks scale_factor); [| discriminate].
    intros E. inversion E. split; discriminate.
Qed.

(** The trace of the function when [rescale] is falsy: whatever was
    computed before, the arguments of the NMS call cannot be read. *)
Lemma get_bboxes_single_falsy (cls_scores bbox_preds mask_preds centernesses
    mlvl_points : list Tensor) (img_shape : Shape) (scale_factor : Scale)
    (cfg : Cfg) (rescale : option bool) :
  truthy rescale = false ->
  (exists e, run cls_scores bbox_preds mask_preds centernesses mlvl_points
               img_shape scale_factor cfg rescale = Raise e) /\
  (forall levels bboxes masks scores padded centerness,
     (length cls_scores =? length bbox_preds)%nat
     && (length bbox_preds =? length mlvl_points)%nat = true ->
     collect (fun l => decode_level l img_shape cfg)
       (combine (combine (combine (combine cls_scores bbox_preds) mask_preds)
                         centernesses) mlvl_points) = Ok levels ->
     cat (map (fun l => fst (fst (fst l))) levels) = Ok bboxes ->
     cat (map (fun l => snd l) levels) = Ok masks ->
     cat (map (fun l => snd (fst (fst l))) levels) = Ok scores ->
     pad_scores scores = Ok padded ->
     cat (map (fun l => snd (fst l)) levels) = Ok centerness ->
     run cls_scores bbox_preds mask_preds centernesses mlvl_points
       img_shape scale_factor cfg rescale = Raise UnboundLocalError).
Proof.
  intros Hres. unfold get_bboxes_single. split.
  - destruct (negb _); [eauto |]. unfold bind.
    destruct (collect _ _) as [levels | e]; [| eauto].
    destruct (cat (map _ levels)) as [bboxes | e]; [| eauto].
    destruct (cat (map _ levels)) as [masks | e]; [| eauto].
    rewrite rescale_branch_falsy by exact Hres.
    destruct (cat (map _ levels)) as [scores | e]; [| eauto].
    destruct (pad_scores scores) as [padded | e]; [| eauto].
    destruct (cat (map _ levels)) as [centerness | e]; [| eauto].
    destruct self_mask_nms; simpl; eauto.
  - intros levels bboxes masks scores padded centerness Hlen Hlv Hb Hm Hs Hp Hc.
    rewrite Hlen. cbn [negb]. unfold bind. rewrite Hlv, Hb, Hm.
    rewrite rescale_branch_falsy by exact Hres. rewrite Hs, Hp, Hc.
    now destruct self_mask_nms.
Qed.

(** C8. [get_bboxes_single] returns a result only when [rescale] is
    truthy. When [rescale] is [False] or [None] it raises for every
    input; and when everything before the NMS call succeeds, what it
    raises is the [UnboundLocalError] of reading [_mlvl_bboxes] (or
    [_mlvl_masks], under [mask_nms]), which only the [rescale] branch
    binds. *)
Theorem get_bboxes_single_needs_rescale (cls_scores bbox_preds mask_preds
    centernesses mlvl_points : list Tensor) (img_shape : Shape)
    (scale_factor : Scale) (cfg : Cfg) (rescale : option bool) :
  (forall dets,
     run cls_scores bbox_preds mask_preds centernesses mlvl_points
       img_shape scale_factor cfg rescale = Ok dets -> truthy rescale = true) /\
  (truthy rescale = false ->
   (exists e, run cls_scores bbox_preds mask_preds centernesses mlvl_points
                img_shape scale_factor cfg rescale = Raise e) /\
   (forall levels bboxes masks scores padded centerness,
      (length cls_scores =? length bbox_preds)%nat
      && (length bbox_preds =? length mlvl_points)%nat = true ->
      collect (fun l => decode_level l img_shape cfg)
        (combine (combine (combine (combine cls_scores bbox_preds) mask_preds)
                          centernesses) mlvl_points) = Ok levels ->
      cat (map (fun l => fst (fst (fst l))) levels) = Ok bboxes ->
      cat (map (fun l => snd l) levels) = Ok masks ->
      cat (map (fun l => snd (fst (fst l))) levels) = Ok scores ->
      pad_scores scores = Ok padded ->
      cat (map (fun l => snd (fst l)) levels) = Ok centerness ->
      run cls_scores bbox_preds mask_preds centernesses mlvl_points
        img_shape scale_factor cfg rescale = Raise UnboundLocalError)).
Proof.
  split.
  - intros dets Hok. destruct (truthy rescale) eqn:E; [reflexivity |].
    destruct (get_bboxes_single_falsy cls_scores bbox_preds mask_preds centernesses
                mlvl_points img_shape scale_factor cfg rescale E) as [(e & He) _].
    rewrite He in Hok. discriminate.
  - apply get_bboxes_single_falsy.
Qed.

End InferenceProps.

(** The function on a trivial tensor library in which nothing raises:
    with [rescale] it returns, without it the NMS arguments are unbound. *)
Example get_bboxes_single_unit :
  let run := Inference.get_bboxes_single
               (fun _ (_ : unit) (_ : unit) => Inference.Ok (tt, tt, tt, tt))
               (fun _ => Inference.Ok tt) (fun _ (_ : unit) => Inference.Ok tt)
               (fun s _ => Inference.Ok s) (fun _ _ => Inference.Ok tt)
               (fun t => Inference.Ok t) (fun t => Inference.Ok t)
               (fun t => Inference.Ok t)
               (fun _ _ _ _ _ => Inference.Ok tt) false 360 in
  run [tt] [tt] [tt] [tt] [tt] tt tt tt (Some true) = Inference.Ok tt /\
  run [tt] [tt] [tt] [tt] [tt] tt tt tt (Some false)
  = Inference.Raise Inference.UnboundLocalError /\
  run [tt] [tt] [tt] [tt] [tt] tt tt tt None
  = Inference.Raise Inference.UnboundLocalError.
Proof. repeat split. Qed.

(** ** PolarSampler: domain, order independence, constant signals *)

Section PolarSamplerMore.
Import Prelude PolarSampler CenternessScorer.
Local Open Scope Z_scope.

Lemma get_polar_coordinates_length (c_x c_y : R) (ct : list (R * R)) (n : Z)
    (distances : list R) (new_coordinate : dict) :
  get_polar_coordinates c_x c_y ct n = Some (distances, new_coordinate) ->
  length distances = Z.to_nat n.
Proof.
  intros H.
  destruct (@get_polar_coordinates_some c_x c_y ct n _ H) as [Hn Hd].
  destruct (@get_polar_coordinates_bins c_x c_y ct n 0%nat Hn Hd)
    as (d & nc' & E & L & _); [lia |].
  rewrite H in E. inversion E; subst. exact L.
Qed.

(** X1. [get_polar_coordinates] returns a result exactly for the bin
    counts that are positive divisors of 360, and the signal it returns
    then has [n] entries; for every other [n] it raises. *)
Theorem get_polar_coordinates_defined_iff (c_x c_y : R) (ct : list (R * R))
    (n : Z) :
  (exists distances new_coordinate,
     get_polar_coordinates c_x c_y ct n = Some (distances, new_coordinate) /\
     length distances = Z.to_nat n)
  <-> 0 < n /\ 360 mod n = 0.
Proof.
  split.
  - intros (distances & nc & H & _).
    exact (@get_polar_coordinates_some c_x c_y ct n _ H).
  - intros [Hn Hd].
    destruct (@get_polar_coordinates_bins c_x c_y ct n 0%nat Hn Hd)
      as (d & nc & E & L & _); [lia |].
    exists d, nc. split; assumption.
Qed.

(** *** The result depends on the set of contour points only *)

Lemma tensor_max_none (l : list R) : tensor_max l = None -> l = [].
Proof.
  destruct l as [| a t]; [reflexivity |]. simpl.
  destruct (tensor_max t); discriminate.
Qed.

Lemma find_ext_all {A : Type} (f g : A -> bool) (l : list A) :
  (forall a, f a = g a) -> find f l = find g l.
Proof.
  intros H. induction l as [| a t IH]; [reflexivity |].
  simpl. rewrite H, IH. reflexivity.
Qed.

Lemma has_angle_ext (c_x c_y : R) (ct ct' : list (R * R)) (a : Z) :
  (forall p, In p ct <-> In p ct') ->
  has_angle c_x c_y ct a = has_angle c_x c_y ct' a.
Proof.
  intros H. apply Bool.eq_iff_eq_true. rewrite !has_angle_iff.
  split; intros (p & Hp & Ha); exists p; split; try assumption; now apply H.
Qed.

Lemma is_max_dist_ext (c_x c_y : R) (ct ct' : list (R * R)) (a : Z) (d : R) :
  (forall p, In p ct <-> In p ct') ->
  is_max_dist c_x c_y ct a d -> is_max_dist c_x c_y ct' a d.
Proof.
  intros H [(p & Hp & Ha & Hd) Hmax]. split.
  - exists p. repeat split; try assumption. now apply H.
  - intros q Hq. apply Hmax. now apply H.
Qed.

Lemma tensor_max_rows_sub (c_x c_y : R) (ct ct' : list (R * R)) (a : Z) (m : R) :
  (forall p, In p ct <-> In p ct') ->
  tensor_max (mask_select (map fst (rows c_x c_y ct))
                          (map snd (rows c_x c_y ct)) a) = Some m ->
  tensor_max (mask_select (map fst (rows c_x c_y ct'))
                          (map snd (rows c_x c_y ct')) a) = Some m.
Proof.
  intros H E. apply tensor_max_eq. apply is_max_mask_select.
  apply (@is_max_dist_ext c_x c_y ct ct' a m H).
  apply is_max_mask_select. now apply tensor_max_some.
Qed.

Lemma stored_rows_ext (c_x c_y : R) (ct ct' : list (R * R)) (i : Z) :
  (forall p, In p ct <-> In p ct') ->
  stored (map fst (rows c_x c_y ct)) (map snd (rows c_x c_y ct)) i
  = stored (map fst (rows c_x c_y ct')) (map snd (rows c_x c_y ct')) i.
Proof.
  intros H. unfold stored. rewrite !nearest_angle_rows.
  rewrite (@find_ext_all Z (has_angle c_x c_y ct) (has_angle c_x c_y ct'))
    by (intros a; now apply has_angle_ext).
  destruct (find _ _) as [a |]; [| reflexivity].
  destruct (tensor_max (mask_select (map fst (rows c_x c_y ct)) _ a)) as [m |] eqn:E.
  - symmetry. now apply (@tensor_max_rows_sub c_x c_y ct ct' a m).
  - destruct (tensor_max (mask_select (map fst (rows c_x c_y ct')) _ a))
      as [m' |] eqn:E'; [| reflexivity].
    apply (@tensor_max_rows_sub c_x c_y ct' ct a m') in E'.
    + congruence.
    + intros p. symmetry. apply H.
Qed.

Lemma sample_bins_ext (s s' : list (Z * R)) (n : Z) :
  (forall i, stored (map fst s) (map snd s) i = stored (map fst s') (map snd s') i) ->
  sample_bins (map fst s) (map snd s) n = sample_bins (map fst s') (map snd s') n.
Proof.
  intros H.
  assert (Hloop : forall bins nc,
             for_each (fill_coordinate (map fst s) (map snd s)) nc bins
             = for_each (fill_coordinate (map fst s') (map snd s')) nc bins).
  { induction bins as [| b bins IH]; intros nc; [reflexivity |].
    cbn [for_each]. rewrite !fill_coordinate_stored, H. apply IH. }
  unfold sample_bins. destruct (n =? 0); [reflexivity |].
  destruct (arange 0 360 (360 / n)) as [bins |]; [| reflexivity].
  now rewrite Hloop.
Qed.

(** X2. The order of the contour points and their repetition do not
    matter: two contours with the same set of points give the same
    signal and the same dictionary. *)
Theorem get_polar_coordinates_order_free (c_x c_y : R) (ct ct' : list (R * R))
    (n : Z) :
  (forall p, In p ct <-> In p ct') ->
  get_polar_coordinates c_x c_y ct n = get_polar_coordinates c_x c_y ct' n.
Proof.
  intros H.
  apply (@sample_bins_ext (rows c_x c_y ct) (rows c_x c_y ct') n).
  intros i. now apply stored_rows_ext.
Qed.

Lemma get_polar_coordinates_order_free_witness :
  get_polar_coordinates 10 10 [(10, 10 + 5); (10 + 3, 10)]%R 72
  = get_polar_coordinates 10 10 [(10 + 3, 10); (10, 10 + 5); (10 + 3, 10)]%R 72.
Proof.
  apply (@get_polar_coordinates_order_free 10 10
           [(10, 10 + 5); (10 + 3, 10)]%R
           [(10 + 3, 10); (10, 10 + 5); (10 + 3, 10)]%R 72).
  intros p. simpl. tauto.
Defined.

(** *** Constant signals *)

Lemma repeat_nth_error_eq {A : Type} (l : list A) (r : A) :
  (forall k, (k < length l)%nat -> nth_error l k = Some r) ->
  l = repeat r (length l).
Proof.
  induction l as [| a t IH]; intros H; [reflexivity |].
  simpl. f_equal.
  - specialize (H 0%nat). simpl in H. assert (Some a = Some r) by (apply H; lia).
    congruence.
  - apply IH. intros k Hk. apply (H (S k)). simpl. lia.
Qed.

Lemma get_polar_coordinates_constant (c_x c_y : R) (ct : list (R * R)) (n : Z)
    (r : R) :
  0 < n -> 360 mod n = 0 ->
  (forall k, (k < Z.to_nat n)%nat ->
     match find (has_angle c_x c_y ct) (priority (Z.of_nat k * (360 / n))) with
     | Some a => forall d, is_max_dist c_x c_y ct a d -> d = r
     | None => epsilon = r
     end) ->
  exists nc,
    get_polar_coordinates c_x c_y ct n = Some (repeat r (Z.to_nat n), nc).
Proof.
  intros Hn Hd Hall.
  destruct (@get_polar_coordinates_bins c_x c_y ct n 0%nat Hn Hd)
    as (ds & nc & E & L & _); [lia |].
  exists nc. rewrite E. rewrite <- L. do 2 f_equal.
  apply repeat_nth_error_eq. intros k Hk. rewrite L in Hk.
  destruct (@get_polar_coordinates_bins c_x c_y ct n k Hn Hd Hk)
    as (ds' & nc' & E' & _ & _ & Hk').
  rewrite E in E'. inversion E'; subst ds' nc'. clear E'.
  specialize (Hall k Hk).
  destruct (find _ _) as [a |].
  - destruct Hk' as (d & Hnth & Hmax). rewrite Hnth. f_equal. now apply Hall.
  - rewrite Hk'. now f_equal.
Qed.

Lemma point_dist_right (c_x c_y r : R) :
  (0 < r)%R -> point_dist c_x c_y ((c_x + r)%R, c_y) = r.
Proof.
  intros Hr. unfold point_dist. cbn [fst snd].
  replace ((c_x + r - c_x) ^ 2 + (c_y - c_y) ^ 2)%R with (r * r)%R by ring.
  apply sqrt_square. lra.
Qed.

(** A contour point straight "below" the centre: angle 180. *)
Lemma point_angle_below (c_x c_y r : R) :
  (0 < r)%R -> point_angle c_x c_y (c_x, (c_y - r)%R) = 180.
Proof.
  intros Hr. unfold point_angle. cbn [fst snd].
  replace (c_x - c_x)%R with 0%R by ring.
  replace (c_y - r - c_y)%R with (- r)%R by ring.
  unfold atan2.
  destruct (Rlt_dec 0 (- r)) as [H | _]; [lra |].
  destruct (Rlt_dec (- r) 0) as [_ | H]; [| exfalso; apply H; lra].
  destruct (Rle_dec 0 0) as [_ | H]; [| exfalso; apply H; lra].
  replace (0 / - r)%R with 0%R by (field; lra). rewrite atan_0.
  replace ((0 + PI) * 180 / PI)%R with 180%R by (field; apply PI_neq0).
  destruct (Rlt_dec 180 0) as [H | _]; [lra |].
  unfold to_int. destruct (Rle_dec 0 180) as [_ | H]; [| exfalso; apply H; lra].
  apply (ZfloorZ 180).
Qed.

Lemma point_dist_below (c_x c_y r : R) :
  (0 < r)%R -> point_dist c_x c_y (c_x, (c_y - r)%R) = r.
Proof.
  intros Hr. unfold point_dist. cbn [fst snd].
  replace ((c_x - c_x) ^ 2 + (c_y - r - c_y) ^ 2)%R with (r * r)%R by ring.
  apply sqrt_square. lra.
Qed.

(** A contour point straight to the "left" of the centre: angle 270. *)
Lemma point_angle_left (c_x c_y r : R) :
  (0 < r)%R -> point_angle c_x c_y ((c_x - r)%R, c_y) = 270.
Proof.
  intros Hr. unfold point_angle. cbn [fst snd].
  replace (c_x - r - c_x)%R with (- r)%R by ring.
  replace (c_y - c_y)%R with 0%R by ring.
  unfold atan2.
  destruct (Rlt_dec 0 0) as [H | _]; [lra |].
  destruct (Rlt_dec 0 (- r)) as [H | _]; [lra |].
  destruct (Rlt_dec (- r) 0) as [_ | H]; [| exfalso; apply H; lra].
  replace (- PI / 2 * 180 / PI)%R with (- 90)%R by (field; apply PI_neq0).
  destruct (Rlt_dec (- 90) 0) as [_ | H]; [| exfalso; apply H; lra].
  replace (- 90 + 360)%R with 270%R by ring.
  unfold to_int. destruct (Rle_dec 0 270) as [_ | H]; [| exfalso; apply H; lra].
  apply (ZfloorZ 270).
Qed.

Lemma point_dist_left (c_x c_y r : R) :
  (0 < r)%R -> point_dist c_x c_y ((c_x - r)%R, c_y) = r.
Proof.
  intros Hr. unfold point_dist. cbn [fst snd].
  replace ((c_x - r - c_x) ^ 2 + (c_y - c_y) ^ 2)%R with (r * r)%R by ring.
  apply sqrt_square. lra.
Qed.

(** X3. A contour on a circle: when every contour point lies at the
    distance [r] from the centre and every bin finds a contour point at
    one of the angles of its priority list, every entry of the signal
    is [r]. *)
Theorem get_polar_coordinates_circle (c_x c_y : R) (ct : list (R * R)) (n : Z)
    (r : R) :
  0 < n -> 360 mod n = 0 ->
  (forall p, In p ct -> point_dist c_x c_y p = r) ->
  (forall k, (k < Z.to_nat n)%nat ->
     exists a, In a (priority (Z.of_nat k * (360 / n))) /\
               has_angle c_x c_y ct a = true) ->
  exists new_coordinate,
    get_polar_coordinates c_x c_y ct n
    = Some (repeat r (Z.to_nat n), new_coordinate).
Proof.
  intros Hn Hd Hdist Hcover.
  apply get_polar_coordinates_constant; try assumption.
  intros k Hk. destruct (find _ _) as [a |] eqn:F.
  - intros d [(p & Hp & _ & Hpd) _]. rewrite <- Hpd. now apply Hdist.
  - exfalso. destruct (Hcover k Hk) as (a & Ha & Hhas).
    pose proof (find_none _ _ F a Ha) as Hnone. cbv beta in Hnone. congruence.
Qed.

Lemma get_polar_coordinates_circle_witness :
  exists new_coordinate,
    get_polar_coordinates 10 10
      [(10, 10 + 5); (10 + 5, 10); (10, 10 - 5); (10 - 5, 10)]%R 4
    = Some (repeat 5%R (Z.to_nat 4), new_coordinate).
Proof.
  assert (H5 : (0 < 5)%R) by lra.
  apply (@get_polar_coordinates_circle 10 10
           [(10, 10 + 5); (10 + 5, 10); (10, 10 - 5); (10 - 5, 10)]%R 4 5%R).
  - lia.
  - reflexivity.
  - intros p [<- | [<- | [<- | [<- | []]]]].
    + now apply point_dist_above.
    + now apply point_dist_right.
    + now apply point_dist_below.
    + now apply point_dist_left.
  - intros k Hk.
    assert (Hcases : k = 0%nat \/ k = 1%nat \/ k = 2%nat \/ k = 3%nat)
      by (change (Z.to_nat 4) with 4%nat in Hk; lia).
    destruct Hcases as [-> | [-> | [-> | ->]]].
    + exists 0. split; [left; reflexivity |]. apply has_angle_iff.
      exists (10, 10 + 5)%R. split; [simpl; tauto | now apply point_angle_above].
    + exists 90. split; [left; reflexivity |]. apply has_angle_iff.
      exists (10 + 5, 10)%R. split; [simpl; tauto | now apply point_angle_right].
    + exists 180. split; [left; reflexivity |]. apply has_angle_iff.
      exists (10, 10 - 5)%R. split; [simpl; tauto | now apply point_angle_below].
    + exists 270. split; [left; reflexivity |]. apply has_angle_iff.
      exists (10 - 5, 10)%R. split; [simpl; tauto | now apply point_angle_left].
Defined.

(** X4. An empty contour: every bin is unmatched, the signal is the
    epsilon [1e-6] everywhere, and the centerness target computed from
    it is 1, the largest possible. *)
Theorem get_polar_coordinates_empty_contour (c_x c_y : R) (n : Z) :
  0 < n -> 360 mod n = 0 ->
  exists new_coordinate,
    get_polar_coordinates c_x c_y [] n
    = Some (repeat epsilon (Z.to_nat n), new_coordinate) /\
    polar_centerness_target (repeat epsilon (Z.to_nat n)) None = Some 1%R.
Proof.
  intros Hn Hd.
  destruct (@get_polar_coordinates_constant c_x c_y [] n epsilon Hn Hd)
    as (nc & E).
  { intros k _. reflexivity. }
  exists nc. split; [exact E |].
  assert (Hin : In epsilon (repeat epsilon (Z.to_nat n))).
  { destruct (Z.to_nat n) eqn:En; [lia | left; reflexivity]. }
  assert (Hall : forall x, In x (repeat epsilon (Z.to_nat n)) -> x = epsilon)
    by (intros x; apply repeat_spec).
  rewrite (@polar_centerness_target_value _ epsilon epsilon None).
  - pose proof epsilon_pos.
    replace (epsilon / epsilon)%R with 1%R by (field; lra).
    rewrite sqrt_1. f_equal. apply Rmin_left. lra.
  - split; [exact Hin |]. intros x Hx. rewrite (Hall x Hx). lra.
  - split; [exact Hin |]. intros x Hx. rewrite (Hall x Hx). lra.
Qed.

Lemma get_polar_coordinates_empty_contour_witness :
  exists new_coordinate,
    get_polar_coordinates 10 10 [] 72
    = Some (repeat epsilon (Z.to_nat 72), new_coordinate) /\
    polar_centerness_target (repeat epsilon (Z.to_nat 72)) None = Some 1%R.
Proof.
  apply (@get_polar_coordinates_empty_contour 10 10 72); [lia | reflexivity].
Defined.

(** X5. The signal is relative to the centre: moving the centre and
    every contour point by the same vector changes nothing. *)
Theorem get_polar_coordinates_translation (c_x c_y dx dy : R)
    (ct : list (R * R)) (n : Z) :
  get_polar_coordinates (c_x + dx) (c_y + dy)
    (map (fun p => (fst p + dx, snd p + dy)%R) ct) n
  = get_polar_coordinates c_x c_y ct n.
Proof.
  unfold get_polar_coordinates. cbv zeta. rewrite map_map.
  rewrite (map_ext
             (fun p : R * R =>
                (point_angle (c_x + dx) (c_y + dy) (fst p + dx, snd p + dy)%R,
                 point_dist (c_x + dx) (c_y + dy) (fst p + dx, snd p + dy)%R))
             (fun p => (point_angle c_x c_y p, point_dist c_x c_y p)));
    [reflexivity |].
  intros [x y]. unfold point_angle, point_dist. cbn [fst snd].
  replace (x + dx - (c_x + dx))%R with (x - c_x)%R by ring.
  replace (y + dy - (c_y + dy))%R with (y - c_y)%R by ring.
  reflexivity.
Qed.

End PolarSamplerMore.

(** ** CenternessScorer: range and scale invariance *)

Section CenternessMore.
Import Prelude CenternessScorer.
Local Open Scope R_scope.

(** X6. For a nonempty signal of positive distances and a normalizer
    that is absent or not negative, [polar_centerness_target] returns a
    value in [(0, 1]]. *)
Theorem polar_centerness_target_range (signal : list R)
    (max_centerness : option R) :
  signal <> [] ->
  Forall (fun d => 0 < d) signal ->
  match max_centerness with Some m => 0 <= m | None => True end ->
  exists c,
    polar_centerness_target signal max_centerness = Some c /\ 0 < c <= 1.
Proof.
  intros Hne Hpos Hm.
  destruct (tensor_min_is_min Hne) as (mn & _ & Hmin).
  destruct (tensor_max_is_max Hne) as (mx & _ & Hmax).
  rewrite (@polar_centerness_target_value signal mn mx max_centerness Hmin Hmax).
  rewrite Forall_forall in Hpos.
  assert (Hmn : 0 < mn) by (apply Hpos, Hmin).
  assert (Hmx : 0 < mx) by (apply Hpos, Hmax).
  assert (Hs : 0 < sqrt (mn / mx)).
  { apply sqrt_lt_R0. now apply Rdiv_lt_0_compat. }
  eexists. split; [reflexivity |]. split; [| apply Rmin_r].
  apply Rmin_pos; [| lra].
  destruct max_centerness as [m |]; [| exact Hs].
  destruct (Req_dec_T m 0) as [| Hm0]; [exact Hs |].
  apply Rdiv_lt_0_compat; [exact Hs | lra].
Qed.

Lemma polar_centerness_target_range_witness :
  exists c, polar_centerness_target [2; 1; 4] (Some 2) = Some c /\ 0 < c <= 1.
Proof.
  apply (@polar_centerness_target_range [2; 1; 4] (Some 2)).
  - discriminate.
  - repeat constructor; lra.
  - lra.
Defined.

Lemma Rmin_scale (k a b : R) : 0 <= k -> Rmin (k * a) (k * b) = k * Rmin a b.
Proof.
  intros Hk. unfold Rmin.
  destruct (Rle_dec (k * a) (k * b)), (Rle_dec a b); try reflexivity; nra.
Qed.

Lemma Rmax_scale (k a b : R) : 0 <= k -> Rmax (k * a) (k * b) = k * Rmax a b.
Proof.
  intros Hk. unfold Rmax.
  destruct (Rle_dec (k * a) (k * b)), (Rle_dec a b); try reflexivity; nra.
Qed.

Lemma tensor_min_scale (k : R) (l : list R) :
  0 <= k -> tensor_min (map (Rmult k) l) = option_map (Rmult k) (tensor_min l).
Proof.
  intros Hk. induction l as [| a t IH]; [reflexivity |].
  cbn [map tensor_min]. rewrite IH.
  destruct (tensor_min t); cbn [option_map]; [| reflexivity].
  now rewrite Rmin_scale.
Qed.

Lemma tensor_max_scale (k : R) (l : list R) :
  0 <= k -> tensor_max (map (Rmult k) l) = option_map (Rmult k) (tensor_max l).
Proof.
  intros Hk. induction l as [| a t IH]; [reflexivity |].
  cbn [map tensor_max]. rewrite IH.
  destruct (tensor_max t); cbn [option_map]; [| reflexivity].
  now rewrite Rmax_scale.
Qed.

(** X7. The centerness target does not depend on the scale of the
    signal: multiplying every distance by the same positive factor
    leaves it unchanged. *)
Theorem polar_centerness_target_scale (k : R) (signal : list R)
    (max_centerness : option R) :
  0 < k ->
  polar_centerness_target (map (Rmult k) signal) max_centerness
  = polar_centerness_target signal max_centerness.
Proof.
  intros Hk. unfold polar_centerness_target.
  rewrite tensor_min_scale, tensor_max_scale by lra.
  destruct (tensor_min signal) as [mn |]; [| reflexivity].
  destruct (tensor_max signal) as [mx |]; [| reflexivity].
  cbn [option_map].
  replace (k * mn / (k * mx)) with (mn / mx); [reflexivity |].
  unfold Rdiv. rewrite Rinv_mult.
  replace (k * mn * (/ k * / mx)) with (k * / k * (mn * / mx)) by ring.
  rewrite Rinv_r by lra. ring.
Qed.

Lemma polar_centerness_target_scale_witness :
  polar_centerness_target (map (Rmult 3) [2; 1; 4]) None
  = polar_centerness_target [2; 1; 4] None.
Proof.
  apply (@polar_centerness_target_scale 3 [2; 1; 4] None). lra.
Defined.

End CenternessMore.

(** ** The points of all levels: [get_points] *)

Section LevelsMore.
Import Prelude PointGrid Inference Batch.
Local Open Scope Z_scope.

Lemma collect_length {A B : Type} (body : A -> result B) (l : list A) (bs : list B) :
  collect body l = Ok bs -> length bs = length l.
Proof.
  revert bs. induction l as [| a t IH]; intros bs; cbn [collect].
  - intros E. inversion E. reflexivity.
  - unfold bind. destruct (body a) as [b | e]; [| discriminate].
    destruct (collect body t) as [bs' | e]; [| discriminate].
    intros E. inversion E. simpl. f_equal. now apply IH.
Qed.

Lemma collect_nth {A B : Type} (body : A -> result B) (l : list A) (bs : list B)
    (i : nat) (a : A) :
  collect body l = Ok bs -> nth_error l i = Some a ->
  exists b, body a = Ok b /\ nth_error bs i = Some b.
Proof.
  revert bs i. induction l as [| x t IH]; intros bs i; cbn [collect].
  - intros _ H. destruct i; discriminate.
  - unfold bind. destruct (body x) as [b | e] eqn:Eb; [| discriminate].
    destruct (collect body t) as [bs' | e]; [| discriminate].
    intros E Hi. inversion E; subst bs. destruct i as [| i].
    + inversion Hi; subst. exists b. split; [exact Eb | reflexivity].
    + simpl in Hi. simpl. now apply IH.
Qed.

Lemma collect_total {A B : Type} (body : A -> result B) (l : list A) :
  (forall a, In a l -> exists b, body a = Ok b) ->
  exists bs, collect body l = Ok bs.
Proof.
  induction l as [| x t IH]; intros H; cbn [collect].
  - now exists [].
  - destruct (H x) as (b & Eb); [now left |].
    destruct IH as (bs & Ebs); [intros a Ha; apply H; now right |].
    exists (b :: bs). unfold bind. now rewrite Eb, Ebs.
Qed.

Lemma grid_In (h w : nat) (s : Z) (p : Z * Z) :
  In p (grid h w s) ->
  exists i j, (i < h)%nat /\ (j < w)%nat /\ p = grid_point s i j.
Proof.
  unfold grid. intros H. apply in_flat_map in H. destruct H as (i & Hi & H).
  apply in_map_iff in H. destruct H as (j & <- & Hj).
  apply in_seq in Hi. apply in_seq in Hj. exists i, j. repeat split; lia.
Qed.

(** X8. Every point [get_points_single] returns for a positive stride
    lies inside the image the feature map covers:
    [0 <= x < w * stride] and [0 <= y < h * stride]. *)
Theorem get_points_single_inside_image (h w : nat) (s : Z)
    (points : list (Z * Z)) :
  0 < s ->
  get_points_single (h, w) s = Some points ->
  Forall (fun p => 0 <= fst p < Z.of_nat w * s /\ 0 <= snd p < Z.of_nat h * s)
         points.
Proof.
  intros Hs Hrun. rewrite get_points_single_grid in Hrun by lia.
  inversion Hrun; subst points. apply Forall_forall. intros p Hp.
  apply grid_In in Hp. destruct Hp as (i & j & Hi & Hj & ->).
  unfold grid_point. cbn [fst snd].
  assert (H0 : 0 <= s / 2) by (apply Z.div_pos; lia).
  assert (H1 : s / 2 < s) by (apply Z.div_lt_upper_bound; lia).
  split; nia.
Qed.

Lemma get_points_single_inside_image_witness :
  Forall (fun p => 0 <= fst p < Z.of_nat 3 * 8 /\ 0 <= snd p < Z.of_nat 2 * 8)
         [(4, 4); (12, 4); (20, 4); (4, 12); (12, 12); (20, 12)].
Proof.
  apply (@get_points_single_inside_image 2 3 8
           [(4, 4); (12, 4); (20, 4); (4, 12); (12, 12); (20, 12)]);
    [lia | reflexivity].
Defined.

Lemma get_points_body (strides : list Z) (featmap_sizes : list (nat * nat))
    (i h w : nat) (points : list (Z * Z)) :
  nth_error featmap_sizes i = Some (h, w) ->
  (featmap_size <- index featmap_sizes i ;;
   stride <- index strides i ;;
   match get_points_single featmap_size stride with
   | Some points => Ok points
   | None => Raise RuntimeError
   end) = Ok points
  <-> exists s, nth_error strides i = Some s /\ s <> 0 /\ points = grid h w s.
Proof.
  intros Hsz. unfold index, bind. rewrite Hsz.
  destruct (nth_error strides i) as [s |].
  - destruct (Z.eq_dec s 0) as [-> | Hs].
    + rewrite get_points_single_zero_stride. split; [discriminate |].
      intros (s & E & Hs & _). inversion E. congruence.
    + rewrite get_points_single_grid by exact Hs. split.
      * intros E. inversion E. exists s. repeat split. exact Hs.
      * intros (s' & E & _ & ->). inversion E. reflexivity.
  - split; [discriminate |]. intros (s & E & _). discriminate.
Qed.

(** X9. When [get_points] returns, it returns one grid per feature
    map: level [i] is the row-major grid of [get_points_single] for the
    size [featmap_sizes[i]] and the stride [self.strides[i]], and the
    point counts [loss] stores in [num_points_per_level] are the
    products [h * w] of the sizes. *)
Theorem get_points_levels (strides : list Z) (featmap_sizes : list (nat * nat))
    (mlvl_points : list (list (Z * Z))) :
  get_points strides featmap_sizes = Ok mlvl_points ->
  length mlvl_points = length featmap_sizes /\
  (forall i h w, nth_error featmap_sizes i = Some (h, w) ->
     exists s, nth_error strides i = Some s /\ s <> 0 /\
               nth_error mlvl_points i = Some (grid h w s) /\
               get_points_single (h, w) s = Some (grid h w s)) /\
  num_points_per_level mlvl_points
  = map (fun hw => (fst hw * snd hw)%nat) featmap_sizes.
Proof.
  intros Hrun. unfold get_points in Hrun.
  assert (Hlen : length mlvl_points = length featmap_sizes).
  { rewrite (collect_length _ _ Hrun). apply length_seq. }
  assert (Hlv : forall i h w, nth_error featmap_sizes i = Some (h, w) ->
            exists s, nth_error strides i = Some s /\ s <> 0 /\
                      nth_error mlvl_points i = Some (grid h w s)).
  { intros i h w Hsz.
    assert (Hi : (i < length featmap_sizes)%nat)
      by (apply nth_error_Some; congruence).
    destruct (collect_nth _ _ i Hrun (a := i)) as (b & Hb & Hnth).
    { rewrite nth_error_seq.
      destruct (Nat.ltb_spec i (length featmap_sizes)); [reflexivity | lia]. }
    apply (get_points_body strides featmap_sizes i b Hsz) in Hb.
    destruct Hb as (s & Hs & Hs0 & ->). exists s. repeat split; assumption. }
  split; [exact Hlen |]. split.
  - intros i h w Hsz. destruct (Hlv i h w Hsz) as (s & Hs & Hs0 & Hnth).
    exists s. repeat split; try assumption. now apply get_points_single_grid.
  - unfold num_points_per_level. apply nth_error_ext. intros i.
    rewrite !nth_error_map.
    destruct (nth_error featmap_sizes i) as [[h w] |] eqn:Hsz.
    + destruct (Hlv i h w Hsz) as (s & _ & _ & ->). cbn [option_map fst snd].
      now rewrite grid_length.
    + assert (Hnone : nth_error mlvl_points i = None).
      { apply nth_error_None. rewrite Hlen. now apply nth_error_None. }
      now rewrite Hnone.
Qed.

Lemma get_points_levels_witness :
  length [grid 2 3 4; grid 1 1 8] = length [(2, 3); (1, 1)]%nat /\
  (forall i h w, nth_error [(2, 3); (1, 1)]%nat i = Some (h, w) ->
     exists s, nth_error [4; 8; 16] i = Some s /\ s <> 0 /\
               nth_error [grid 2 3 4; grid 1 1 8] i = Some (grid h w s) /\
               get_points_single (h, w) s = Some (grid h w s)) /\
  num_points_per_level [grid 2 3 4; grid 1 1 8]
  = map (fun hw => (fst hw * snd hw)%nat) [(2, 3); (1, 1)]%nat.
Proof.
  apply (@get_points_levels [4; 8; 16] [(2, 3); (1, 1)]%nat
           [grid 2 3 4; grid 1 1 8]).
  reflexivity.
Defined.

Lemma get_points_ok_strides (strides : list Z) (featmap_sizes : list (nat * nat))
    (mlvl_points : list (list (Z * Z))) (i : nat) :
  get_points strides featmap_sizes = Ok mlvl_points ->
  (i < length featmap_sizes)%nat ->
  exists s, nth_error strides i = Some s /\ s <> 0.
Proof.
  intros Hrun Hi. unfold get_points in Hrun.
  destruct (nth_error featmap_sizes i) as [[h w] |] eqn:Hsz;
    [| apply nth_error_None in Hsz; lia].
  destruct (collect_nth _ _ i Hrun (a := i)) as (b & Hb & _).
  { rewrite nth_error_seq.
    destruct (Nat.ltb_spec i (length featmap_sizes)); [reflexivity | lia]. }
  apply (get_points_body strides featmap_sizes i b Hsz) in Hb.
  destruct Hb as (s & Hs & Hs0 & _). now exists s.
Qed.

(** X10. [get_points] returns exactly when [self.strides] has a nonzero
    stride for every feature map; with fewer strides than feature maps,
    or a zero stride at a level in use, it raises. Strides beyond the
    number of feature maps are ignored. *)
Theorem get_points_defined_iff (strides : list Z)
    (featmap_sizes : list (nat * nat)) :
  (exists mlvl_points, get_points strides featmap_sizes = Ok mlvl_points)
  <-> (forall i, (i < length featmap_sizes)%nat ->
         exists s, nth_error strides i = Some s /\ s <> 0).
Proof.
  split.
  - intros (mlvl_points & Hrun) i Hi.
    exact (@get_points_ok_strides strides featmap_sizes mlvl_points i Hrun Hi).
  - intros H. apply collect_total. intros i Hi. apply in_seq in Hi.
    destruct (nth_error featmap_sizes i) as [[h w] |] eqn:Hsz;
      [| apply nth_error_None in Hsz; lia].
    destruct (H i) as (s & Hs & Hs0); [lia |].
    exists (grid h w s). apply (get_points_body strides featmap_sizes i _ Hsz).
    now exists s.
Qed.

End LevelsMore.

(** ** TargetAssigner: sample region, background points, shapes *)

Section TargetAssignerMore.
Import Prelude Head TargetAssigner Samples.
Local Open Scope R_scope.

(** *** The sample region around the mask centre *)

Lemma nth_error_seq_lt (n i : nat) : (i < n)%nat -> nth_error (seq 0 n) i = Some i.
Proof.
  intros H. rewrite nth_error_seq.
  destruct (Nat.ltb_spec i n); [reflexivity | lia].
Qed.

Lemma center_gt_inside (stride : option R) (bb : box) (c pt : R * R) :
  0 < min4 (box_distances pt (center_gt stride bb c)) ->
  0 < min4 (box_distances pt bb) /\
  exists s, stride = Some s /\
            Rabs (fst pt - snd c) < s /\ Rabs (snd pt - fst c) < s.
Proof.
  destruct bb as [[[x0 y0] x1] y1], pt as [xs ys], c as [cy cx].
  destruct stride as [s |]; cbn [center_gt fst snd box_distances].
  - intros H. apply min4_pos in H. destruct H as (H0 & H1 & H2 & H3).
    destruct (Rltb x0 (cx - s)) eqn:E0;
      [apply Rltb_true in E0 | apply Rltb_false in E0];
    destruct (Rltb y0 (cy - s)) eqn:E1;
      [apply Rltb_true in E1 | apply Rltb_false in E1 |
       apply Rltb_true in E1 | apply Rltb_false in E1];
    (destruct (Rltb x1 (cx + s)) eqn:E2;
      [apply Rltb_true in E2 | apply Rltb_false in E2]);
    (destruct (Rltb y1 (cy + s)) eqn:E3;
      [apply Rltb_true in E3 | apply Rltb_false in E3]);
    (split; [apply min4_pos; repeat split; lra |];
     exists s; split; [reflexivity |]; split; apply Rabs_def1; lra).
  - intros H. apply min4_pos in H. lra.
Qed.

Lemma get_mask_sample_region_row (gt_bb : list box) (mask_center : list (R * R))
    (strides : list R) (num_points_per : list nat) (points : list (R * R))
    (radius : R) (inside : list (list bool)) (p g : nat) (row : list bool)
    (pt : R * R) (bb : box) (c : R * R) :
  get_mask_sample_region gt_bb mask_center strides num_points_per points radius
  = Some inside ->
  nth_error inside p = Some row -> nth_error row g = Some true ->
  nth_error points p = Some pt -> nth_error gt_bb g = Some bb ->
  nth_error mask_center g = Some c ->
  0 < min4 (box_distances pt
              (center_gt (option_map (fun s => s * radius)
                            (level_stride strides num_points_per p)) bb c)).
Proof.
  intros Hrun Hrow Hg Hpt Hbb Hc. unfold get_mask_sample_region in Hrun.
  destruct mask_center as [| c0 mc] eqn:Emc; [discriminate |].
  rewrite <- Emc in *. clear Emc.
  assert (Hp : (p < length points)%nat) by (apply nth_error_Some; congruence).
  destruct (Reqb _ 0).
  - inversion Hrun; subst inside. rewrite nth_error_map, Hpt in Hrow.
    inversion Hrow; subst row. rewrite nth_error_map, Hbb in Hg. discriminate.
  - destruct (length strides <? length num_points_per)%nat; [discriminate |].
    inversion Hrun; subst inside.
    rewrite nth_error_map, nth_error_combine, nth_error_seq_lt, Hpt in Hrow
      by exact Hp.
    cbn [option_map fst snd] in Hrow. inversion Hrow; subst row.
    rewrite nth_error_map, nth_error_combine, Hbb, Hc in Hg.
    cbn [option_map fst snd] in Hg. inversion Hg as [Hlt].
    now apply Rltb_true in Hlt.
Qed.

(** X11. Centre sampling only narrows the inclusion test: a point that
    [get_mask_sample_region] marks for an instance lies strictly inside
    that instance's box, belongs to a level of [num_points_per], and is
    less than [strides[level] * radius] away from the mask centre along
    both axes. *)
Theorem get_mask_sample_region_within (gt_bb : list box)
    (mask_center : list (R * R)) (strides : list R) (num_points_per : list nat)
    (points : list (R * R)) (radius : R) (inside : list (list bool))
    (p g : nat) (row : list bool) (pt : R * R) (bb : box) (c : R * R) :
  get_mask_sample_region gt_bb mask_center strides num_points_per points radius
  = Some inside ->
  nth_error inside p = Some row -> nth_error row g = Some true ->
  nth_error points p = Some pt -> nth_error gt_bb g = Some bb ->
  nth_error mask_center g = Some c ->
  0 < min4 (box_distances pt bb) /\
  exists s, level_stride strides num_points_per p = Some s /\
            Rabs (fst pt - snd c) < s * radius /\
            Rabs (snd pt - fst c) < s * radius.
Proof.
  intros Hrun Hrow Hg Hpt Hbb Hc.
  pose proof (@get_mask_sample_region_row gt_bb mask_center strides
                num_points_per points radius inside p g row pt bb c
                Hrun Hrow Hg Hpt Hbb Hc) as H.
  apply center_gt_inside in H. destruct H as (Hin & s & Hs & Hx & Hy).
  split; [exact Hin |].
  destruct (level_stride strides num_points_per p) as [s0 |]; [| discriminate].
  inversion Hs; subst s. exists s0. repeat split; assumption.
Qed.

Example get_mask_sample_region_one_point :
  get_mask_sample_region [(20, 20, 60, 60)] [(40, 40)] [4; 8] [1%nat] [(42, 38)]
    (15 / 10)
  = Some [[true]].
Proof.
  unfold get_mask_sample_region.
  cbn [map fold_right snd length Nat.ltb Nat.leb seq combine fst level_stride
       option_map center_gt box_distances min4].
  Rcompute. cbn [Nat.ltb Nat.leb level_stride option_map center_gt].
  cbn [fst snd]. Rcompute. reflexivity.
Qed.

Lemma get_mask_sample_region_within_witness :
  0 < min4 (box_distances (42, 38) (20, 20, 60, 60)) /\
  exists s, level_stride [4; 8] [1%nat] 0 = Some s /\
            Rabs (fst (42, 38) - snd (40, 40)) < s * (15 / 10) /\
            Rabs (snd (42, 38) - fst (40, 40)) < s * (15 / 10).
Proof.
  apply (@get_mask_sample_region_within [(20, 20, 60, 60)] [(40, 40)] [4; 8]
           [1%nat] [(42, 38)] (15 / 10) [[true]] 0 0 [true] (42, 38)
           (20, 20, 60, 60) (40, 40)).
  - exact get_mask_sample_region_one_point.
  - reflexivity.
  - reflexivity.
  - reflexivity.
  - reflexivity.
  - reflexivity.
Defined.

(** *** Points at which no instance passes *)

Lemma assign_point_background (gt_bboxes : list box) (gt_labels : list Z)
    (inside : list bool) (rr pt : R * R) :
  gt_labels <> [] ->
  length gt_bboxes = length gt_labels ->
  length inside = length gt_bboxes ->
  (forall g, ~ passing gt_bboxes inside rr pt g) ->
  exists bb0,
    nth_error gt_bboxes 0 = Some bb0 /\
    assign_point gt_bboxes gt_labels inside rr pt
    = Some (0%Z, box_distances pt bb0, 0%nat).
Proof.
  intros Hne Hlen Hin Hnone.
  assert (Hall : forall j x,
             nth_error (masked_areas inside rr pt gt_bboxes) j = Some x -> x = INF).
  { intros j x Hx.
    assert (Hj : (j < length gt_bboxes)%nat).
    { rewrite <- (masked_areas_length inside rr pt gt_bboxes Hin).
      apply nth_error_Some. congruence. }
    destruct (nth_error_lt gt_bboxes Hj) as (bb & Hbb).
    destruct (@nth_error_lt _ inside j) as (b & Hb); [lia |].
    rewrite (masked_areas_nth inside rr pt gt_bboxes j Hbb Hb) in Hx.
    destruct (passes b rr pt bb) eqn:Ep; [| congruence].
    exfalso. apply (Hnone j).
    now apply (@passing_nth gt_bboxes inside rr pt j bb b Hbb Hb). }
  assert (Hpos : (0 < length gt_bboxes)%nat).
  { destruct gt_labels; [congruence | simpl in Hlen; lia]. }
  assert (Hmne : masked_areas inside rr pt gt_bboxes <> []).
  { intros E. apply (f_equal (@length R)) in E.
    rewrite (masked_areas_length inside rr pt gt_bboxes Hin) in E.
    simpl in E. lia. }
  destruct (@tensor_argmin_spec _ Hmne) as (m & i & Hrun & Hnth & _ & Hfirst).
  pose proof (Hall _ _ Hnth) as Hm. subst m.
  assert (Hi : i = 0%nat).
  { destruct i as [| i]; [reflexivity |]. exfalso.
    destruct (@nth_error_lt _ (masked_areas inside rr pt gt_bboxes) 0%nat)
      as (x0 & Hx0).
    { rewrite (masked_areas_length inside rr pt gt_bboxes Hin). exact Hpos. }
    pose proof (Hfirst 0%nat x0 ltac:(lia) Hx0) as Hlt.
    rewrite (Hall _ _ Hx0) in Hlt. lra. }
  subst i.
  destruct (nth_error_lt gt_bboxes Hpos) as (bb0 & Hbb0).
  destruct (@nth_error_lt _ gt_labels 0%nat) as (lab & Hlab); [lia |].
  exists bb0. split; [exact Hbb0 |].
  unfold assign_point. rewrite Hrun, Hlab, Hbb0.
  now rewrite (proj2 (Reqb_true INF INF) eq_refl).
Qed.

(** X12. A point at which no instance passes both tests gets the label
    0 and the index 0, and its box target is not zero: it holds the
    four distances of the point to the first ground-truth box. *)
Theorem assign_labels_background_target (self : FourierNetHead)
    (gt_bboxes : list box) (gt_labels : list Z) (mask_centers : list (R * R))
    (points regress_ranges : list (R * R)) (inside : list (list bool)) :
  gt_labels <> [] ->
  length gt_bboxes = length gt_labels ->
  length mask_centers = length gt_labels ->
  length regress_ranges = length points ->
  inside_gt_bbox_mask self gt_bboxes mask_centers points = Some inside ->
  exists assigned bb0,
    assign_labels self gt_bboxes gt_labels mask_centers points regress_ranges
    = Some assigned /\
    nth_error gt_bboxes 0 = Some bb0 /\
    forall p pt rr row,
      nth_error points p = Some pt -> nth_error regress_ranges p = Some rr ->
      nth_error inside p = Some row ->
      (forall g, ~ passing gt_bboxes row rr pt g) ->
      nth_error assigned p = Some (0%Z, box_distances pt bb0, 0%nat).
Proof.
  intros Hne Hbb Hmc Hrr Hinside.
  destruct (@assign_labels_points self gt_bboxes gt_labels mask_centers points
              regress_ranges inside Hne Hbb Hmc Hrr Hinside)
    as (assigned & Hrun & _ & Hnth).
  assert (Hpos : (0 < length gt_bboxes)%nat).
  { destruct gt_labels; [congruence | simpl in Hbb; lia]. }
  destruct (nth_error_lt gt_bboxes Hpos) as (bb0 & Hbb0).
  exists assigned, bb0. split; [exact Hrun |]. split; [exact Hbb0 |].
  intros p pt rr row Hpt Hr Hrow Hnone.
  destruct (Hnth p pt rr row Hpt Hr Hrow) as [Hlen ->].
  destruct (@assign_point_background gt_bboxes gt_labels row rr pt Hne Hbb Hlen
              Hnone) as (bb0' & Hbb0' & ->).
  congruence.
Qed.

Lemma assign_labels_background_target_witness :
  exists assigned bb0,
    assign_labels plain_head [(20, 20, 60, 60)] [2%Z] [(40, 40)]
      [(40, 40); (10, 40)] [(-1, 64); (-1, 64)] = Some assigned /\
    nth_error [(20, 20, 60, 60)] 0 = Some bb0 /\
    forall p pt rr row,
      nth_error [(40, 40); (10, 40)] p = Some pt ->
      nth_error [(-1, 64); (-1, 64)] p = Some rr ->
      nth_error [[true]; [false]] p = Some row ->
      (forall g, ~ passing [(20, 20, 60, 60)] row rr pt g) ->
      nth_error assigned p = Some (0%Z, box_distances pt bb0, 0%nat).
Proof.
  apply (@assign_labels_background_target plain_head [(20, 20, 60, 60)] [2%Z]
           [(40, 40)] [(40, 40); (10, 40)] [(-1, 64); (-1, 64)]
           [[true]; [false]]).
  - discriminate.
  - reflexivity.
  - reflexivity.
  - reflexivity.
  - unfold inside_gt_bbox_mask, plain_head.
    cbn [center_sample with_center_sample map box_distances min4].
    Rcompute. reflexivity.
Defined.

(** *** A first mask centre on the left border *)

Lemma sum_of_zeros {A : Type} (l : list A) :
  fold_right Rplus 0 (map (fun _ => 0) l) = 0.
Proof. induction l as [| a t IH]; simpl; [reflexivity | rewrite IH; ring]. Qed.

Lemma nth_all_false {A : Type} (l : list A) (g : nat) :
  nth g (map (fun _ => false) l) false = false.
Proof.
  revert g. induction l as [| a t IH]; intros [| g]; simpl; try reflexivity.
  apply IH.
Qed.

(** X13. The test [center_x[..., 0].sum() == 0] that stands for "no
    ground truth" looks at the first instance only: when the mask centre
    of the first instance has the x coordinate 0, centre sampling marks
    no point for any instance, and every point of the image is labelled
    background, whatever the other instances are. *)
Theorem assign_labels_zero_center_x (self : FourierNetHead)
    (gt_bboxes : list box) (gt_labels : list Z) (center_y : R)
    (mask_centers : list (R * R)) (points regress_ranges : list (R * R)) :
  center_sample self = true -> use_mask_center self = true ->
  gt_labels <> [] ->
  length gt_bboxes = length gt_labels ->
  S (length mask_centers) = length gt_labels ->
  length regress_ranges = length points ->
  inside_gt_bbox_mask self gt_bboxes ((center_y, 0) :: mask_centers) points
  = Some (map (fun _ => map (fun _ => false) gt_bboxes) points) /\
  exists assigned,
    assign_labels self gt_bboxes gt_labels ((center_y, 0) :: mask_centers)
      points regress_ranges = Some assigned /\
    length assigned = length points /\
    Forall (fun a => fst (fst a) = 0%Z) assigned.
Proof.
  intros Hcs Hmc Hne Hbb Hc Hrr.
  assert (Hinside :
            inside_gt_bbox_mask self gt_bboxes ((center_y, 0) :: mask_centers)
              points
            = Some (map (fun _ => map (fun _ => false) gt_bboxes) points)).
  { unfold inside_gt_bbox_mask, get_mask_sample_region. rewrite Hcs, Hmc.
    cbn [snd]. rewrite sum_of_zeros.
    now rewrite (proj2 (Reqb_true 0 0) eq_refl). }
  split; [exact Hinside |].
  destruct (@assign_labels_points self gt_bboxes gt_labels
              ((center_y, 0) :: mask_centers) points regress_ranges _
              Hne Hbb Hc Hrr Hinside)
    as (assigned & Hrun & Hlen & Hnth).
  exists assigned. split; [exact Hrun |]. split; [exact Hlen |].
  apply Forall_forall. intros a Ha.
  apply In_nth_error in Ha. destruct Ha as (p & Hp).
  assert (Hlt : (p < length points)%nat).
  { rewrite <- Hlen. apply nth_error_Some. congruence. }
  destruct (nth_error_lt points Hlt) as (pt & Hpt).
  destruct (@nth_error_lt _ regress_ranges p) as (rr & Hr); [lia |].
  destruct (Hnth p pt rr (map (fun _ => false) gt_bboxes) Hpt Hr) as [Hrow Ha].
  { now rewrite nth_error_map, Hpt. }
  rewrite Hp in Ha. symmetry in Ha.
  destruct (@assign_point_background gt_bboxes gt_labels
              (map (fun _ => false) gt_bboxes) rr pt Hne Hbb Hrow)
    as (bb0 & _ & E).
  { intros g (bb & _ & Hpass). rewrite nth_all_false in Hpass. discriminate. }
  rewrite E in Ha. inversion Ha. reflexivity.
Qed.

Lemma assign_labels_zero_center_x_witness :
  inside_gt_bbox_mask default_head [(0, 0, 30, 100); (20, 20, 60, 60)]
    [(50, 0); (40, 40)] [(40, 40)]
  = Some (map (fun _ => map (fun _ => false) [(0, 0, 30, 100); (20, 20, 60, 60)])
              [(40, 40)]) /\
  exists assigned,
    assign_labels default_head [(0, 0, 30, 100); (20, 20, 60, 60)] [1; 2]%Z
      [(50, 0); (40, 40)] [(40, 40)] [(-1, 64)] = Some assigned /\
    length assigned = length [(40, 40)] /\
    Forall (fun a => fst (fst a) = 0%Z) assigned.
Proof.
  apply (@assign_labels_zero_center_x default_head
           [(0, 0, 30, 100); (20, 20, 60, 60)] [1; 2]%Z 50 [(40, 40)]
           [(40, 40)] [(-1, 64)]);
    solve [reflexivity | discriminate].
Defined.

(** *** The shapes of the targets of one image *)

Lemma expand_length {A : Type} (n : nat) (l l' : list A) :
  expand n l = Some l' -> length l' = n.
Proof.
  unfold expand. destruct (Nat.eqb_spec (length l) n) as [E |].
  - intros H. inversion H. now subst.
  - destruct l as [| a [| b t]]; try discriminate.
    intros H. inversion H. apply repeat_length.
Qed.

Lemma assign_labels_some (self : FourierNetHead) (gt_bboxes : list box)
    (gt_labels : list Z) (mask_centers : list (R * R))
    (points regress_ranges : list (R * R)) (assigned : list (Z * box * nat)) :
  assign_labels self gt_bboxes gt_labels mask_centers points regress_ranges
  = Some assigned ->
  length assigned = length points /\
  forall p a, nth_error assigned p = Some a ->
    exists pt rr row,
      nth_error points p = Some pt /\
      assign_point gt_bboxes gt_labels row rr pt = Some a.
Proof.
  unfold assign_labels. intros H.
  destruct (Nat.eqb_spec (length gt_bboxes) (length gt_labels)) as [Hlen |];
    [| discriminate].
  cbn [negb] in H.
  destruct (expand (length points) regress_ranges) as [rrs |] eqn:Er;
    [| discriminate].
  destruct (expand (length gt_labels) mask_centers) as [mc |] eqn:Em;
    [| discriminate].
  destruct (inside_gt_bbox_mask self gt_bboxes mc points) as [inside |] eqn:Ein;
    [| discriminate].
  apply map_opt_some in H. destruct H as [Hl Hnth].
  apply expand_length in Er. apply expand_length in Em.
  destruct (@inside_gt_bbox_mask_shape self gt_bboxes mc points inside
              ltac:(congruence) Ein) as [Hil _].
  assert (Hal : length assigned = length points).
  { rewrite Hl, !length_combine. lia. }
  split; [exact Hal |].
  intros p a Ha.
  assert (Hp : (p < length points)%nat).
  { rewrite <- Hal. apply nth_error_Some. congruence. }
  destruct (nth_error_lt points Hp) as (pt & Hpt).
  destruct (@nth_error_lt _ rrs p) as (rr & Hr); [lia |].
  destruct (@nth_error_lt _ inside p) as (row & Hrow); [lia |].
  exists pt, rr, row. split; [exact Hpt |].
  rewrite <- Ha. symmetry. apply (Hnth p (pt, rr, row)).
  now rewrite !nth_error_combine, Hpt, Hr, Hrow.
Qed.

Lemma assign_point_label (gt_bboxes : list box) (gt_labels : list Z)
    (inside : list bool) (rr pt : R * R) (a : Z * box * nat) :
  assign_point gt_bboxes gt_labels inside rr pt = Some a ->
  fst (fst a) = 0%Z \/ In (fst (fst a)) gt_labels.
Proof.
  unfold assign_point.
  destruct (tensor_argmin _) as [[m i] |]; [| discriminate].
  destruct (nth_error gt_labels i) as [label |] eqn:El; [| discriminate].
  destruct (nth_error gt_bboxes i); [| discriminate].
  intros H. inversion H. cbn [fst].
  destruct (Reqb m INF); [now left | right].
  eapply nth_error_In. exact El.
Qed.

Lemma mask_target_length (self : FourierNetHead) (gt_masks : list (list (R * R)))
    (gt_max_centerness : list R) (pt : R * R) (a : Z * box * nat)
    (row : list R) (c : R) :
  mask_target self gt_masks gt_max_centerness pt a = Some (row, c) ->
  length row = contour_points self.
Proof.
  unfold mask_target. destruct a as [[label tgt] i].
  destruct (label =? 0)%Z.
  - intros H. inversion H. apply repeat_length.
  - destruct (nth_error gt_masks i) as [contour |]; [| discriminate].
    destruct (PolarSampler.get_polar_coordinates _ _ _ _) as [[dists nc] |] eqn:E;
      [| discriminate].
    apply get_polar_coordinates_length in E. rewrite Nat2Z.id in E.
    destruct (normalized_centerness self).
    + destruct (nth_error gt_max_centerness i); [| discriminate].
      destruct (CenternessScorer.polar_centerness_target _ _); [| discriminate].
      intros H. inversion H. now subst.
    + destruct (CenternessScorer.polar_centerness_target _ _); [| discriminate].
      intros H. inversion H. now subst.
Qed.

(** X14. When [polar_target_single] returns for an image that has
    ground truth, it returns four tensors with one row per point: the
    labels, each 0 or one of the ground-truth labels, the box targets,
    the mask targets, every row of which has [contour_points] entries,
    and the centerness targets. *)
Theorem polar_target_single_shapes (self : FourierNetHead) (gt_bboxes : list box)
    (gt_masks : list (list (R * R))) (gt_labels : list Z)
    (mask_centers : list (R * R)) (gt_max_centerness : list R)
    (points regress_ranges : list (R * R)) (res : list tensor) :
  gt_labels <> [] ->
  polar_target_single self gt_bboxes gt_masks gt_labels mask_centers
    gt_max_centerness points regress_ranges = Some res ->
  exists labels bbox_targets mask_targets centerness_target,
    res = [Labels labels; Boxes bbox_targets; Rows mask_targets;
           Scalars centerness_target] /\
    length labels = length points /\
    length bbox_targets = length points /\
    length mask_targets = length points /\
    length centerness_target = length points /\
    Forall (fun row => length row = contour_points self) mask_targets /\
    Forall (fun l => l = 0%Z \/ In l gt_labels) labels.
Proof.
  intros Hne Hrun. unfold polar_target_single in Hrun.
  destruct gt_labels as [| l0 gl] eqn:Egl; [congruence |].
  rewrite <- Egl in *. cbn [length Nat.eqb] in Hrun.
  replace (length gt_labels =? 0)%nat with false in Hrun
    by (rewrite Egl; reflexivity).
  destruct (assign_labels _ _ _ _ _ _) as [assigned |] eqn:Ea; [| discriminate].
  destruct (map_opt _ _) as [targets |] eqn:Et; [| discriminate].
  inversion Hrun; subst res. clear Hrun.
  destruct (assign_labels_some _ _ _ _ _ _ Ea) as [Hal Hap].
  destruct (map_opt_some _ _ Et) as [Htl Htn].
  rewrite length_combine in Htl.
  do 4 eexists. split; [reflexivity |].
  rewrite !length_map. repeat split; try lia.
  - apply Forall_forall. intros row Hrow.
    apply in_map_iff in Hrow. destruct Hrow as ([row' c] & <- & Hin).
    apply In_nth_error in Hin. destruct Hin as (q & Hq).
    assert (Hlt : (q < length (combine points assigned))%nat).
    { rewrite length_combine, <- Htl. apply nth_error_Some. congruence. }
    destruct (nth_error_lt _ Hlt) as (x & Hx).
    rewrite (Htn q x Hx) in Hq.
    exact (mask_target_length _ _ _ _ _ Hq).
  - apply Forall_forall. intros l Hl.
    apply in_map_iff in Hl. destruct Hl as (a & <- & Hin).
    apply In_nth_error in Hin. destruct Hin as (p & Hp).
    destruct (Hap p a Hp) as (pt & rr & row & _ & E).
    exact (assign_point_label _ _ _ _ _ E).
Qed.

Lemma polar_target_single_shapes_witness :
  exists labels bbox_targets mask_targets centerness_target,
    [Labels [0%Z]; Boxes [(10 - 20, 40 - 20, 60 - 10, 60 - 40)];
     Rows [repeat 0 360]; Scalars [0]]
    = [Labels labels; Boxes bbox_targets; Rows mask_targets;
       Scalars centerness_target] /\
    length labels = length [(10, 40)] /\
    length bbox_targets = length [(10, 40)] /\
    length mask_targets = length [(10, 40)] /\
    length centerness_target = length [(10, 40)] /\
    Forall (fun row => length row = contour_points plain_head) mask_targets /\
    Forall (fun l => l = 0%Z \/ In l [2%Z]) labels.
Proof.
  apply (@polar_target_single_shapes plain_head [(20, 20, 60, 60)] [] [2%Z]
           [(40, 40)] [] [(10, 40)] [(-1, 64)]).
  - discriminate.
  - exact polar_target_single_outside_point.
Defined.

(** *** The batch *)

Lemma per_level_length (num_points : list nat) (per_image lv : list tensor) :
  per_level num_points per_image = Some lv -> length lv = length num_points.
Proof.
  unfold per_level. destruct (map_opt _ per_image) as [splits |]; [| discriminate].
  intros H. apply map_opt_some in H. destruct H as [H _].
  now rewrite H, length_seq.
Qed.

(** X15. [polar_target] returns only for a batch it can regroup: the
    number of point levels equals the number of regression ranges, the
    batch is not empty, and every image has ground truth; each of the
    four lists it returns then has one tensor per level. *)
Theorem polar_target_requires (self : FourierNetHead)
    (points : list (list (R * R))) (images : list image_gt)
    (labels bbox_targets mask_targets centerness_targets : list tensor) :
  polar_target self points images
  = Some (labels, bbox_targets, mask_targets, centerness_targets) ->
  length points = length (regress_ranges self) /\
  images <> [] /\
  Forall (fun img => gt_labels img <> []) images /\
  length labels = length points /\
  length bbox_targets = length points /\
  length mask_targets = length points /\
  length centerness_targets = length points.
Proof.
  intros Hrun.
  assert (Himgs : Forall (fun img => gt_labels img <> []) images).
  { apply Forall_forall. intros img Hin Hgl.
    rewrite (@polar_target_no_gt_raises self points images img Hin Hgl) in Hrun.
    discriminate. }
  unfold polar_target in Hrun.
  destruct (Nat.eqb_spec (length points) (length (regress_ranges self)))
    as [Hlen |]; [| discriminate].
  cbn [negb] in Hrun.
  split; [exact Hlen |]. split.
  { intros ->. discriminate. }
  split; [exact Himgs |].
  destruct (multi_apply _ images) as [[| a [| b [| c [| d [| e l]]]]] |];
    try discriminate.
  destruct (per_level _ a) as [la |] eqn:Ea; [| discriminate].
  destruct (per_level _ b) as [lb |] eqn:Eb; [| discriminate].
  destruct (per_level _ c) as [lc |] eqn:Ec; [| discriminate].
  destruct (per_level _ d) as [ld |] eqn:Ed; [| discriminate].
  inversion Hrun; subst.
  apply per_level_length in Ea, Eb, Ec, Ed. rewrite length_map in *.
  repeat split; assumption.
Qed.

Lemma polar_target_requires_witness :
  length [[(10, 40)]; []; []; []; []] = length (regress_ranges plain_head) /\
  [{| gt_bboxes := [(20, 20, 60, 60)]; gt_masks := []; gt_labels := [2%Z];
      mask_centers := [(40, 40)]; gt_max_centerness := [] |}] <> [] /\
  Forall (fun img => gt_labels img <> [])
    [{| gt_bboxes := [(20, 20, 60, 60)]; gt_masks := []; gt_labels := [2%Z];
        mask_centers := [(40, 40)]; gt_max_centerness := [] |}] /\
  length [Labels [0%Z]; Labels []; Labels []; Labels []; Labels []]
  = length [[(10, 40)]; []; []; []; []] /\
  length [Boxes [(10 - 20, 40 - 20, 60 - 10, 60 - 40)];
          Boxes []; Boxes []; Boxes []; Boxes []]
  = length [[(10, 40)]; []; []; []; []] /\
  length [Rows [repeat 0 360]; Rows []; Rows []; Rows []; Rows []]
  = length [[(10, 40)]; []; []; []; []] /\
  length [Scalars [0]; Scalars []; Scalars []; Scalars []; Scalars []]
  = length [[(10, 40)]; []; []; []; []].
Proof.
  apply (@polar_target_requires plain_head [[(10, 40)]; []; []; []; []]
           [{| gt_bboxes := [(20, 20, 60, 60)]; gt_masks := [];
               gt_labels := [2%Z]; mask_centers := [(40, 40)];
               gt_max_centerness := [] |}]).
  exact polar_target_one_image.
Defined.

(** *** The sample region around the box centre *)

(** X16. With [center_sample] set and [use_mask_center] unset the head
    calls [self.get_sample_region], which the class does not define:
    [polar_target_single] raises for every image that has ground truth,
    and [polar_target] raises for every batch. *)
Theorem polar_target_box_center_raises (self : FourierNetHead) :
  center_sample self = true -> use_mask_center self = false ->
  (forall gt_bboxes gt_masks gt_labels mask_centers gt_max_centerness points
          regress_ranges,
     gt_labels <> [] ->
     polar_target_single self gt_bboxes gt_masks gt_labels mask_centers
       gt_max_centerness points regress_ranges = None) /\
  (forall points images, polar_target self points images = None).
Proof.
  intros Hcs Hmc.
  assert (Hsingle :
            forall gt_bboxes gt_masks gt_labels mask_centers gt_max_centerness
                   points regress_ranges,
              gt_labels <> [] ->
              polar_target_single self gt_bboxes gt_masks gt_labels mask_centers
                gt_max_centerness points regress_ranges = None).
  { intros gb gm gl mc gmc pts rrs Hne. unfold polar_target_single.
    destruct gl as [| l0 gl]; [congruence |]. cbn [length Nat.eqb].
    unfold assign_labels. destruct (negb _); [reflexivity |].
    destruct (expand _ rrs); [| reflexivity].
    destruct (expand _ mc); [| reflexivity].
    unfold inside_gt_bbox_mask. now rewrite Hcs, Hmc. }
  split; [exact Hsingle |].
  intros points [| img images].
  - unfold polar_target. destruct (negb _); reflexivity.
  - destruct (gt_labels img) as [| l0 gl] eqn:Egl.
    + apply (@polar_target_no_gt_raises self points (img :: images) img);
        [now left | exact Egl].
    + unfold polar_target. destruct (negb _); [reflexivity |].
      unfold multi_apply. cbn [map_opt].
      rewrite Hsingle by (rewrite Egl; discriminate). reflexivity.
Qed.

Lemma polar_target_box_center_raises_witness :
  (forall gt_bboxes gt_masks gt_labels mask_centers gt_max_centerness points
          regress_ranges,
     gt_labels <> [] ->
     polar_target_single MoreSamples.box_center_head gt_bboxes gt_masks gt_labels
       mask_centers gt_max_centerness points regress_ranges = None) /\
  (forall points images,
     polar_target MoreSamples.box_center_head points images = None).
Proof.
  apply (@polar_target_box_center_raises MoreSamples.box_center_head);
    reflexivity.
Defined.

End TargetAssignerMore.

(** ** FourierCodec: symmetry of the coefficient targets, the constant
    coefficient *)

Section FourierCodecMore.
Import FourierCodec.
Local Open Scope R_scope.

Lemma phase_0 (N n : nat) : phase N 0 n = 0.
Proof. unfold phase. cbn [INR]. unfold Rdiv. ring. Qed.

Lemma coe_targets_nth (num_coe : nat) (x : list R) (k : nat) :
  (k < num_coe)%nat -> (k < length x)%nat ->
  nth k (coe_targets num_coe x) (0, 0) = bin x k.
Proof.
  intros Hk Hx. unfold coe_targets. rewrite nth_firstn.
  destruct (Nat.ltb_spec k num_coe); [| lia]. now apply rfft_nth.
Qed.

(** X17. The coefficient targets of [loss] are those of a real signal:
    the first coefficient has no imaginary part, and wherever both are
    among the [num_coe] kept ones, coefficient [N - k] is the complex
    conjugate of coefficient [k]. *)
Theorem coe_targets_hermitian (num_coe : nat) (x : list R) :
  (0 < length x)%nat ->
  ((0 < num_coe)%nat -> snd (nth 0 (coe_targets num_coe x) (0, 0)) = 0) /\
  (forall k, (0 < k < length x)%nat -> (k < num_coe)%nat ->
     (length x - k < num_coe)%nat ->
     nth (length x - k) (coe_targets num_coe x) (0, 0)
     = (fst (nth k (coe_targets num_coe x) (0, 0)),
        - snd (nth k (coe_targets num_coe x) (0, 0)))).
Proof.
  intros HN. split.
  - intros HK. rewrite coe_targets_nth by assumption. unfold bin. cbn [snd].
    rewrite (Rsum_ext _ (fun _ => 0)).
    + rewrite Rsum_zero. unfold Rdiv. ring.
    + intros n _. rewrite phase_0, sin_0. ring.
  - intros k Hk HkK Hmirror.
    rewrite !coe_targets_nth by lia. apply bin_mirror; lia.
Qed.

Lemma coe_targets_hermitian_witness :
  ((0 < 4)%nat -> snd (nth 0 (coe_targets 4 [3; 1; 4; 1]) (0, 0)) = 0) /\
  (forall k, (0 < k < length [3; 1; 4; 1])%nat -> (k < 4)%nat ->
     (length [3; 1; 4; 1] - k < 4)%nat ->
     nth (length [3; 1; 4; 1] - k) (coe_targets 4 [3; 1; 4; 1]) (0, 0)
     = (fst (nth k (coe_targets 4 [3; 1; 4; 1]) (0, 0)),
        - snd (nth k (coe_targets 4 [3; 1; 4; 1]) (0, 0)))).
Proof. apply (@coe_targets_hermitian 4 [3; 1; 4; 1]). simpl. lia. Defined.

(** The spectrum read from the single coefficient [(a, 0)] padded with
    zeros. *)
Lemma hermitian_dc (a : R) (N k : nat) :
  (0 < N)%nat -> (k < N)%nat ->
  hermitian ([(a, 0)] ++ repeat (0, 0) (N - 1)) k
  = if (k =? 0)%nat then (a, 0) else (0, if (k <=? N / 2)%nat then 0 else - 0).
Proof.
  intros HN Hk. unfold hermitian.
  assert (Hlen : length ([(a, 0)] ++ repeat (0, 0) (N - 1)) = N).
  { rewrite length_app, repeat_length. simpl. lia. }
  rewrite Hlen. destruct k as [| k].
  - cbn [Nat.leb Nat.eqb app nth]. reflexivity.
  - cbn [Nat.eqb]. destruct (Nat.leb_spec (S k) (N / 2)).
    + cbn [app nth]. now rewrite nth_repeat.
    + destruct (N - S k)%nat as [| j] eqn:E; [lia |].
      cbn [app nth]. now rewrite nth_repeat.
Qed.

Lemma map_const_seq {A : Type} (c : A) (n : nat) :
  map (fun _ => c) (seq 0 n) = repeat c n.
Proof. rewrite map_const. now rewrite length_seq. Qed.

(** The constant coefficient alone decodes to a constant signal. *)
Lemma decode_coe_dc (a : R) (N : nat) :
  (0 < N)%nat ->
  decode_coe N 1 [(a, 0)] = Some (repeat (exp (a / sqrt (INR N))) N).
Proof.
  intros HN. unfold decode_coe, irfft_padded, pad_coe.
  destruct (Nat.ltb_spec N 1); [lia |]. cbn [option_map]. f_equal.
  unfold irfft.
  assert (Hlen : length ([(a, 0)] ++ repeat (0, 0) (N - 1)) = N).
  { rewrite length_app, repeat_length. simpl. lia. }
  rewrite Hlen, map_map.
  transitivity (map (fun _ : nat => exp (a / sqrt (INR N))) (seq 0 N));
    [| apply map_const_seq].
  apply map_ext_in. intros n Hn. f_equal. f_equal.
  rewrite (Rsum_ext _ (fun k => if (k =? 0)%nat then a else 0)).
  - now rewrite (Rsum_delta (fun _ => a)) by exact HN.
  - intros k Hk. rewrite hermitian_dc by assumption.
    destruct k as [| k]; cbn [Nat.eqb].
    + rewrite phase_0, cos_0, sin_0. ring.
    + destruct (S k <=? N / 2)%nat; ring.
Qed.

End FourierCodecMore.

(** ** Decoder: Fourier mode and the box clamp *)

Section DecoderMore.
Import Prelude Head Decoder MoreSamples.
Local Open Scope R_scope.

(** X18. A prediction that holds the constant coefficient only decodes
    to a circle: with [num_coe = 1] the training-mode [distance2mask]
    turns the coefficient [(a, 0)] into the same distance
    [exp (a / sqrt N)] at every one of the [N] angles, and the vertices
    lie at that distance around the point. *)
Theorem distance2mask_dc_circle (self : FourierNetHead) (point : R * R) (a : R)
    (max_shape : option (Z * Z)) :
  use_fourier self = true ->
  num_coe self = 1%nat ->
  (0 < contour_points self)%nat ->
  (360 mod Z.of_nat (contour_points self) = 0)%Z ->
  exists x y,
    distance2mask self point (Pairs [(a, 0)]) max_shape true None
    = Some (x, y, repeat (exp (a / sqrt (INR (contour_points self))))
                         (contour_points self)) /\
    forall i, (i < contour_points self)%nat ->
      nth_error x i
      = Some (clamp_to (option_map snd max_shape)
                (fst (vertex point (exp (a / sqrt (INR (contour_points self))))
                        (Z.of_nat i * (360 / Z.of_nat (contour_points self)))))) /\
      nth_error y i
      = Some (clamp_to (option_map fst max_shape)
                (snd (vertex point (exp (a / sqrt (INR (contour_points self))))
                        (Z.of_nat i * (360 / Z.of_nat (contour_points self)))))).
Proof.
  intros Hf Hc HN Hmod.
  assert (Hdec : decoded_distances self (Pairs [(a, 0)]) true
                 = Some (repeat (exp (a / sqrt (INR (contour_points self))))
                                (contour_points self))).
  { unfold decoded_distances. rewrite Hf, Hc. now apply decode_coe_dc. }
  destruct (@distance2mask_decoded self point (Pairs [(a, 0)]) _ max_shape true
              Hdec HN Hmod (repeat_length _ _))
    as (x & y & Hrun & _ & _ & Hv).
  exists x, y. split; [exact Hrun |].
  intros i Hi. apply Hv. now apply nth_error_repeat.
Qed.

Lemma distance2mask_dc_circle_witness :
  exists x y,
    distance2mask
      dc_head
      (10, 10) (Pairs [(2, 0)]) (Some (480, 640)%Z) true None
    = Some (x, y, repeat (exp (2 / sqrt (INR 360))) 360) /\
    forall i, (i < 360)%nat ->
      nth_error x i
      = Some (clamp_to (option_map snd (Some (480, 640)%Z))
                (fst (vertex (10, 10) (exp (2 / sqrt (INR 360)))
                        (Z.of_nat i * (360 / Z.of_nat 360))))) /\
      nth_error y i
      = Some (clamp_to (option_map fst (Some (480, 640)%Z))
                (snd (vertex (10, 10) (exp (2 / sqrt (INR 360)))
                        (Z.of_nat i * (360 / Z.of_nat 360))))).
Proof.
  apply (@distance2mask_dc_circle
           dc_head
           (10, 10) 2 (Some (480, 640)%Z)).
  - reflexivity.
  - reflexivity.
  - cbn. lia.
  - reflexivity.
Defined.

(** X20. With a box, [distance2mask] clamps what it computes without
    one: every vertex coordinate is moved into the box, so no returned
    [x] is left of [bbox[0]] or, for a box that is not empty, right of
    [bbox[2]], and likewise for [y] with [bbox[1]] and [bbox[3]]. *)
Theorem distance2mask_bbox_clamp (self : FourierNetHead) (point : R * R)
    (distances : prediction) (max_shape : option (Z * Z)) (train : bool)
    (b0 b1 b2 b3 : R) (x y ds : list R) :
  distance2mask self point distances max_shape train (Some (b0, b1, b2, b3))
  = Some (x, y, ds) ->
  (exists x0 y0,
     distance2mask self point distances max_shape train None = Some (x0, y0, ds) /\
     x = map (fun v => Rmax (Rmin v b2) b0) x0 /\
     y = map (fun v => Rmax (Rmin v b3) b1) y0) /\
  Forall (fun v => b0 <= v) x /\ Forall (fun v => b1 <= v) y /\
  (b0 <= b2 -> Forall (fun v => v <= b2) x) /\
  (b1 <= b3 -> Forall (fun v => v <= b3) y).
Proof.
  intros Hrun. unfold distance2mask in *.
  destruct (decoded_distances self distances train) as [ds' |]; [| discriminate].
  destruct (angles self) as [tbl |]; [| discriminate].
  destruct (broadcast2 Rmult ds' (map sin tbl)) as [s |]; [| discriminate].
  destruct (broadcast2 Rmult ds' (map cos tbl)) as [c |]; [| discriminate].
  destruct (broadcast2 Rplus s _) as [x0 |]; [| discriminate].
  destruct (broadcast2 Rplus c _) as [y0 |]; [| discriminate].
  inversion Hrun; subst. clear Hrun.
  split; [eexists; eexists; split; [reflexivity | split; reflexivity] |].
  repeat split; try intros Hle; apply Forall_forall; intros v Hv;
    apply in_map_iff in Hv; destruct Hv as (u & <- & _).
  - apply Rmax_r.
  - apply Rmax_r.
  - apply Rmax_lub; [apply Rmin_r | exact Hle].
  - apply Rmax_lub; [apply Rmin_r | exact Hle].
Qed.

Lemma distance2mask_bbox_clamp_witness :
  (exists x0 y0,
     distance2mask
       square_head
       (10, 10) (Flat [5; 5; 5; 5]) None false None
     = Some (x0, y0, [5; 5; 5; 5]) /\
     map (fun v => Rmax (Rmin v 12) 8) [10; 10 + 5; 10; 10 - 5]
     = map (fun v => Rmax (Rmin v 12) 8) x0 /\
     map (fun v => Rmax (Rmin v 12) 8) [10 + 5; 10; 10 - 5; 10]
     = map (fun v => Rmax (Rmin v 12) 8) y0) /\
  Forall (fun v => 8 <= v)
    (map (fun v => Rmax (Rmin v 12) 8) [10; 10 + 5; 10; 10 - 5]) /\
  Forall (fun v => 8 <= v)
    (map (fun v => Rmax (Rmin v 12) 8) [10 + 5; 10; 10 - 5; 10]) /\
  (8 <= 12 ->
   Forall (fun v => v <= 12)
     (map (fun v => Rmax (Rmin v 12) 8) [10; 10 + 5; 10; 10 - 5])) /\
  (8 <= 12 ->
   Forall (fun v => v <= 12)
     (map (fun v => Rmax (Rmin v 12) 8) [10 + 5; 10; 10 - 5; 10])).
Proof.
  apply (@distance2mask_bbox_clamp
           square_head
           (10, 10) (Flat [5; 5; 5; 5]) None false 8 8 12 12).
  pose proof (@distance2mask_square
                square_head
                5 false eq_refl eq_refl) as H.
  unfold distance2mask in *.
  destruct (decoded_distances _ _ _) as [ds' |]; [| discriminate].
  destruct (angles _) as [tbl |]; [| discriminate].
  destruct (broadcast2 Rmult ds' (map sin tbl)) as [s |]; [| discriminate].
  destruct (broadcast2 Rmult ds' (map cos tbl)) as [c |]; [| discriminate].
  destruct (broadcast2 Rplus s _) as [x0 |]; [| discriminate].
  destruct (broadcast2 Rplus c _) as [y0 |]; [| discriminate].
  inversion H; subst. reflexivity.
Defined.

Lemma broadcast2_none (f : R -> R -> R) (a b : list R) :
  length a <> length b -> length a <> 1%nat -> length b <> 1%nat ->
  broadcast2 f a b = None.
Proof.
  intros Hab Ha Hb. unfold broadcast2.
  destruct (Nat.eqb_spec (length a) (length b)); [contradiction |].
  destruct a as [| x [| x' a]]; destruct b as [| y [| y' b]];
    simpl in *; try reflexivity; congruence.
Qed.

(** X21. The angle table has [N] entries only for a contour size [N]
    that divides 360: for every other contour size [distance2mask]
    raises on a decoded signal of [N] distances, whatever the point,
    the image shape and the box. *)
Theorem distance2mask_needs_divisor (self : FourierNetHead) (point : R * R)
    (distances : prediction) (max_shape : option (Z * Z)) (train : bool)
    (bbox : option (R * R * R * R)) (ds : list R) :
  decoded_distances self distances train = Some ds ->
  length ds = contour_points self ->
  (360 mod Z.of_nat (contour_points self) <> 0)%Z ->
  distance2mask self point distances max_shape train bbox = None.
Proof.
  intros Hdec Hlen Hmod. unfold distance2mask. rewrite Hdec.
  unfold angles, interval.
  destruct (Nat.eqb_spec (contour_points self) 0) as [| Hcp]; [reflexivity |].
  set (N := Z.of_nat (contour_points self)) in *.
  assert (HN : (0 < N)%Z) by (unfold N; lia).
  assert (Hone : contour_points self <> 1%nat).
  { intros E. apply Hmod. unfold N. rewrite E. reflexivity. }
  unfold torch_range.
  destruct (Z.eqb_spec (360 / N) 0) as [| Hstep]; [reflexivity |].
  assert (Hpos : (0 < 360 / N)%Z).
  { assert (0 <= 360 / N)%Z by (apply Z.div_pos; lia). lia. }
  destruct (Z.ltb_spec 0 (360 / N)) as [_ |]; [| lia].
  destruct (Z.ltb_spec (360 / N) 0) as [| _]; [lia |].
  cbn [andb orb Z.ltb Z.compare option_map].
  assert (Hcount : (N <= (359 - 0) / (360 / N))%Z).
  { apply Z.div_le_lower_bound; [exact Hpos |].
    pose proof (Z.div_mod 360 N ltac:(lia)) as E.
    pose proof (Z.mod_pos_bound 360 N HN) as Hb. lia. }
  rewrite !broadcast2_none;
    try (repeat first [rewrite length_map | rewrite length_seq]; unfold N in *; lia).
  reflexivity.
Qed.

Lemma distance2mask_needs_divisor_witness :
  distance2mask
    heptagon_head
    (10, 10) (Flat [5; 5; 5; 5; 5; 5; 5]) None false None
  = None.
Proof.
  apply (@distance2mask_needs_divisor heptagon_head (10, 10) (Flat [5; 5; 5; 5; 5; 5; 5])
           None false None [5; 5; 5; 5; 5; 5; 5]).
  - reflexivity.
  - reflexivity.
  - discriminate.
Defined.

End DecoderMore.

(** ** Batched inference: [get_bboxes] *)

Section BatchMore.
Import Inference Batch.

Variables Tensor Scale Shape Cfg Dets : Type.
Variable decode_level :
  Tensor * Tensor * Tensor * Tensor * Tensor -> Shape -> Cfg ->
  result (Tensor * Tensor * Tensor * Tensor).
Variable cat : list Tensor -> result Tensor.
Variable div_new_tensor : Tensor -> Scale -> result Tensor.
Variable cuda_scale : Scale -> nat -> result Scale.
Variable div_scale : Tensor -> Scale -> result Tensor.
Variable pad_scores : Tensor -> result Tensor.
Variable mask_envelope : Tensor -> result Tensor.
Variable score_factors : Tensor -> result Tensor.
Variable multiclass_nms_with_mask :
  Tensor -> Tensor -> Tensor -> Cfg -> Tensor -> result Dets.
Variable self_mask_nms : bool.
Variable self_contour_points : nat.
Variable featmap_size : Tensor -> nat * nat.
Variable select : Tensor -> nat -> result Tensor.
Variable points_tensor : list (Z * Z) -> Tensor.
Variable self_strides : list Z.

Local Abbreviation run_batch :=
  (get_bboxes decode_level cat div_new_tensor cuda_scale div_scale
     pad_scores mask_envelope score_factors multiclass_nms_with_mask
     self_mask_nms self_contour_points featmap_size select points_tensor
     self_strides).

(** X22. [get_bboxes] returns only when the two prediction lists have
    the same, nonzero number of levels and [self.strides] has a stride
    for each of them; it then returns one result per image. With its
    default [rescale=None] (or [False]) it returns for an empty batch
    only: for every image [get_bboxes_single] raises. *)
Theorem get_bboxes_returns (cls_scores bbox_preds centernesses mask_preds
    : list Tensor) (img_metas : list (Shape * Scale)) (cfg : Cfg)
    (rescale : option bool) (result_list : list Dets) :
  run_batch cls_scores bbox_preds centernesses mask_preds img_metas cfg rescale
  = Ok result_list ->
  length cls_scores = length bbox_preds /\
  cls_scores <> [] /\
  (length cls_scores <= length self_strides)%nat /\
  length result_list = length img_metas /\
  (img_metas = [] \/ truthy rescale = true).
Proof.
  unfold get_bboxes. intros Hrun.
  destruct (Nat.eqb_spec (length cls_scores) (length bbox_preds)) as [Hlen |];
    [| discriminate].
  cbn [negb] in Hrun. unfold bind at 1 in Hrun.
  destruct (index bbox_preds 0) as [b0 |] eqn:Hb0; [| discriminate].
  unfold bind at 1 in Hrun.
  destruct (get_points self_strides (map featmap_size cls_scores))
    as [mlvl_points |] eqn:Hpts; [| discriminate].
  split; [exact Hlen |]. split; [| split; [| split]].
  - intros ->. destruct bbox_preds; [discriminate Hb0 | discriminate Hlen].
  - destruct (@get_points_ok_strides self_strides
                (map featmap_size cls_scores) mlvl_points
                (length cls_scores - 1)%nat Hpts) as (s & Hs & _).
    { rewrite length_map. destruct cls_scores; [| simpl; lia].
      destruct bbox_preds; [discriminate Hb0 | discriminate Hlen]. }
    assert (length cls_scores - 1 < length self_strides)%nat
      by (apply nth_error_Some; congruence).
    lia.
  - rewrite (collect_length _ _ Hrun). apply length_seq.
  - destruct img_metas as [| meta metas]; [now left | right].
    destruct (truthy rescale) eqn:E; [reflexivity | exfalso].
    destruct (collect_nth _ _ 0%nat Hrun (a := 0%nat)) as (dets & Hd & _);
      [reflexivity |].
    unfold bind in Hd.
    destruct (image_preds select cls_scores _ 0); [| discriminate].
    destruct (image_preds select bbox_preds _ 0); [| discriminate].
    destruct (image_preds select centernesses _ 0); [| discriminate].
    destruct (image_preds select mask_preds _ 0); [| discriminate].
    destruct (index (meta :: metas) 0) as [m |]; [| discriminate].
    match type of Hd with
    | get_bboxes_single _ _ _ _ _ _ _ _ _ _ _ ?c ?b ?m' ?ce ?p ?sh ?sc _ _ = _ =>
        destruct (get_bboxes_single_falsy decode_level cat div_new_tensor
                    cuda_scale div_scale pad_scores mask_envelope score_factors
                    multiclass_nms_with_mask self_mask_nms self_contour_points
                    c b m' ce p sh sc cfg rescale E) as [(e & He) _]
    end.
    rewrite He in Hd. discriminate.
Qed.

End BatchMore.

Lemma get_bboxes_returns_witness :
  length [tt] = length [tt] /\
  [tt] <> [] /\
  (length [tt] <= length [8%Z])%nat /\
  length [tt] = length [(tt, tt)] /\
  ([(tt, tt)] = [] \/ Inference.truthy (Some true) = true).
Proof.
  apply (@get_bboxes_returns unit unit unit unit unit
           (fun _ _ _ => Inference.Ok (tt, tt, tt, tt))
           (fun _ => Inference.Ok tt) (fun _ _ => Inference.Ok tt)
           (fun s _ => Inference.Ok s) (fun _ _ => Inference.Ok tt)
           (fun t => Inference.Ok t) (fun t => Inference.Ok t)
           (fun t => Inference.Ok t)
           (fun _ _ _ _ _ => Inference.Ok tt) false 360
           (fun _ => (1%nat, 1%nat)) (fun t _ => Inference.Ok t) (fun _ => tt)
           [8%Z] [tt] [tt] [tt] [tt] [(tt, tt)] tt (Some true) [tt]).
  reflexivity.
Defined.

(** ** TargetAssigner: the targets of every point, and their layout per
    level *)

Section RegroupMore.
Import Prelude Head TargetAssigner Samples Regroup.
Local Open Scope R_scope.

Lemma assign_point_some (gt_bboxes : list box) (gt_labels : list Z)
    (inside : list bool) (rr pt : R * R) (label : Z) (tgt : box) (ind : nat) :
  assign_point gt_bboxes gt_labels inside rr pt = Some (label, tgt, ind) ->
  exists bb,
    nth_error gt_bboxes ind = Some bb /\ tgt = box_distances pt bb /\
    (label = 0%Z \/ nth_error gt_labels ind = Some label).
Proof.
  unfold assign_point.
  destruct (tensor_argmin _) as [[m i] |]; [| discriminate].
  destruct (nth_error gt_labels i) as [lab |] eqn:El; [| discriminate].
  destruct (nth_error gt_bboxes i) as [bb |] eqn:Eb; [| discriminate].
  intros H. inversion H; subst. exists bb. repeat split; try assumption.
  destruct (Reqb m INF); [now left | now right].
Qed.

Lemma polar_target_single_run (self : FourierNetHead) (gt_bboxes : list box)
    (gt_masks : list (list (R * R))) (gt_labels : list Z)
    (mask_centers : list (R * R)) (gt_max_centerness : list R)
    (points regress_ranges : list (R * R)) (res : list tensor) :
  gt_labels <> [] ->
  polar_target_single self gt_bboxes gt_masks gt_labels mask_centers
    gt_max_centerness points regress_ranges = Some res ->
  exists assigned targets,
    assign_labels self gt_bboxes gt_labels mask_centers points regress_ranges
    = Some assigned /\
    map_opt (fun x => mask_target self gt_masks gt_max_centerness (fst x) (snd x))
            (combine points assigned) = Some targets /\
    res = tuple (map (fun a => fst (fst a)) assigned,
                 map (fun a => snd (fst a)) assigned,
                 map fst targets, map snd targets).
Proof.
  intros Hne Hrun. unfold polar_target_single in Hrun.
  destruct gt_labels as [| l0 gl] eqn:Egl; [congruence |].
  rewrite <- Egl in *.
  replace (length gt_labels =? 0)%nat with false in Hrun
    by (rewrite Egl; reflexivity).
  destruct (assign_labels _ _ _ _ _ _) as [assigned |] eqn:Ea; [| discriminate].
  destruct (map_opt _ _) as [targets |] eqn:Et; [| discriminate].
  inversion Hrun. exists assigned, targets.
  split; [reflexivity |]. split; [exact Et | reflexivity].
Qed.

(** X23. What [polar_target_single] returns for each point: the label
    and the distances to the box of the instance the assignment chose;
    for a background point a mask row of zeros and the centerness 0; for
    a positive point the signal [get_polar_coordinates] samples from the
    contour of the chosen instance around the point, and the centerness
    [polar_centerness_target] computes from that signal (normalized by
    the instance's maximum when [normalized_centerness] is set). *)
Theorem polar_target_single_targets (self : FourierNetHead)
    (gt_bboxes : list box) (gt_masks : list (list (R * R))) (gt_labels : list Z)
    (mask_centers : list (R * R)) (gt_max_centerness : list R)
    (points regress_ranges : list (R * R)) (labels : list Z)
    (bbox_targets : list box) (mask_targets : list (list R))
    (centerness_target : list R) :
  gt_labels <> [] ->
  polar_target_single self gt_bboxes gt_masks gt_labels mask_centers
    gt_max_centerness points regress_ranges
  = Some [Labels labels; Boxes bbox_targets; Rows mask_targets;
          Scalars centerness_target] ->
  forall p pt, nth_error points p = Some pt ->
    exists label ind bb row c,
      nth_error labels p = Some label /\
      nth_error gt_bboxes ind = Some bb /\
      nth_error bbox_targets p = Some (box_distances pt bb) /\
      nth_error mask_targets p = Some row /\
      nth_error centerness_target p = Some c /\
      (label = 0%Z -> row = repeat 0 (contour_points self) /\ c = 0) /\
      (label <> 0%Z ->
       nth_error gt_labels ind = Some label /\
       exists contour nc,
         nth_error gt_masks ind = Some contour /\
         PolarSampler.get_polar_coordinates (fst pt) (snd pt) contour
           (Z.of_nat (contour_points self)) = Some (row, nc) /\
         if normalized_centerness self
         then exists m, nth_error gt_max_centerness ind = Some m /\
                        CenternessScorer.polar_centerness_target row (Some m)
                        = Some c
         else CenternessScorer.polar_centerness_target row None = Some c).
Proof.
  intros Hne Hrun p pt Hpt.
  destruct (@polar_target_single_run self gt_bboxes gt_masks gt_labels
              mask_centers gt_max_centerness points regress_ranges _ Hne Hrun)
    as (assigned & targets & Ha & Ht & Hres).
  cbn [tuple] in Hres. inversion Hres; subst. clear Hres.
  destruct (@assign_labels_some self gt_bboxes gt_labels mask_centers points
              regress_ranges assigned Ha) as [Hal Hap].
  destruct (@map_opt_some _ _ _ _ _ Ht) as [Htl Htn].
  assert (Hp : (p < length points)%nat) by (apply nth_error_Some; congruence).
  destruct (@nth_error_lt _ assigned p) as ([[label tgt] ind] & Hx); [lia |].
  destruct (Hap p _ Hx) as (pt' & rr & row' & Hpt' & Hassign).
  assert (pt' = pt) by congruence. subst pt'.
  destruct (@assign_point_some gt_bboxes gt_labels row' rr pt label tgt ind
              Hassign) as (bb & Hbb & -> & Hlab).
  assert (Hmt : nth_error targets p
                = mask_target self gt_masks gt_max_centerness pt
                    (label, box_distances pt bb, ind)).
  { apply (Htn p (pt, (label, box_distances pt bb, ind))).
    now rewrite nth_error_combine, Hpt, Hx. }
  destruct (@nth_error_lt _ targets p) as ([row c] & Hrow).
  { rewrite Htl, length_combine. lia. }
  rewrite Hrow in Hmt. symmetry in Hmt.
  exists label, ind, bb, row, c.
  rewrite !nth_error_map, Hx, Hrow. cbn [option_map fst snd].
  do 5 (split; [reflexivity || exact Hbb |]).
  unfold mask_target in Hmt.
  destruct (Z.eqb_spec label 0) as [E0 | Hn0].
  - inversion Hmt. split; [intros _; split; reflexivity | intros H; contradiction].
  - split; [intros H; contradiction | intros _].
    split; [destruct Hlab as [| Hlab]; [contradiction | exact Hlab] |].
    destruct (nth_error gt_masks ind) as [contour |]; [| discriminate].
    destruct (PolarSampler.get_polar_coordinates _ _ _ _) as [[dists nc] |] eqn:Eg;
      [| discriminate].
    exists contour, nc. split; [reflexivity |].
    destruct (normalized_centerness self).
    + destruct (nth_error gt_max_centerness ind) as [m |]; [| discriminate].
      destruct (CenternessScorer.polar_centerness_target dists (Some m))
        as [c' |] eqn:Ec; [| discriminate].
      inversion Hmt; subst. split; [exact Eg |]. exists m. now split.
    + destruct (CenternessScorer.polar_centerness_target dists None)
        as [c' |] eqn:Ec; [| discriminate].
      inversion Hmt; subst. now split.
Qed.

Lemma polar_target_single_targets_witness :
  exists label ind bb row c,
    nth_error [0%Z] 0 = Some label /\
    nth_error [(20, 20, 60, 60)] ind = Some bb /\
    nth_error [(10 - 20, 40 - 20, 60 - 10, 60 - 40)] 0
    = Some (box_distances (10, 40) bb) /\
    nth_error [repeat 0 360] 0 = Some row /\
    nth_error [0] 0 = Some c /\
    (label = 0%Z -> row = repeat 0 (contour_points plain_head) /\ c = 0) /\
    (label <> 0%Z ->
     nth_error [2%Z] ind = Some label /\
     exists contour nc,
       nth_error [] ind = Some contour /\
       PolarSampler.get_polar_coordinates (fst (10, 40)) (snd (10, 40)) contour
         (Z.of_nat (contour_points plain_head)) = Some (row, nc) /\
       if normalized_centerness plain_head
       then exists m, nth_error [] ind = Some m /\
                      CenternessScorer.polar_centerness_target row (Some m)
                      = Some c
       else CenternessScorer.polar_centerness_target row None = Some c).
Proof.
  apply (@polar_target_single_targets plain_head [(20, 20, 60, 60)] [] [2%Z]
           [(40, 40)] [] [(10, 40)] [(-1, 64)] [0%Z]
           [(10 - 20, 40 - 20, 60 - 10, 60 - 40)] [repeat 0 360] [0]).
  - discriminate.
  - exact polar_target_single_outside_point.
  - reflexivity.
Defined.

(** *** Splitting per level and concatenating per image *)

Lemma split_sizes_nth {A : Type} (num_points : list nat) (l : list A) (i : nat) :
  (i < length num_points)%nat ->
  nth_error (split_sizes num_points l) i = Some (level_slice num_points i l).
Proof.
  revert l i. induction num_points as [| n ns IH]; intros l i Hi;
    [simpl in Hi; lia |].
  destruct i as [| i].
  - reflexivity.
  - cbn [split_sizes nth_error]. rewrite IH by (simpl in Hi; lia).
    unfold level_slice. cbn [nth firstn fold_right].
    now rewrite skipn_skipn, Nat.add_comm.
Qed.

Section Kind.

(** One kind of tensor: its constructor, split and concatenated as the
    lists it holds. *)
Variable A : Type.
Variable C : list A -> tensor.
Hypothesis C_split : forall sizes l,
  tensor_split sizes (C l)
  = if negb (fold_right Nat.add 0%nat sizes =? length l)%nat then None
    else Some (map C (split_sizes sizes l)).
Hypothesis C_cat : forall x y, cat2 (C x) (C y) = Some (C (x ++ y)).

Lemma tensor_cat_kind (ys : list (list A)) :
  ys <> [] -> tensor_cat (map C ys) = Some (C (concat ys)).
Proof.
  induction ys as [| y ys IH]; [congruence |]. intros _.
  destruct ys as [| y' ys].
  - simpl. now rewrite app_nil_r.
  - change (tensor_cat (map C (y :: y' :: ys)))
      with (match tensor_cat (map C (y' :: ys)) with
            | Some r => cat2 (C y) r
            | None => None
            end).
    rewrite IH by discriminate. apply C_cat.
Qed.

Lemma splits_kind (num_points : list nat) (xs : list (list A))
    (splits : list (list tensor)) :
  map_opt (tensor_split num_points) (map C xs) = Some splits ->
  splits = map (fun l => map C (split_sizes num_points l)) xs.
Proof.
  revert splits. induction xs as [| x xs IH]; intros splits; cbn [map map_opt].
  - intros H. now inversion H.
  - rewrite C_split. destruct (negb _); [discriminate |].
    destruct (map_opt _ (map C xs)) as [rest |]; [| discriminate].
    intros H. inversion H. f_equal. now apply IH.
Qed.

Lemma picks_kind (num_points : list nat) (xs : list (list A)) (i : nat) :
  (i < length num_points)%nat ->
  map_opt (fun s => nth_error s i)
          (map (fun l => map C (split_sizes num_points l)) xs)
  = Some (map C (map (level_slice num_points i) xs)).
Proof.
  intros Hi. induction xs as [| x xs IH]; [reflexivity |].
  cbn [map map_opt]. rewrite nth_error_map, split_sizes_nth by exact Hi.
  cbn [option_map]. now rewrite IH.
Qed.

Lemma per_level_kind (num_points : list nat) (xs : list (list A))
    (lv : list tensor) (i : nat) :
  xs <> [] ->
  per_level num_points (map C xs) = Some lv ->
  (i < length num_points)%nat ->
  nth_error lv i = Some (C (concat (map (level_slice num_points i) xs))).
Proof.
  intros Hne Hrun Hi. unfold per_level in Hrun.
  destruct (map_opt (tensor_split num_points) (map C xs)) as [splits |] eqn:Es;
    [| discriminate].
  apply splits_kind in Es. subst splits.
  apply map_opt_some in Hrun. destruct Hrun as [_ Hnth].
  rewrite (Hnth i i) by now apply nth_error_seq_lt.
  rewrite picks_kind by exact Hi. apply tensor_cat_kind.
  destruct xs; [congruence | discriminate].
Qed.

End Kind.

Lemma min_four (ts : list targets) :
  fold_right Nat.min 4%nat (map (@length tensor) (map tuple ts)) = 4%nat.
Proof.
  induction ts as [| [[[a b] c] d] ts IH]; [reflexivity |].
  cbn [map fold_right tuple length]. now rewrite IH.
Qed.

Lemma pick_column (j : nat) (f : targets -> tensor) (ts : list targets) :
  (forall t, nth_error (tuple t) j = Some (f t)) ->
  flat_map (fun row : list tensor => match nth_error row j with
                                     | Some v => [v]
                                     | None => []
                                     end) (map tuple ts)
  = map f ts.
Proof.
  intros H. induction ts as [| t ts IH]; [reflexivity |].
  cbn [map flat_map]. now rewrite H, IH.
Qed.

Lemma zip_star_tuples (ts : list targets) :
  ts <> [] ->
  zip_star (map tuple ts)
  = [map Labels (map (fun t => fst (fst (fst t))) ts);
     map Boxes (map (fun t => snd (fst (fst t))) ts);
     map Rows (map (fun t => snd (fst t)) ts);
     map Scalars (map (fun t => snd t) ts)].
Proof.
  destruct ts as [| t ts]; [congruence |]. intros _.
  unfold zip_star. cbn [map].
  replace (fold_right Nat.min (length (tuple t))
             (map (@length tensor) (map tuple ts))) with 4%nat.
  - cbn [seq map]. rewrite !map_map.
    change (tuple t :: map tuple ts) with (map tuple (t :: ts)).
    rewrite (@pick_column 0 (fun t => Labels (fst (fst (fst t)))))
      by (intros [[[a b] c] d]; reflexivity).
    rewrite (@pick_column 1 (fun t => Boxes (snd (fst (fst t)))))
      by (intros [[[a b] c] d]; reflexivity).
    rewrite (@pick_column 2 (fun t => Rows (snd (fst t))))
      by (intros [[[a b] c] d]; reflexivity).
    rewrite (@pick_column 3 (fun t => Scalars (snd t)))
      by (intros [[[a b] c] d]; reflexivity).
    reflexivity.
  - destruct t as [[[a b] c] d]. cbn [tuple length]. symmetry. apply min_four.
Qed.

Lemma map_opt_tuples {X : Type} (f : X -> option (list tensor)) (l : list X)
    (rows : list (list tensor)) :
  map_opt f l = Some rows ->
  (forall x row, In x l -> f x = Some row -> exists t, row = tuple t) ->
  exists ts, rows = map tuple ts /\
             Forall2 (fun x t => f x = Some (tuple t)) l ts.
Proof.
  revert rows. induction l as [| x l IH]; intros rows Hrun Hform;
    cbn [map_opt] in Hrun.
  - inversion Hrun. exists []. split; [reflexivity | constructor].
  - destruct (f x) as [row |] eqn:Ex; [| discriminate].
    destruct (map_opt f l) as [rest |]; [| discriminate].
    inversion Hrun; subst rows.
    destruct (Hform x row (or_introl eq_refl) Ex) as (t & ->).
    destruct (IH rest eq_refl) as (ts & -> & Hall).
    { intros y r Hy. apply Hform. now right. }
    exists (t :: ts). split; [reflexivity |]. now constructor.
Qed.

(** X24. How [polar_target] lays out what it returns: the tensor of
    level [i] is the concatenation, image after image in batch order, of
    the rows each image's [polar_target_single] targets hold for the
    points of level [i], and so for the labels, the box targets, the
    mask targets and the centerness targets alike. *)
Theorem polar_target_level_major (self : FourierNetHead)
    (points : list (list (R * R))) (images : list image_gt)
    (labels bbox_targets mask_targets centerness_targets : list tensor) :
  polar_target self points images
  = Some (labels, bbox_targets, mask_targets, centerness_targets) ->
  exists per_image : list targets,
    Forall2 (fun img t =>
               polar_target_single self (gt_bboxes img) (gt_masks img)
                 (gt_labels img) (mask_centers img) (gt_max_centerness img)
                 (concat points)
                 (concat (map (fun pr => map (fun _ => snd pr) (fst pr))
                              (combine points (regress_ranges self))))
               = Some (tuple t))
            images per_image /\
    forall i, (i < length points)%nat ->
      nth_error labels i
      = Some (Labels (concat (map (fun t => level_slice
                                              (map (@length (R * R)) points) i
                                              (fst (fst (fst t))))
                                  per_image))) /\
      nth_error bbox_targets i
      = Some (Boxes (concat (map (fun t => level_slice
                                             (map (@length (R * R)) points) i
                                             (snd (fst (fst t))))
                                 per_image))) /\
      nth_error mask_targets i
      = Some (Rows (concat (map (fun t => level_slice
                                            (map (@length (R * R)) points) i
                                            (snd (fst t)))
                                per_image))) /\
      nth_error centerness_targets i
      = Some (Scalars (concat (map (fun t => level_slice
                                               (map (@length (R * R)) points) i
                                               (snd t))
                                   per_image))).
Proof.
  intros Hrun.
  assert (Himgs : forall img, In img images -> gt_labels img <> []).
  { intros img Hin Hgl.
    rewrite (@polar_target_no_gt_raises self points images img Hin Hgl) in Hrun.
    discriminate. }
  unfold polar_target in Hrun.
  destruct (negb _); [discriminate |].
  unfold multi_apply in Hrun.
  destruct (map_opt _ images) as [rows |] eqn:Erows; [| discriminate].
  destruct (@map_opt_tuples _ _ images rows Erows) as (ts & -> & Hall).
  { intros img row Hin Hrow.
    destruct (@polar_target_single_run self (gt_bboxes img) (gt_masks img)
                (gt_labels img) (mask_centers img) (gt_max_centerness img) _ _
                row (Himgs img Hin) Hrow)
      as (assigned & targets & _ & _ & ->). eauto. }
  assert (Hne : ts <> []).
  { intros ->. inversion Hall; subst. discriminate Hrun. }
  cbn [option_map] in Hrun. rewrite (zip_star_tuples Hne) in Hrun.
  destruct (per_level _ (map Labels _)) as [la |] eqn:Ea; [| discriminate].
  destruct (per_level _ (map Boxes _)) as [lb |] eqn:Eb; [| discriminate].
  destruct (per_level _ (map Rows _)) as [lc |] eqn:Ec; [| discriminate].
  destruct (per_level _ (map Scalars _)) as [ld |] eqn:Ed; [| discriminate].
  inversion Hrun. subst la lb lc ld. clear Hrun.
  exists ts. split; [exact Hall |].
  intros i Hi.
  assert (Hi' : (i < length (map (@length (R * R)) points))%nat)
    by now rewrite length_map.
  assert (Hm : forall (B : Type) (g : targets -> list B),
             map g ts <> [])
    by (intros B g E; apply Hne; destruct ts; [reflexivity | discriminate]).
  pose proof (@per_level_kind Z Labels (fun _ _ => eq_refl) (fun _ _ => eq_refl)
                _ _ labels i (Hm _ _) Ea Hi') as H1.
  pose proof (@per_level_kind box Boxes (fun _ _ => eq_refl) (fun _ _ => eq_refl)
                _ _ bbox_targets i (Hm _ _) Eb Hi') as H2.
  pose proof (@per_level_kind (list R) Rows (fun _ _ => eq_refl)
                (fun _ _ => eq_refl) _ _ mask_targets i (Hm _ _) Ec Hi') as H3.
  pose proof (@per_level_kind R Scalars (fun _ _ => eq_refl)
                (fun _ _ => eq_refl) _ _ centerness_targets i (Hm _ _) Ed Hi') as H4.
  rewrite map_map in H1, H2, H3, H4.
  repeat split; assumption.
Qed.

Lemma polar_target_level_major_witness :
  exists per_image : list targets,
    Forall2 (fun img t =>
               polar_target_single plain_head (gt_bboxes img) (gt_masks img)
                 (gt_labels img) (mask_centers img) (gt_max_centerness img)
                 (concat [[(10, 40)]; []; []; []; []])
                 (concat (map (fun pr => map (fun _ => snd pr) (fst pr))
                              (combine [[(10, 40)]; []; []; []; []]
                                       (regress_ranges plain_head))))
               = Some (tuple t))
            [{| gt_bboxes := [(20, 20, 60, 60)]; gt_masks := [];
                gt_labels := [2%Z]; mask_centers := [(40, 40)];
                gt_max_centerness := [] |}]
            per_image /\
    forall i, (i < length [[(10, 40)]; []; []; []; []])%nat ->
      nth_error [Labels [0%Z]; Labels []; Labels []; Labels []; Labels []] i
      = Some (Labels (concat (map (fun t => level_slice
                                              (map (@length (R * R))
                                                   [[(10, 40)]; []; []; []; []])
                                              i (fst (fst (fst t))))
                                  per_image))) /\
      nth_error [Boxes [(10 - 20, 40 - 20, 60 - 10, 60 - 40)];
                 Boxes []; Boxes []; Boxes []; Boxes []] i
      = Some (Boxes (concat (map (fun t => level_slice
                                             (map (@length (R * R))
                                                  [[(10, 40)]; []; []; []; []])
                                             i (snd (fst (fst t))))
                                 per_image))) /\
      nth_error [Rows [repeat 0 360]; Rows []; Rows []; Rows []; Rows []] i
      = Some (Rows (concat (map (fun t => level_slice
                                            (map (@length (R * R))
                                                 [[(10, 40)]; []; []; []; []])
                                            i (snd (fst t)))
                                per_image))) /\
      nth_error [Scalars [0]; Scalars []; Scalars []; Scalars []; Scalars []] i
      = Some (Scalars (concat (map (fun t => level_slice
                                               (map (@length (R * R))
                                                    [[(10, 40)]; []; []; []; []])
                                               i (snd t))
                                   per_image))).
Proof.
  apply (@polar_target_level_major plain_head [[(10, 40)]; []; []; []; []]
           [{| gt_bboxes := [(20, 20, 60, 60)]; gt_masks := [];
               gt_labels := [2%Z]; mask_centers := [(40, 40)];
               gt_max_centerness := [] |}]).
  exact polar_target_one_image.
Defined.

End RegroupMore.
